(** * truth-weaver: the simulation engine (lib/simulation.ts)

    A shallow embedding of the epidemic engine: network generation, the
    per-tick transition function, the two interventions and the statistics
    aggregator, together with the properties the design document states
    about them; then the force layout, and the page that drives the engine
    (pages/Index.tsx with the click handler of NetworkCanvas), as a
    transition system over the handlers of the page.

    Conventions of the embedding.
    - A JavaScript [number] that is used as a counter, an index or a tick is
      an integer ([Z], or [nat] for a position in an array); a [number] that
      is a coordinate, a probability or a density is an exact rational ([Q]).
      Rounding, infinities and NaN are outside the model.
    - An array of objects is a [list]; an object reference is the position of
      the object in the array it lives in, so that a write through an alias
      is a write at that position.
    - A thrown exception (a TypeError on reading a property of [undefined],
      a RangeError of [Array(n)]) is the result [None].
    - [Math.random()] reads the next element of a sequence of draws
      [rnd : nat -> Q]; the position in the sequence is threaded through the
      code as a counter.
    - [Math.hypot], [Math.sqrt], [Math.exp] and the order in which
      [sort(() => Math.random() - 0.5)] leaves an array belong to the
      runtime: they are parameters, and of the sort only what every runtime
      guarantees is assumed, that it rearranges the array.
    - Arrays are unbounded; the limit on the length of an array and the
      exhaustion of memory are outside the model.
    - A handler of the page runs to completion on the state of the last
      render; the position in the sequence of draws at which it starts is a
      parameter of the event. *)

From Stdlib Require Import ZArith QArith Qround Lia Lqa.
From stdpp Require Import base option list relations.

Open Scope Z_scope.

(** ** Data model *)

Inductive NodeState := healthy | infected | recovered | aware.

#[global] Instance NodeState_eq_dec : EqDecision NodeState.
Proof. solve_decision. Defined.

Record SimNode := mkSimNode {
  id : Z;
  x : Q;
  y : Q;
  vx : Q;
  vy : Q;
  state : NodeState;
  infectedAt : Z;
  connections : list Z
}.

Record SimEdge := mkSimEdge {
  source : Z;
  target : Z
}.

Record SimStats := mkSimStats {
  stats_tick : Z;
  stats_healthy : nat;
  stats_infected : nat;
  stats_recovered : nat;
  stats_aware : nat
}.

Record SimConfig := mkSimConfig {
  nodeCount : Z;
  connectionDensity : Q;
  spreadProbability : Q;
  recoveryTime : Z;
  initialInfected : Z
}.

Definition DEFAULT_CONFIG : SimConfig :=
  {| nodeCount := 80;
     connectionDensity := 3;
     spreadProbability := 15 # 100;
     recoveryTime := 30;
     initialInfected := 2 |}.

(** Field assignments [n.state = s], [n.infectedAt = t] and
    [n.connections.push(j)] on one object. *)
Definition with_state (s : NodeState) (n : SimNode) : SimNode :=
  {| id := id n; x := x n; y := y n; vx := vx n; vy := vy n;
     state := s; infectedAt := infectedAt n; connections := connections n |}.

Definition with_infectedAt (t : Z) (n : SimNode) : SimNode :=
  {| id := id n; x := x n; y := y n; vx := vx n; vy := vy n;
     state := state n; infectedAt := t; connections := connections n |}.

Definition push_connection (j : Z) (n : SimNode) : SimNode :=
  {| id := id n; x := x n; y := y n; vx := vx n; vy := vy n;
     state := state n; infectedAt := infectedAt n;
     connections := connections n ++ [j] |}.

(** [a[i]] for a number [i]: [undefined] (here [None]) below zero and from
    the length on. *)
Definition at_Z {A : Type} (l : list A) (i : Z) : option A :=
  if decide (0 <= i) then l !! Z.to_nat i else None.

(** [a < b] on numbers. *)
Definition Qltb (a b : Q) : bool := negb (Qle_bool b a).

(** A loop whose body may throw: the first failure aborts the loop. *)
Fixpoint foldlM {A B : Type} (f : B -> A -> option B) (l : list A) (b : B)
  : option B :=
  match l with
  | [] => Some b
  | a :: l' => match f b a with
               | Some b' => foldlM f l' b'
               | None => None
               end
  end.

(** ** The working copy and its history of state writes

    Each operation starts from [nodes.map(n => ({...n}))], a fresh array of
    fresh objects, and then assigns to fields of these objects.  The store is
    that array; next to it we keep, as ghost data, the list of all
    assignments to a [state] field in the order in which they are executed,
    each with the value the field had just before. *)

Record StateWrite := mkStateWrite {
  w_index : nat;
  w_from : NodeState;
  w_to : NodeState
}.

Record Store := mkStore {
  objs : list SimNode;
  writes : list StateWrite
}.

Definition copy_nodes (nodes : list SimNode) : Store :=
  {| objs := nodes; writes := [] |}.

(** [updated[i].state = s].  The object at [i] was dereferenced before every
    call, so the second branch is never taken in the operations below. *)
Definition set_state (i : nat) (s : NodeState) (st : Store) : Store :=
  match objs st !! i with
  | Some n =>
      {| objs := <[i := with_state s n]> (objs st);
         writes := writes st ++ [ {| w_index := i; w_from := state n; w_to := s |} ] |}
  | None => st
  end.

(** [updated[i].infectedAt = t]. *)
Definition set_infectedAt (i : nat) (t : Z) (st : Store) : Store :=
  {| objs := alter (with_infectedAt t) i (objs st); writes := writes st |}.

(** The legal edges of the state graph. *)
Inductive legal_edge : NodeState -> NodeState -> Prop :=
| edge_infect : legal_edge healthy infected
| edge_recover : legal_edge infected recovered
| edge_aware : legal_edge healthy aware.

Definition legal_write (w : StateWrite) : Prop := legal_edge (w_from w) (w_to w).

(** Replaying a history of writes on the vector of states; the replay fails
    when a write does not start from the state its object is in. *)
Fixpoint replay (ws : list StateWrite) (ss : list NodeState)
  : option (list NodeState) :=
  match ws with
  | [] => Some ss
  | w :: ws' =>
      if decide (ss !! w_index w = Some (w_from w))
      then replay ws' (<[w_index w := w_to w]> ss)
      else None
  end.

Section Engine.

(** The sequence of results of [Math.random()]. *)
Variable rnd : nat -> Q.

(** [Math.hypot], [Math.sqrt] and [Math.exp] of the runtime. *)
Variable Math_hypot : Q -> Q -> Q.
Variable Math_sqrt : Q -> Q.
Variable Math_exp : Q -> Q.

(** [a.sort(() => Math.random() - 0.5)] of the runtime, started at draw
    number [k].  The comparator is inconsistent, so the resulting order is
    left to the implementation; the result is a rearrangement of [a]. *)
Variable sort_random : forall A : Type, nat -> list A -> list A.
Hypothesis sort_random_perm : forall (A : Type) (k : nat) (l : list A),
  sort_random A k l ≡ₚ l.

(** ** simulationTick *)

(** The body of the loop over [node.connections]. *)
Definition spread (cfg : SimConfig) (tick : Z) (acc : Store * nat) (neighborId : Z)
  : option (Store * nat) :=
  let '(st, k) := acc in
  match at_Z (objs st) neighborId with
  | None => None
  | Some neighbor =>
      match state neighbor with
      | healthy =>
          if Qltb (rnd k) (spreadProbability cfg)
          then Some (set_infectedAt (Z.to_nat neighborId) tick
                       (set_state (Z.to_nat neighborId) infected st), S k)
          else Some (st, S k)
      | _ => Some (st, k)
      end
  end.

(** The body of the loop over [updated]; [i] is the position of [node]. *)
Definition visit (cfg : SimConfig) (tick : Z) (acc : Store * nat) (i : nat)
  : option (Store * nat) :=
  let '(st, k) := acc in
  match objs st !! i with
  | None => None
  | Some node =>
      match state node with
      | infected =>
          match foldlM (spread cfg tick) (connections node) (st, k) with
          | None => None
          | Some (st', k') =>
              match objs st' !! i with
              | None => None
              | Some node' =>
                  if Z.leb (recoveryTime cfg) (tick - infectedAt node')
                  then Some (set_state i recovered st', k')
                  else Some (st', k')
              end
          end
      | _ => Some (st, k)
      end
  end.

Definition simulationTick_run (nodes : list SimNode) (cfg : SimConfig) (tick : Z)
  (k : nat) : option (Store * nat) :=
  foldlM (visit cfg tick) (seq 0 (length nodes)) (copy_nodes nodes, k).

Definition simulationTick (nodes : list SimNode) (cfg : SimConfig) (tick : Z)
  (k : nat) : option (list SimNode) :=
  match simulationTick_run nodes cfg tick k with
  | Some (st, _) => Some (objs st)
  | None => None
  end.

(** ** applyFactCheck *)

(** The body of the loop over the target's connections. *)
Definition immunize (acc : Store * nat) (nId : Z) : option (Store * nat) :=
  let '(st, k) := acc in
  match at_Z (objs st) nId with
  | None => None
  | Some nb =>
      match state nb with
      | healthy =>
          if Qltb (rnd k) (1 # 2)
          then Some (set_state (Z.to_nat nId) aware st, S k)
          else Some (st, S k)
      | _ => Some (st, k)
      end
  end.

Definition applyFactCheck_run (nodes : list SimNode) (nodeId : Z) (k : nat)
  : option (Store * nat) :=
  let updated := copy_nodes nodes in
  match at_Z (objs updated) nodeId with
  | None => None
  | Some node =>
      let st1 :=
        match state node with
        | infected => set_state (Z.to_nat nodeId) recovered updated
        | _ => updated
        end in
      foldlM immunize (connections node) (st1, k)
  end.

Definition applyFactCheck (nodes : list SimNode) (nodeId : Z) (k : nat)
  : option (list SimNode) :=
  match applyFactCheck_run nodes nodeId k with
  | Some (st, _) => Some (objs st)
  | None => None
  end.

(** ** applyAwarenessCampaign *)

(** [updated.filter(n => n.state === 'healthy')]: the references to the
    healthy objects of [updated], in array order. *)
Definition healthy_refs (nodes : list SimNode) : list nat :=
  filter (fun i => (state <$> nodes !! i) = Some healthy) (seq 0 (length nodes)).

(** [Math.ceil(h * 0.2)]. *)
Definition campaign_count (h : nat) : Z :=
  Qceiling (inject_Z (Z.of_nat h) * (2 # 10)).

Definition applyAwarenessCampaign_run (nodes : list SimNode) (k : nat) : Store :=
  let updated := copy_nodes nodes in
  let healthyNodes := healthy_refs (objs updated) in
  let count := campaign_count (length healthyNodes) in
  let shuffled := sort_random nat k healthyNodes in
  let bound := Z.min count (Z.of_nat (length shuffled)) in
  foldl (fun st r => set_state r aware st) updated (take (Z.to_nat bound) shuffled).

Definition applyAwarenessCampaign (nodes : list SimNode) (k : nat) : list SimNode :=
  objs (applyAwarenessCampaign_run nodes k).

(** ** getStats *)

Definition getStats (nodes : list SimNode) (tick : Z) : SimStats :=
  {| stats_tick := tick;
     stats_healthy := length (filter (fun n => state n = healthy) nodes);
     stats_infected := length (filter (fun n => state n = infected) nodes);
     stats_recovered := length (filter (fun n => state n = recovered) nodes);
     stats_aware := length (filter (fun n => state n = aware) nodes) |}.

Definition stats_total (s : SimStats) : nat :=
  (stats_healthy s + stats_infected s + stats_recovered s + stats_aware s)%nat.

(** ** generateNetwork *)

Definition padding : Q := 60.

(** The body of the first loop: [nodes.push({ id: i, ... })]; the object
    literal draws [x] first and [y] second. *)
Definition place (width height : Q) (acc : list SimNode * nat) (i : nat)
  : list SimNode * nat :=
  let '(nodes, k) := acc in
  (nodes ++ [ {| id := Z.of_nat i;
                 x := (padding + rnd k * (width - padding * 2))%Q;
                 y := (padding + rnd (S k) * (height - padding * 2))%Q;
                 vx := 0; vy := 0;
                 state := healthy;
                 infectedAt := -1;
                 connections := [] |} ],
   S (S k)).

(** An element [{ j, dist }] of [distances]. *)
Record Candidate := mkCandidate {
  cand_j : nat;
  cand_dist : Q
}.

(** [.sort((a, b) => a.dist - b.dist)]: the comparator is consistent, so the
    result is the stable sort by [dist]. *)
Fixpoint insert_by_dist (c : Candidate) (l : list Candidate) : list Candidate :=
  match l with
  | [] => [c]
  | d :: l' =>
      if Qle_bool (cand_dist c) (cand_dist d) then c :: l
      else d :: insert_by_dist c l'
  end.

Definition sort_by_dist (l : list Candidate) : list Candidate :=
  foldr insert_by_dist [] l.

Definition distances (nodes : list SimNode) (i : nat) : option (list Candidate) :=
  match nodes !! i with
  | None => None
  | Some me =>
      Some (sort_by_dist
              (filter (fun d => cand_j d <> i)
                 (imap (fun j n =>
                          {| cand_j := j;
                             cand_dist := Math_hypot (x n - x me) (y n - y me) |})
                    nodes)))
  end.

(** The nearest other node of node [i]: the first of its candidates. *)
Definition nearest (nodes : list SimNode) (i : nat) : option nat :=
  match distances nodes i with
  | Some (d :: _) => Some (cand_j d)
  | _ => None
  end.

(** [Math.max(1, Math.floor(config.connectionDensity + (Math.random() - 0.5) * 2))]
    for the draw [r]. *)
Definition targetConns (density : Q) (r : Q) : Z :=
  Z.max 1 (Qfloor (density + (r - (1 # 2)) * 2)).

Record GenState := mkGenState {
  g_nodes : list SimNode;
  g_edges : list SimEdge;
  g_draws : nat
}.

(** [nodes[i].connections.push(j)]. *)
Definition add_connection (i : nat) (j : Z) (nodes : list SimNode)
  : option (list SimNode) :=
  match nodes !! i with
  | Some n => Some (<[i := push_connection j n]> nodes)
  | None => None
  end.

(** The loop over [distances] for node [i], with its [break] and
    [continue]; [added] counts the edges accepted so far. *)
Fixpoint connect (i : nat) (target_conns : Z) (maxDist : Q) (ds : list Candidate)
  (added : Z) (g : GenState) : option GenState :=
  match ds with
  | [] => Some g
  | d :: ds' =>
      if Z.leb target_conns added then Some g
      else
        match g_nodes g !! i with
        | None => None
        | Some me =>
            if bool_decide (Z.of_nat (cand_j d) ∈ connections me)
            then connect i target_conns maxDist ds' added g
            else
              let prob := Math_exp (- cand_dist d / (maxDist * (15 # 100)))%Q in
              let r := rnd (g_draws g) in
              if Qltb r prob || Z.eqb added 0
              then
                match add_connection i (Z.of_nat (cand_j d)) (g_nodes g) with
                | None => None
                | Some nodes1 =>
                    match add_connection (cand_j d) (Z.of_nat i) nodes1 with
                    | None => None
                    | Some nodes2 =>
                        connect i target_conns maxDist ds' (added + 1)
                          {| g_nodes := nodes2;
                             g_edges := g_edges g ++
                               [ {| source := Z.of_nat i;
                                    target := Z.of_nat (cand_j d) |} ];
                             g_draws := S (g_draws g) |}
                    end
                end
              else
                connect i target_conns maxDist ds' added
                  {| g_nodes := g_nodes g; g_edges := g_edges g;
                     g_draws := S (g_draws g) |}
        end
  end.

(** The body of the second loop. *)
Definition link (cfg : SimConfig) (maxDist : Q) (g : GenState) (i : nat)
  : option GenState :=
  match distances (g_nodes g) i with
  | None => None
  | Some ds =>
      let target_conns := targetConns (connectionDensity cfg) (rnd (g_draws g)) in
      connect i target_conns maxDist ds 0
        {| g_nodes := g_nodes g; g_edges := g_edges g; g_draws := S (g_draws g) |}
  end.

(** The body of the last loop: [nodes[shuffled[i]].state = 'infected';
    nodes[shuffled[i]].infectedAt = 0]. *)
Definition seed (shuffled : list nat) (nodes : list SimNode) (i : nat)
  : option (list SimNode) :=
  match shuffled !! i with
  | None => None
  | Some s =>
      match nodes !! s with
      | None => None
      | Some n => Some (<[s := with_infectedAt 0 (with_state infected n)]> nodes)
      end
  end.

Definition generateNetwork (cfg : SimConfig) (width height : Q) (k : nat)
  : option (list SimNode * list SimEdge) :=
  let n := Z.to_nat (nodeCount cfg) in
  let '(nodes0, k1) := foldl (place width height) ([], k) (seq 0 n) in
  let maxDist := Math_sqrt (width * width + height * height)%Q in
  match foldlM (link cfg maxDist) (seq 0 n)
          {| g_nodes := nodes0; g_edges := []; g_draws := k1 |} with
  | None => None
  | Some g =>
      (* [Array(config.nodeCount)] throws a RangeError below zero *)
      if decide (nodeCount cfg < 0) then None
      else
        let shuffled := sort_random nat (g_draws g) (seq 0 n) in
        match foldlM (seed shuffled) (seq 0 (Z.to_nat (initialInfected cfg)))
                (g_nodes g) with
        | None => None
        | Some nodes => Some (nodes, g_edges g)
        end
  end.

(** ** A run: generation followed by ticks and interventions *)

Inductive Reachable (cfg : SimConfig) (width height : Q) : list SimNode -> Prop :=
| reach_generate k nodes edges :
    generateNetwork cfg width height k = Some (nodes, edges) ->
    Reachable cfg width height nodes
| reach_tick nodes tick k nodes' :
    Reachable cfg width height nodes ->
    simulationTick nodes cfg tick k = Some nodes' ->
    Reachable cfg width height nodes'
| reach_factCheck nodes nodeId k nodes' :
    Reachable cfg width height nodes ->
    applyFactCheck nodes nodeId k = Some nodes' ->
    Reachable cfg width height nodes'
| reach_campaign nodes k :
    Reachable cfg width height nodes ->
    Reachable cfg width height (applyAwarenessCampaign nodes k).

(** The three core operations, seen as runs from an input array to the
    final working copy. *)
Inductive core_run (nodes : list SimNode) : Store -> Prop :=
| run_tick cfg tick k st k' :
    simulationTick_run nodes cfg tick k = Some (st, k') ->
    core_run nodes st
| run_factCheck nodeId k st k' :
    applyFactCheck_run nodes nodeId k = Some (st, k') ->
    core_run nodes st
| run_campaign k :
    core_run nodes (applyAwarenessCampaign_run nodes k).

End Engine.

(** ** Elementary mutations of the working copy *)

(** The assignments the three operations perform, each with the test that
    guards it in the source. *)
Inductive store_step : Store -> Store -> Prop :=
| step_infect st i n t :
    objs st !! i = Some n -> state n = healthy ->
    store_step st (set_infectedAt i t (set_state i infected st))
| step_recover st i n :
    objs st !! i = Some n -> state n = infected ->
    store_step st (set_state i recovered st)
| step_aware st i n :
    objs st !! i = Some n -> state n = healthy ->
    store_step st (set_state i aware st).

(** The assignments of [simulationTick] for a given config and tick. *)
Inductive tick_step (cfg : SimConfig) (tick : Z) : Store -> Store -> Prop :=
| tick_infect st i n :
    objs st !! i = Some n -> state n = healthy ->
    tick_step cfg tick st (set_infectedAt i tick (set_state i infected st))
| tick_recover st i n :
    objs st !! i = Some n -> state n = infected ->
    recoveryTime cfg <= tick - infectedAt n ->
    tick_step cfg tick st (set_state i recovered st).

(** What one call of [simulationTick] can do to one node. *)
Inductive tick_effect (cfg : SimConfig) (tick : Z) (n : SimNode) : SimNode -> Prop :=
| effect_none : tick_effect cfg tick n n
| effect_infected :
    state n = healthy ->
    tick_effect cfg tick n (with_infectedAt tick (with_state infected n))
| effect_recovered :
    state n = infected -> recoveryTime cfg <= tick - infectedAt n ->
    tick_effect cfg tick n (with_state recovered n)
| effect_infected_recovered :
    state n = healthy -> recoveryTime cfg <= tick - tick ->
    tick_effect cfg tick n
      (with_state recovered (with_infectedAt tick (with_state infected n))).

(** The history of [st'] continues that of [st] by legal writes, and
    replaying the new writes on the states of [st] gives the states of [st']. *)
Definition extends (st st' : Store) : Prop :=
  exists ws, writes st' = writes st ++ ws /\
             Forall legal_write ws /\
             replay ws (state <$> objs st) = Some (state <$> objs st').

(** The fields that no operation assigns. *)
Definition same_frame (n n' : SimNode) : Prop :=
  id n' = id n /\ x n' = x n /\ y n' = y n /\ vx n' = vx n /\ vy n' = vy n /\
  connections n' = connections n.

(** Nodes that are not healthy are out of reach of the spreading loop. *)
Definition keeps_unhealthy (st st' : Store) : Prop :=
  forall j n, objs st !! j = Some n -> state n <> healthy -> objs st' !! j = Some n.

(** ** Well-formed networks *)


(** The node at position [i] carries the id [i]; its neighbours are ids of
    the array, each listed once, and it is not its own neighbour. *)
Definition wf_node (len : nat) (i : nat) (n : SimNode) : Prop :=
  id n = Z.of_nat i /\
  NoDup (connections n) /\
  Forall (fun j => 0 <= j < Z.of_nat len /\ j <> Z.of_nat i) (connections n).

Definition wf_network (nodes : list SimNode) : Prop :=
  forall i n, nodes !! i = Some n -> wf_node (length nodes) i n.

(** ** The target degree as the design document words it *)




(** ** Invariants of the generator *)

(** Symmetry stated on positions of the array. *)
Definition sym_pos (nodes : list SimNode) : Prop :=
  forall a b na nb, nodes !! a = Some na -> nodes !! b = Some nb ->
    (Z.of_nat b ∈ connections na <-> Z.of_nat a ∈ connections nb).

Definition gen_ok (len : nat) (nodes : list SimNode) : Prop :=
  length nodes = len /\ wf_network nodes /\ sym_pos nodes.

(** Nodes stay where they are and keep the neighbours they have. *)
Definition grows (nodes nodes' : list SimNode) : Prop :=
  length nodes' = length nodes /\
  forall a na na', nodes !! a = Some na -> nodes' !! a = Some na' ->
    x na' = x na /\ y na' = y na /\
    (forall c, c ∈ connections na -> c ∈ connections na').

(** The fields an edge insertion leaves alone. *)
Definition same_status (n n' : SimNode) : Prop :=
  id n' = id n /\ x n' = x n /\ y n' = y n /\
  state n' = state n /\ infectedAt n' = infectedAt n.

(** The neighbours in [cs] that are healthy in [nodes], in list order. *)
Definition healthy_neighbours (nodes : list SimNode) (cs : list Z) : list Z :=
  filter (fun j => state <$> at_Z nodes j = Some healthy) cs.

(** ** Concrete instances, used to run the definitions *)

Definition rnd_zero : nat -> Q := fun _ => 0%Q.
Definition rnd_half : nat -> Q := fun _ => (1 # 2)%Q.
Definition hypot_squared (a b : Q) : Q := (a * a + b * b)%Q.
Definition sqrt_id (a : Q) : Q := a.
Definition exp_zero (a : Q) : Q := 0%Q.
Definition sort_keep (A : Type) (k : nat) (l : list A) : list A := l.

Definition node_at (i : Z) (s : NodeState) (t : Z) (cs : list Z) : SimNode :=
  {| id := i; x := 0; y := 0; vx := 0; vy := 0;
     state := s; infectedAt := t; connections := cs |}.

(** Two connected nodes, the first one infected at tick 0. *)
Definition pair_nodes : list SimNode :=
  [ node_at 0 infected 0 [1]; node_at 1 healthy (-1) [0] ].

(** A path of three nodes with the infected node in the middle. *)
Definition path_nodes : list SimNode :=
  [ node_at 0 healthy (-1) [1]; node_at 1 infected 0 [0; 2];
    node_at 2 healthy (-1) [1] ].

Definition config_of (n : Z) (rt : Z) (seeds : Z) : SimConfig :=
  {| nodeCount := n; connectionDensity := 3; spreadProbability := 1;
     recoveryTime := rt; initialInfected := seeds |}.

(** A generated network of three nodes, and one tick on [pair_nodes] with
    immediate recovery. *)
Definition sample_config : SimConfig := config_of 3 30 1.

Definition sample_nodes : list SimNode :=
  Eval vm_compute in
    match generateNetwork rnd_half hypot_squared sqrt_id exp_zero sort_keep
            sample_config 700 500 0 with
    | Some (nodes, _) => nodes
    | None => []
    end.

Definition sample_edges : list SimEdge :=
  Eval vm_compute in
    match generateNetwork rnd_half hypot_squared sqrt_id exp_zero sort_keep
            sample_config 700 500 0 with
    | Some (_, edges) => edges
    | None => []
    end.

Definition pair_tick_store : Store :=
  Eval vm_compute in
    match simulationTick_run rnd_zero pair_nodes (config_of 2 0 1) 5 0 with
    | Some (st, _) => st
    | None => copy_nodes []
    end.

(** ** Further relations on runs *)

(** The assignments of the two interventions. *)
Inductive cure_step : Store -> Store -> Prop :=
| cure_recover st i n :
    objs st !! i = Some n -> state n = infected ->
    cure_step st (set_state i recovered st)
| cure_aware st i n :
    objs st !! i = Some n -> state n = healthy ->
    cure_step st (set_state i aware st).

(** [n'] is [n] up to its [state] field. *)
Definition only_state_differs (n n' : SimNode) : Prop :=
  n' = with_state (state n') n.

(** ** The edge list against the adjacency lists *)

(** The edge [{ source: a, target: b }]. *)
Definition edge (a b : nat) : SimEdge :=
  {| source := Z.of_nat a; target := Z.of_nat b |}.

(** The sum of the degrees. *)
Definition total_degree (nodes : list SimNode) : nat :=
  sum_list ((fun n => length (connections n)) <$> nodes).

(** The edge list names every link once, in one orientation only, between
    two different nodes of the array; two nodes are neighbours exactly when
    the list holds their edge; the degrees add up to twice the number of
    edges. *)
Definition edges_ok (nodes : list SimNode) (edges : list SimEdge) : Prop :=
  NoDup edges /\
  (forall e, e ∈ edges ->
     exists a b, e = edge a b /\ a <> b /\
       (a < length nodes)%nat /\ (b < length nodes)%nat /\ edge b a ∉ edges) /\
  (forall a b na, nodes !! a = Some na ->
     (Z.of_nat b ∈ connections na <-> edge a b ∈ edges \/ edge b a ∈ edges)) /\
  total_degree nodes = (2 * length edges)%nat.

(** A node as the seeding loop leaves it. *)
Definition seeded (n : SimNode) : SimNode :=
  with_infectedAt 0 (with_state infected n).

(** A node as the first loop of the generator creates it. *)
Definition fresh (n : SimNode) : Prop :=
  state n = healthy /\ infectedAt n = -1.

(** Every id in a connections list is a position of the array. *)
Definition connections_in_range (nodes : list SimNode) : Prop :=
  Forall (fun n => Forall (fun c => 0 <= c < Z.of_nat (length nodes)) (connections n))
         nodes.

(** The assignments of [simulationTick] with the node the infection comes
    from: [j] is infected while the loop visits the infected node [i] that
    lists it. *)
Inductive contact_step (cfg : SimConfig) (tick : Z) : Store -> Store -> Prop :=
| contact_infect st i ni j nj :
    objs st !! i = Some ni -> state ni = infected ->
    Z.of_nat j ∈ connections ni ->
    objs st !! j = Some nj -> state nj = healthy ->
    contact_step cfg tick st (set_infectedAt j tick (set_state j infected st))
| contact_recover st i n :
    objs st !! i = Some n -> state n = infected ->
    recoveryTime cfg <= tick - infectedAt n ->
    contact_step cfg tick st (set_state i recovered st).

(** Node [j] is listed by another node that is infected or recovered. *)
Definition exposed (nodes : list SimNode) (j : nat) : Prop :=
  exists i ni, i <> j /\ nodes !! i = Some ni /\
    Z.of_nat j ∈ connections ni /\ (state ni = infected \/ state ni = recovered).

(** * The force layout: applyForces *)

(** [Math.max] and [Math.min] of two numbers. *)
Definition Math_max (a b : Q) : Q := if Qle_bool a b then b else a.
Definition Math_min (a b : Q) : Q := if Qle_bool a b then a else b.

Definition with_velocity (vx' vy' : Q) (n : SimNode) : SimNode :=
  {| id := id n; x := x n; y := y n; vx := vx'; vy := vy';
     state := state n; infectedAt := infectedAt n; connections := connections n |}.

Definition with_position (x' y' : Q) (n : SimNode) : SimNode :=
  {| id := id n; x := x'; y := y'; vx := vx n; vy := vy n;
     state := state n; infectedAt := infectedAt n; connections := connections n |}.

(** [n.vx += fx; n.vy += fy] and [n.vx -= fx; n.vy -= fy]. *)
Definition push (fx fy : Q) (n : SimNode) : SimNode :=
  with_velocity (vx n + fx)%Q (vy n + fy)%Q n.
Definition pull (fx fy : Q) (n : SimNode) : SimNode :=
  with_velocity (vx n - fx)%Q (vy n - fy)%Q n.

(** The [padding] of applyForces. *)
Definition layout_padding : Q := 40.

Section Layout.

Variable Math_hypot : Q -> Q -> Q.

(** The body of the inner repulsion loop, for the pair [i], [j]. *)
Definition repel (i : nat) (updated : list SimNode) (j : nat)
  : option (list SimNode) :=
  match updated !! j, updated !! i with
  | Some nj, Some ni =>
      let dx := (x nj - x ni)%Q in
      let dy := (y nj - y ni)%Q in
      let dist := Math_max (Math_hypot dx dy) 1 in
      let force := (800 / (dist * dist))%Q in
      let fx := (dx / dist * force)%Q in
      let fy := (dy / dist * force)%Q in
      Some (alter (push fx fy) j (alter (pull fx fy) i updated))
  | _, _ => None
  end.

(** [for (let j = i + 1; j < updated.length; j++)]. *)
Definition repel_row (len : nat) (updated : list SimNode) (i : nat)
  : option (list SimNode) :=
  foldlM (repel i) (seq (S i) (len - S i)) updated.

Definition repulsion (updated : list SimNode) : option (list SimNode) :=
  foldlM (repel_row (length updated)) (seq 0 (length updated)) updated.

(** The body of the loop over the edges; [a] and [b] are references into
    [updated], and they are the same object when the edge is a loop. *)
Definition attract (updated : list SimNode) (e : SimEdge) : option (list SimNode) :=
  match at_Z updated (source e), at_Z updated (target e) with
  | Some a, Some b =>
      let dx := (x b - x a)%Q in
      let dy := (y b - y a)%Q in
      let dist := Math_hypot dx dy in
      let force := ((dist - 80) * (1 # 100))%Q in
      let fx := (dx / Math_max dist 1 * force)%Q in
      let fy := (dy / Math_max dist 1 * force)%Q in
      Some (alter (pull fx fy) (Z.to_nat (target e))
              (alter (push fx fy) (Z.to_nat (source e)) updated))
  | _, _ => None
  end.

(** The body of the centre-gravity loop. *)
Definition gravity (cx cy : Q) (n : SimNode) : SimNode :=
  push ((cx - x n) * (2 # 1000))%Q ((cy - y n) * (2 # 1000))%Q n.

(** The body of the last loop: half a step along the velocity, then the clamp
    to the padded canvas. *)
Definition integrate (width height : Q) (n : SimNode) : SimNode :=
  let x1 := (x n + vx n * (1 # 2))%Q in
  let y1 := (y n + vy n * (1 # 2))%Q in
  with_position
    (Math_max layout_padding (Math_min (width - layout_padding)%Q x1))
    (Math_max layout_padding (Math_min (height - layout_padding)%Q y1)) n.

Definition applyForces (nodes : list SimNode) (edges : list SimEdge)
  (width height : Q) : option (list SimNode) :=
  let updated := with_velocity 0 0 <$> nodes in
  match repulsion updated with
  | None => None
  | Some u1 =>
      match foldlM attract edges u1 with
      | None => None
      | Some u2 =>
          let cx := (width / 2)%Q in
          let cy := (height / 2)%Q in
          Some (integrate width height <$> (gravity cx cy <$> u2))
      end
  end.

End Layout.

(** What the layout leaves alone: everything but the velocity. *)
Definition same_place (n n' : SimNode) : Prop :=
  id n' = id n /\ x n' = x n /\ y n' = y n /\ state n' = state n /\
  infectedAt n' = infectedAt n /\ connections n' = connections n.

(** What the layout leaves alone in the end: everything but position and
    velocity. *)
Definition same_node (n n' : SimNode) : Prop :=
  id n' = id n /\ state n' = state n /\ infectedAt n' = infectedAt n /\
  connections n' = connections n.

(** Both ends of an edge are positions of an array of length [len]. *)
Definition edge_in_range (len : nat) (e : SimEdge) : Prop :=
  (0 <= source e < Z.of_nat len) /\ (0 <= target e < Z.of_nat len).

Definition sum_Q (l : list Q) : Q := foldr Qplus 0%Q l.

(** The velocities of an array add up to zero. *)
Definition at_rest (u : list SimNode) : Prop :=
  (sum_Q (vx <$> u) == 0)%Q /\ (sum_Q (vy <$> u) == 0)%Q.

(** * The page: pages/Index.tsx and the click handler of NetworkCanvas *)

Module Index.

Definition CANVAS_W : Q := 700.
Definition CANVAS_H : Q := 500.

(** The state of the page ([speed] only sets the period of the timer). *)
Record State := mkState {
  nodes : list SimNode;
  edges : list SimEdge;
  tick : Z;
  isRunning : bool;
  history : list SimStats;
  factCheckMode : bool
}.

(** The updater passed to [setHistory]: append, keep the last 200. *)
Definition push_history (h : list SimStats) (stats : SimStats) : list SimStats :=
  let newH := h ++ [stats] in
  if decide (200 < length newH)%nat then drop (length newH - 200) newH else newH.

(** The body of [laid.forEach((node, i) => ...)]: the three fields are read
    from [n[i]]. *)
Definition restore (n : list SimNode) (i : nat) (node : SimNode) : option SimNode :=
  match n !! i with
  | None => None
  | Some orig =>
      Some {| id := id node; x := x node; y := y node; vx := vx node; vy := vy node;
              state := state orig; infectedAt := infectedAt orig;
              connections := connections orig |}
  end.

Fixpoint preserve (n : list SimNode) (i : nat) (laid : list SimNode)
  : option (list SimNode) :=
  match laid with
  | [] => Some []
  | node :: rest =>
      match restore n i node with
      | None => None
      | Some node' =>
          match preserve n (S i) rest with
          | None => None
          | Some rest' => Some (node' :: rest')
          end
      end
  end.

Section Page.

Variable rnd : nat -> Q.
Variable Math_hypot : Q -> Q -> Q.
Variable Math_sqrt : Q -> Q.
Variable Math_exp : Q -> Q.
Variable sort_random : forall A : Type, nat -> list A -> list A.

(** [for (let i = 0; i < rounds; i++) laid = applyForces(laid, e, W, H)]. *)
Fixpoint layout (rounds : nat) (laid : list SimNode) (e : list SimEdge)
  : option (list SimNode) :=
  match rounds with
  | O => Some laid
  | S rounds' =>
      match applyForces Math_hypot laid e CANVAS_W CANVAS_H with
      | None => None
      | Some laid' => layout rounds' laid' e
      end
  end.

Definition initNetwork (k : nat) : option State :=
  match generateNetwork rnd Math_hypot Math_sqrt Math_exp sort_random
          DEFAULT_CONFIG CANVAS_W CANVAS_H k with
  | None => None
  | Some (n, e) =>
      match layout 50 n e with
      | None => None
      | Some laid =>
          match preserve n 0 laid with
          | None => None
          | Some laid' =>
              Some {| nodes := laid'; edges := e; tick := 0; isRunning := false;
                      history := [getStats laid' 0]; factCheckMode := false |}
          end
      end
  end.

(** The callback of [setInterval], on the state of the render that
    installed it; it exists while [isRunning] holds. *)
Definition onInterval (s : State) (k : nat) : option State :=
  match simulationTick rnd (nodes s) DEFAULT_CONFIG (tick s + 1) k with
  | None => None
  | Some next =>
      let stats := getStats next (tick s + 1) in
      Some {| nodes := next; edges := edges s; tick := tick s + 1;
              isRunning := if decide (stats_infected stats = 0%nat) then false
                           else isRunning s;
              history := push_history (history s) stats;
              factCheckMode := factCheckMode s |}
  end.

(** NetworkCanvas.handleClick, from the canvas coordinates of the click on:
    the id of the first node closer than 20. *)
Fixpoint handleClick (l : list SimNode) (px py : Q) : option Z :=
  match l with
  | [] => None
  | node :: rest =>
      if Qltb (Math_hypot (x node - px) (y node - py)) 20 then Some (id node)
      else handleClick rest px py
  end.

Definition handleNodeClick (s : State) (nodeId : Z) (k : nat) : option State :=
  if factCheckMode s then
    match applyFactCheck rnd (nodes s) nodeId k with
    | None => None
    | Some out =>
        Some {| nodes := out; edges := edges s; tick := tick s;
                isRunning := isRunning s; history := history s;
                factCheckMode := false |}
    end
  else Some s.

Definition handleAwareness (s : State) (k : nat) : State :=
  {| nodes := applyAwarenessCampaign sort_random (nodes s) k; edges := edges s;
     tick := tick s; isRunning := isRunning s; history := history s;
     factCheckMode := factCheckMode s |}.

(** What can happen to the page; [k] is the position in the sequence of
    draws at which the handler starts. *)
Inductive Event :=
| Reset (k : nat)
| Interval (k : nat)
| CanvasClick (px py : Q) (k : nat)
| ToggleRun
| ToggleFactCheck
| Awareness (k : nat).

Definition handle (s : State) (ev : Event) : option State :=
  match ev with
  | Reset k => initNetwork k
  | Interval k => if isRunning s then onInterval s k else Some s
  | CanvasClick px py k =>
      (* the canvas gets [handleNodeClick] in fact-check mode only *)
      if factCheckMode s then
        match handleClick (nodes s) px py with
        | Some nodeId => handleNodeClick s nodeId k
        | None => Some s
        end
      else Some s
  | ToggleRun =>
      Some {| nodes := nodes s; edges := edges s; tick := tick s;
              isRunning := negb (isRunning s); history := history s;
              factCheckMode := factCheckMode s |}
  | ToggleFactCheck =>
      Some {| nodes := nodes s; edges := edges s; tick := tick s;
              isRunning := isRunning s; history := history s;
              factCheckMode := negb (factCheckMode s) |}
  | Awareness k => Some (handleAwareness s k)
  end.

(** The states of the page: the first render, then one event after another. *)
Inductive run : State -> Prop :=
| run_init k s : initNetwork k = Some s -> run s
| run_step s ev s' : run s -> handle s ev = Some s' -> run s'.

End Page.

(** The chart holds one snapshot per tick, the last [tick + 1] of them and at
    most 200, each counting every node of the network. *)
Definition history_ok (s : State) : Prop :=
  0 <= tick s /\
  Z.of_nat (length (history s)) = Z.min (tick s + 1) 200 /\
  forall i st, history s !! i = Some st ->
    stats_tick st = tick s - Z.of_nat (length (history s)) + 1 + Z.of_nat i /\
    stats_total st = length (nodes s).

Definition page_ok (s : State) : Prop :=
  length (nodes s) = 80%nat /\ wf_network (nodes s) /\
  Forall (edge_in_range 80) (edges s) /\ history_ok s.

End Index.

(** ** Concrete instances for the layout and the page *)

(** [pair_nodes] after tick 5 under [config_of 2 30 1]: the second node caught
    it. *)
Definition pair_after : list SimNode :=
  [ node_at 0 infected 0 [1]; node_at 1 infected 5 [0] ].

(** Two nodes without an infected one. *)
Definition calm_nodes : list SimNode :=
  [ node_at 0 healthy (-1) [1]; node_at 1 recovered 0 [0] ].

(** An infected node that lists an id outside the array. *)
Definition dangling_nodes : list SimNode := [ node_at 0 infected 0 [5] ].

(** Two linked nodes on the canvas, the second one left of the padding. *)
Definition layout_nodes : list SimNode :=
  [ {| id := 0; x := 100; y := 100; vx := 3; vy := 3;
       state := infected; infectedAt := 0; connections := [1] |};
    {| id := 1; x := 5; y := 100; vx := 0; vy := 0;
       state := healthy; infectedAt := -1; connections := [0] |} ].

Definition laid_nodes : list SimNode :=
  Eval vm_compute in
    match applyForces hypot_squared layout_nodes [edge 0 1] 700 500 with
    | Some out => out
    | None => []
    end.

(** The page in fact-check mode over [path_nodes]. *)
Definition click_state : Index.State :=
  {| Index.nodes := path_nodes; Index.edges := [edge 0 1; edge 1 2];
     Index.tick := 0; Index.isRunning := false; Index.history := [];
     Index.factCheckMode := true |}.

(** * Properties *)

(** ** Arrays and loops *)

Lemma sort_keep_perm (A : Type) (k : nat) (l : list A) : sort_keep A k l ≡ₚ l.
Proof. reflexivity. Qed.

Lemma at_Z_of_nat {A : Type} (l : list A) (i : nat) : at_Z l (Z.of_nat i) = l !! i.
Proof.
  unfold at_Z. destruct (decide (0 <= Z.of_nat i)) as [_|Hneg]; [|lia].
  by rewrite Nat2Z.id.
Qed.

Lemma at_Z_Some {A : Type} (l : list A) (i : Z) (a : A) :
  at_Z l i = Some a <-> 0 <= i /\ l !! Z.to_nat i = Some a.
Proof.
  unfold at_Z. destruct (decide (0 <= i)); split; intros H;
    try tauto; try discriminate; destruct H; lia.
Qed.

Lemma at_Z_None {A : Type} (l : list A) (i : Z) :
  at_Z l i = None <-> i < 0 \/ Z.of_nat (length l) <= i.
Proof.
  unfold at_Z. destruct (decide (0 <= i)) as [Hpos|Hneg].
  - rewrite lookup_ge_None. lia.
  - split; [lia | done].
Qed.

Lemma foldlM_app {A B : Type} (f : B -> A -> option B) (l1 l2 : list A) (b : B) :
  foldlM f (l1 ++ l2) b =
  match foldlM f l1 b with
  | Some b' => foldlM f l2 b'
  | None => None
  end.
Proof.
  revert b. induction l1 as [|a l1 IH]; intros b; simpl; [done|].
  destruct (f b a); [apply IH | done].
Qed.

(** An invariant of the loop body is an invariant of the loop. *)
Lemma foldlM_invariant {A B : Type} (P : B -> Prop) (f : B -> A -> option B)
  (l : list A) (b b' : B) :
  (forall b1 a b2, a ∈ l -> P b1 -> f b1 a = Some b2 -> P b2) ->
  P b -> foldlM f l b = Some b' -> P b'.
Proof.
  revert b. induction l as [|a l IH]; intros b Hstep Hb Hrun; simpl in Hrun.
  - by simplify_eq.
  - destruct (f b a) as [b1|] eqn:Hf; [|done].
    apply (IH b1); [| |done].
    + intros b2 a' b3 Hin. apply Hstep. by right.
    + apply (Hstep b a b1); [by left | done | done].
Qed.

(** A body that throws at some element, whatever the state, makes the loop
    throw. *)
Lemma foldlM_throws {A B : Type} (f : B -> A -> option B) (l : list A) (a : A) (b : B) :
  a ∈ l -> (forall b0, f b0 a = None) -> foldlM f l b = None.
Proof.
  revert b. induction l as [|a' l IH]; intros b Hin Hnone.
  - by apply elem_of_nil in Hin.
  - simpl. apply elem_of_cons in Hin as [->|Hin].
    + by rewrite Hnone.
    + destruct (f b a'); [by apply IH | done].
Qed.

(** A body that returns and keeps an invariant makes the loop return. *)
Lemma foldlM_total {A B : Type} (P : B -> Prop) (f : B -> A -> option B)
  (l : list A) (b : B) :
  (forall b1 a, a ∈ l -> P b1 -> exists b2, f b1 a = Some b2 /\ P b2) ->
  P b -> exists b', foldlM f l b = Some b' /\ P b'.
Proof.
  revert b. induction l as [|a l IH]; intros b Hstep Hb; simpl.
  - by exists b.
  - destruct (Hstep b a) as (b1 & Hf & Hb1); [by left | done |]. rewrite Hf.
    apply IH; [|done]. intros b2 a' Hin. apply Hstep. by right.
Qed.

(** ** Writes to the working copy *)

Lemma set_state_objs (i : nat) (s : NodeState) (st : Store) (n : SimNode) :
  objs st !! i = Some n ->
  objs (set_state i s st) = <[i := with_state s n]> (objs st).
Proof. intros H. unfold set_state. by rewrite H. Qed.

Lemma set_state_writes (i : nat) (s : NodeState) (st : Store) (n : SimNode) :
  objs st !! i = Some n ->
  writes (set_state i s st) =
  writes st ++ [ {| w_index := i; w_from := state n; w_to := s |} ].
Proof. intros H. unfold set_state. by rewrite H. Qed.

Lemma set_state_alter (i : nat) (s : NodeState) (st : Store) :
  objs (set_state i s st) = alter (with_state s) i (objs st).
Proof.
  unfold set_state. destruct (objs st !! i) as [n|] eqn:H; simpl.
  - rewrite list_insert_alter. apply list_alter_ext; [|done].
    intros n' Hn'. by simplify_eq.
  - symmetry. apply list_eq. intros j. rewrite list_lookup_alter.
    case_decide; [subst; by rewrite H | done].
Qed.

Lemma replay_app (ws1 ws2 : list StateWrite) (ss : list NodeState) :
  replay (ws1 ++ ws2) ss =
  match replay ws1 ss with
  | Some ss' => replay ws2 ss'
  | None => None
  end.
Proof.
  revert ss. induction ws1 as [|w ws1 IH]; intros ss; simpl; [done|].
  case_decide; [apply IH | done].
Qed.

Lemma extends_refl (st : Store) : extends st st.
Proof.
  exists []. split; [by rewrite app_nil_r|]. split; [constructor | done].
Qed.

Lemma extends_trans (st1 st2 st3 : Store) :
  extends st1 st2 -> extends st2 st3 -> extends st1 st3.
Proof.
  intros (ws1 & Hw1 & Hl1 & Hs1) (ws2 & Hw2 & Hl2 & Hs2).
  exists (ws1 ++ ws2). split; [by rewrite Hw2, Hw1, app_assoc|].
  split; [by apply Forall_app|].
  by rewrite replay_app, Hs1.
Qed.

Lemma extends_set_state (i : nat) (s : NodeState) (st : Store) (n : SimNode) :
  objs st !! i = Some n -> legal_edge (state n) s -> extends st (set_state i s st).
Proof.
  intros Hn Hedge. exists [ {| w_index := i; w_from := state n; w_to := s |} ].
  split; [by apply set_state_writes|]. split.
  - constructor; [exact Hedge | constructor].
  - rewrite (set_state_objs _ _ _ _ Hn). simpl.
    rewrite decide_True by (by rewrite list_lookup_fmap, Hn).
    by rewrite list_fmap_insert.
Qed.

Lemma extends_set_infectedAt (i : nat) (t : Z) (st : Store) :
  extends st (set_infectedAt i t st).
Proof.
  exists []. split; [by rewrite app_nil_r|]. split; [constructor|].
  simpl. f_equal. apply list_eq. intros j.
  rewrite !list_lookup_fmap, list_lookup_alter.
  case_decide; [subst|done]. by destruct (objs st !! j).
Qed.

Lemma store_step_extends (st st' : Store) : store_step st st' -> extends st st'.
Proof.
  intros [st0 i n t Hn Hs|st0 i n Hn Hs|st0 i n Hn Hs].
  - eapply extends_trans; [|apply extends_set_infectedAt].
    eapply extends_set_state; [done|]. rewrite Hs. constructor.
  - eapply extends_set_state; [done|]. rewrite Hs. constructor.
  - eapply extends_set_state; [done|]. rewrite Hs. constructor.
Qed.

Lemma rtc_store_step_extends (st st' : Store) : rtc store_step st st' -> extends st st'.
Proof.
  induction 1 as [st|st1 st2 st3 Hstep _ IH]; [apply extends_refl|].
  eapply extends_trans; [by apply store_step_extends | done].
Qed.

#[global] Instance same_frame_refl : Reflexive same_frame.
Proof. intros n. by repeat split. Qed.

#[global] Instance same_frame_trans : Transitive same_frame.
Proof.
  intros a b c (?&?&?&?&?&?) (?&?&?&?&?&?). repeat split; congruence.
Qed.

Lemma same_frame_alter (f : SimNode -> SimNode) (l : list SimNode) (i : nat) :
  (forall n, same_frame n (f n)) -> Forall2 same_frame l (alter f i l).
Proof.
  intros Hf. apply Forall2_alter_r; [reflexivity|].
  intros n n' _ _ Hn. etransitivity; [exact Hn | apply Hf].
Qed.

Lemma store_step_frame (st st' : Store) :
  store_step st st' -> Forall2 same_frame (objs st) (objs st').
Proof.
  intros [st0 i n t Hn Hs|st0 i n Hn Hs|st0 i n Hn Hs]; simpl;
    rewrite ?set_state_alter.
  - etransitivity; apply same_frame_alter; intros n0; by repeat split.
  - apply same_frame_alter; intros n0; by repeat split.
  - apply same_frame_alter; intros n0; by repeat split.
Qed.

Lemma rtc_store_step_frame (st st' : Store) :
  rtc store_step st st' -> Forall2 same_frame (objs st) (objs st').
Proof.
  induction 1 as [st|st1 st2 st3 Hstep _ IH]; [reflexivity|].
  etransitivity; [by apply store_step_frame | exact IH].
Qed.

Lemma tick_step_store_step (cfg : SimConfig) (tick : Z) (st st' : Store) :
  tick_step cfg tick st st' -> store_step st st'.
Proof.
  intros [st0 i n Hn Hs|st0 i n Hn Hs Hrt]; econstructor; eauto.
Qed.

Section Facts.

Variable rnd : nat -> Q.
Variable Math_hypot : Q -> Q -> Q.
Variable Math_sqrt : Q -> Q.
Variable Math_exp : Q -> Q.
Variable sort_random : forall A : Type, nat -> list A -> list A.
Hypothesis sort_random_perm : forall (A : Type) (k : nat) (l : list A),
  sort_random A k l ≡ₚ l.

Set Default Proof Using "Type".

(** ** Every operation is a sequence of guarded assignments *)

Lemma set_state_lookup_ne (i j : nat) (s : NodeState) (st : Store) :
  i <> j -> objs (set_state i s st) !! j = objs st !! j.
Proof. intros Hne. rewrite set_state_alter. by apply list_lookup_alter_ne. Qed.

Lemma set_state_lookup_eq (i : nat) (s : NodeState) (st : Store) :
  objs (set_state i s st) !! i = with_state s <$> objs st !! i.
Proof. rewrite set_state_alter. apply list_lookup_alter_eq. Qed.

Lemma spread_steps (cfg : SimConfig) (tick : Z) (st st' : Store) (k k' : nat) (nb : Z) :
  spread rnd cfg tick (st, k) nb = Some (st', k') ->
  rtc (tick_step cfg tick) st st' /\ keeps_unhealthy st st'.
Proof.
  unfold spread. destruct (at_Z (objs st) nb) as [n|] eqn:Hn; [|done].
  apply at_Z_Some in Hn as [Hpos Hn].
  destruct (state n) eqn:Hs; try (intros; simplify_eq; split; [apply rtc_refl | by intros ???]).
  destruct (Qltb _ _); intros; simplify_eq.
  - split; [apply rtc_once; by econstructor|].
    intros j m Hj Hm. simpl. destruct (decide (Z.to_nat nb = j)) as [<-|Hne].
    + congruence.
    + rewrite list_lookup_alter_ne by done. by rewrite set_state_lookup_ne.
  - split; [apply rtc_refl | by intros ???].
Qed.

Lemma spread_loop_steps (cfg : SimConfig) (tick : Z) (cs : list Z) (st st' : Store)
  (k k' : nat) :
  foldlM (spread rnd cfg tick) cs (st, k) = Some (st', k') ->
  rtc (tick_step cfg tick) st st' /\ keeps_unhealthy st st'.
Proof.
  intros Hrun.
  apply (foldlM_invariant
           (fun b => rtc (tick_step cfg tick) st b.1 /\ keeps_unhealthy st b.1)
           _ _ _ _) in Hrun; [exact Hrun| |].
  - intros [st1 k1] nb [st2 k2] _ [Hrtc Hkeep] Hstep. simpl in *.
    apply spread_steps in Hstep as [Hrtc' Hkeep']. split.
    + by etransitivity.
    + intros j n Hj Hn. apply Hkeep'; [by apply Hkeep | done].
  - split; [apply rtc_refl | by intros ???].
Qed.

Lemma visit_steps (cfg : SimConfig) (tick : Z) (st st' : Store) (k k' i : nat) :
  visit rnd cfg tick (st, k) i = Some (st', k') ->
  rtc (tick_step cfg tick) st st'.
Proof.
  unfold visit. destruct (objs st !! i) as [node|] eqn:Hnode; [|done].
  destruct (state node) eqn:Hs; try (intros; simplify_eq; apply rtc_refl).
  destruct (foldlM _ _ _) as [[st1 k1]|] eqn:Hloop; [|done].
  apply spread_loop_steps in Hloop as [Hrtc Hkeep].
  rewrite (Hkeep i node Hnode) by congruence.
  destruct (Z.leb _ _) eqn:Hrt; intros; simplify_eq; [|done].
  eapply rtc_r; [exact Hrtc|]. apply Z.leb_le in Hrt.
  apply (tick_recover cfg tick st1 i node);
    [apply Hkeep; [done | congruence] | done | done].
Qed.

Lemma simulationTick_run_steps (nodes : list SimNode) (cfg : SimConfig) (tick : Z)
  (k k' : nat) (st : Store) :
  simulationTick_run rnd nodes cfg tick k = Some (st, k') ->
  rtc (tick_step cfg tick) (copy_nodes nodes) st.
Proof.
  intros Hrun. unfold simulationTick_run in Hrun.
  apply (foldlM_invariant
           (fun b => rtc (tick_step cfg tick) (copy_nodes nodes) b.1) _ _ _ _)
    in Hrun; [exact Hrun| |apply rtc_refl].
  intros [st1 k1] i [st2 k2] _ Hrtc Hstep. simpl in *.
  etransitivity; [exact Hrtc | by eapply visit_steps].
Qed.

Lemma immunize_steps (st st' : Store) (k k' : nat) (nId : Z) :
  immunize rnd (st, k) nId = Some (st', k') -> rtc store_step st st'.
Proof.
  unfold immunize. destruct (at_Z (objs st) nId) as [n|] eqn:Hn; [|done].
  apply at_Z_Some in Hn as [Hpos Hn].
  destruct (state n) eqn:Hs; try (intros; simplify_eq; apply rtc_refl).
  destruct (Qltb _ _); intros; simplify_eq; [|apply rtc_refl].
  apply rtc_once. by eapply step_aware.
Qed.

Lemma applyFactCheck_run_steps (nodes : list SimNode) (nodeId : Z) (k k' : nat)
  (st : Store) :
  applyFactCheck_run rnd nodes nodeId k = Some (st, k') ->
  rtc store_step (copy_nodes nodes) st.
Proof.
  unfold applyFactCheck_run.
  destruct (at_Z (objs (copy_nodes nodes)) nodeId) as [node|] eqn:Hnode; [|done].
  apply at_Z_Some in Hnode as [Hpos Hnode]. intros Hrun.
  apply (foldlM_invariant (fun b => rtc store_step (copy_nodes nodes) b.1) _ _ _ _)
    in Hrun; [exact Hrun| |].
  - intros [st1 k1] nId [st2 k2] _ Hrtc Hstep. simpl in *.
    etransitivity; [exact Hrtc | by eapply immunize_steps].
  - simpl. destruct (state node) eqn:Hs; try apply rtc_refl.
    apply rtc_once. by eapply step_recover.
Qed.

(** The healthy references are valid, distinct and healthy. *)
Lemma healthy_refs_spec (nodes : list SimNode) (r : nat) :
  r ∈ healthy_refs nodes <-> exists n, nodes !! r = Some n /\ state n = healthy.
Proof.
  unfold healthy_refs. rewrite list_elem_of_filter, elem_of_seq. split.
  - intros [Hs _]. destruct (nodes !! r) as [n|]; [|done].
    exists n. simpl in Hs. by simplify_eq.
  - intros (n & Hn & Hs). rewrite Hn. simpl. split; [by rewrite Hs|].
    apply lookup_lt_Some in Hn. lia.
Qed.

Lemma healthy_refs_NoDup (nodes : list SimNode) : NoDup (healthy_refs nodes).
Proof. apply NoDup_filter, NoDup_seq. Qed.

(** The loop [shuffled[i].state = 'aware'] over distinct healthy objects. *)
Lemma aware_loop (l : list nat) (st : Store) :
  NoDup l ->
  (forall r, r ∈ l -> exists n, objs st !! r = Some n /\ state n = healthy) ->
  rtc store_step st (foldl (fun st r => set_state r aware st) st l) /\
  (forall j, objs (foldl (fun st r => set_state r aware st) st l) !! j =
             if decide (j ∈ l) then with_state aware <$> objs st !! j
             else objs st !! j).
Proof.
  revert st. induction l as [|r l IH]; intros st Hnd Hall; cbn [foldl].
  - split; [apply rtc_refl|]. intros j. by rewrite decide_False by apply not_elem_of_nil.
  - apply NoDup_cons in Hnd as [Hr Hnd].
    destruct (Hall r) as (n & Hn & Hs); [by left|].
    destruct (IH (set_state r aware st) Hnd) as [Hrtc Hlook].
    { intros r' Hr'. destruct (Hall r') as (n' & Hn' & Hs'); [by right|].
      exists n'. split; [|done]. rewrite set_state_lookup_ne; [done|].
      intros ->. done. }
    split.
    + eapply rtc_l; [by eapply step_aware | exact Hrtc].
    + intros j. rewrite Hlook. destruct (decide (j = r)) as [->|Hne].
      * rewrite decide_False by done. rewrite decide_True by (by left).
        apply set_state_lookup_eq.
      * rewrite set_state_lookup_ne by done.
        destruct (decide (j ∈ l)) as [Hin|Hnin].
        -- by rewrite decide_True by (by right).
        -- rewrite decide_False; [done|]. intros Hin.
           apply elem_of_cons in Hin as [Heq|Hin]; [by apply Hne | by apply Hnin].
Qed.

Lemma campaign_selection (nodes : list SimNode) (k : nat) :
  let selected :=
    take (Z.to_nat (Z.min (campaign_count (length (healthy_refs nodes)))
                          (Z.of_nat (length (sort_random nat k (healthy_refs nodes))))))
         (sort_random nat k (healthy_refs nodes)) in
  NoDup selected /\
  (forall r, r ∈ selected -> exists n, nodes !! r = Some n /\ state n = healthy).
Proof using sort_random_perm.
  intros selected. split.
  - eapply sublist_NoDup; [|apply sublist_take].
    rewrite sort_random_perm. apply healthy_refs_NoDup.
  - intros r Hr. apply healthy_refs_spec. rewrite <- (sort_random_perm nat k).
    eapply elem_of_sublist; [exact Hr | apply sublist_take].
Qed.

Lemma applyAwarenessCampaign_run_steps (nodes : list SimNode) (k : nat) :
  rtc store_step (copy_nodes nodes) (applyAwarenessCampaign_run sort_random nodes k).
Proof using sort_random_perm.
  unfold applyAwarenessCampaign_run.
  destruct (campaign_selection nodes k) as [Hnd Hall].
  by apply aware_loop.
Qed.

Lemma core_run_steps (nodes : list SimNode) (st : Store) :
  core_run rnd sort_random nodes st -> rtc store_step (copy_nodes nodes) st.
Proof using sort_random_perm.
  intros [cfg tick k st' k' Hrun|nodeId k st' k' Hrun|k].
  - eapply rtc_subrel; [|by eapply simulationTick_run_steps].
    intros ??. apply tick_step_store_step.
  - by eapply applyFactCheck_run_steps.
  - apply applyAwarenessCampaign_run_steps.
Qed.

(** ** The generator: placing the nodes *)

Lemma place_loop (width height : Q) (m : nat) (nodes : list SimNode) (k : nat) :
  let res := foldl (place rnd width height) (nodes, k) (seq (length nodes) m) in
  length res.1 = (length nodes + m)%nat /\
  (forall a na, res.1 !! a = Some na ->
     nodes !! a = Some na \/
     ((length nodes <= a)%nat /\ id na = Z.of_nat a /\ connections na = [] /\
      state na = healthy /\ infectedAt na = -1)).
Proof.
  revert nodes k. induction m as [|m IH]; intros nodes k; cbn [seq foldl].
  - simpl. split; [lia | by left].
  - cbn [place].
    set (n0 := {| id := Z.of_nat (length nodes) |}).
    specialize (IH (nodes ++ [n0]) (S (S k))).
    rewrite length_app in IH. simpl in IH.
    replace (length nodes + 1)%nat with (S (length nodes)) in IH by lia.
    destruct IH as [Hlen Hall]. split; [simpl in *; lia|].
    intros a na Ha. destruct (Hall a na Ha) as [Hold|Hnew].
    + destruct (decide (a < length nodes)%nat) as [Hlt|Hge].
      * left. by rewrite lookup_app_l in Hold.
      * right. rewrite lookup_app_r in Hold by lia.
        destruct (a - length nodes)%nat as [|?] eqn:Hd; [|done].
        simpl in Hold. simplify_eq. assert (a = length nodes) as -> by lia.
        repeat split; [lia | done..].
    + right. destruct Hnew as (?&?&?&?&?). repeat split; [lia | done..].
Qed.


Lemma placed_gen_ok (width height : Q) (n k : nat) :
  gen_ok n (foldl (place rnd width height) ([], k) (seq 0 n)).1.
Proof.
  destruct (place_loop width height n [] k) as [Hlen Hall]. simpl in *.
  split; [done|]. split.
  - intros a na Ha. destruct (Hall a na Ha) as [Hold|(_ & Hid & Hc & _)]; [done|].
    split; [done|]. rewrite Hc. split; constructor.
  - intros a b na nb Ha Hb.
    destruct (Hall a na Ha) as [?|(_ & _ & Hca & _)]; [done|].
    destruct (Hall b nb Hb) as [?|(_ & _ & Hcb & _)]; [done|].
    rewrite Hca, Hcb. split; intros H; by apply elem_of_nil in H.
Qed.

(** ** The generator: candidates *)

Lemma insert_by_dist_perm (c : Candidate) (l : list Candidate) :
  insert_by_dist c l ≡ₚ c :: l.
Proof.
  induction l as [|d l IH]; simpl; [done|].
  destruct (Qle_bool _ _); [done|]. rewrite IH. apply Permutation_swap.
Qed.

Lemma sort_by_dist_perm (l : list Candidate) : sort_by_dist l ≡ₚ l.
Proof.
  induction l as [|c l IH]; simpl; [done|].
  rewrite insert_by_dist_perm. by rewrite IH.
Qed.

(** The candidates of node [i] are the other positions of the array. *)
Lemma distances_spec (nodes : list SimNode) (i : nat) (ds : list Candidate) :
  distances Math_hypot nodes i = Some ds ->
  forall j, (exists d, d ∈ ds /\ cand_j d = j) <-> (j < length nodes)%nat /\ j <> i.
Proof.
  unfold distances. destruct (nodes !! i) as [me|]; [|done].
  intros Hds j. simplify_eq. setoid_rewrite sort_by_dist_perm.
  setoid_rewrite list_elem_of_filter. setoid_rewrite elem_of_lookup_imap. split.
  - intros (d & (Hne & a & n & -> & Hn) & Hj). simpl in *. subst.
    split; [by eapply lookup_lt_Some | done].
  - intros [Hlt Hne]. apply lookup_lt_is_Some in Hlt as [n Hn].
    eexists. split; [split; [|exists j, n; split; [reflexivity | exact Hn]]|]; done.
Qed.

Lemma distances_is_Some (nodes : list SimNode) (i : nat) :
  (i < length nodes)%nat -> is_Some (distances Math_hypot nodes i).
Proof.
  intros Hlt. apply lookup_lt_is_Some in Hlt as [me Hme].
  unfold distances. rewrite Hme. eauto.
Qed.

(** ** The generator: inserting an edge *)

Lemma add_connection_Some (i : nat) (j : Z) (nodes nodes1 : list SimNode) :
  add_connection i j nodes = Some nodes1 ->
  (i < length nodes)%nat /\ nodes1 = alter (push_connection j) i nodes.
Proof.
  unfold add_connection. destruct (nodes !! i) as [n|] eqn:Hn; [|done].
  intros ?; simplify_eq. split; [by eapply lookup_lt_Some|].
  rewrite list_insert_alter. apply list_alter_ext; [|done].
  intros n' Hn'. by simplify_eq.
Qed.

Lemma add_connection_is_Some (i : nat) (j : Z) (nodes : list SimNode) :
  (i < length nodes)%nat -> is_Some (add_connection i j nodes).
Proof.
  intros Hlt. apply lookup_lt_is_Some in Hlt as [n Hn].
  unfold add_connection. rewrite Hn. eauto.
Qed.

(** The connections of every node after the two pushes of an accepted edge. *)
Lemma add_edge_lookup (i j : nat) (nodes nodes1 nodes2 : list SimNode) :
  add_connection i (Z.of_nat j) nodes = Some nodes1 ->
  add_connection j (Z.of_nat i) nodes1 = Some nodes2 ->
  length nodes2 = length nodes /\
  forall a na, nodes !! a = Some na ->
    exists na2, nodes2 !! a = Some na2 /\ same_status na na2 /\
      connections na2 =
        connections na ++ (if decide (a = i) then [Z.of_nat j] else [])
                       ++ (if decide (a = j) then [Z.of_nat i] else []).
Proof.
  intros [Hi ->]%add_connection_Some [Hj ->]%add_connection_Some.
  split; [by rewrite !length_alter|].
  intros a na Ha. rewrite !list_lookup_alter.
  destruct (decide (j = a)) as [->|Hja], (decide (i = a)) as [->|Hia];
    rewrite ?Ha; simpl;
    eexists; (split; [reflexivity|]); (split; [done|]); simpl;
    repeat case_decide; try congruence;
    by rewrite ?app_nil_r, <- ?app_assoc.
Qed.

Lemma edge_membership (a i j : nat) (cs cs2 : list Z) (c : Z) :
  cs2 = cs ++ (if decide (a = i) then [Z.of_nat j] else [])
           ++ (if decide (a = j) then [Z.of_nat i] else []) ->
  c ∈ cs2 <-> c ∈ cs \/ (a = i /\ c = Z.of_nat j) \/ (a = j /\ c = Z.of_nat i).
Proof.
  clear. intros ->. rewrite !elem_of_app.
  repeat case_decide; rewrite ?list_elem_of_singleton, ?elem_of_nil; tauto.
Qed.

(** An accepted edge keeps the network well formed and symmetric. *)
Lemma add_edge_gen_ok (len i j : nat) (nodes nodes1 nodes2 : list SimNode) (ni : SimNode) :
  gen_ok len nodes -> i <> j -> nodes !! i = Some ni ->
  Z.of_nat j ∉ connections ni ->
  add_connection i (Z.of_nat j) nodes = Some nodes1 ->
  add_connection j (Z.of_nat i) nodes1 = Some nodes2 ->
  gen_ok len nodes2 /\ grows nodes nodes2 /\
  (exists ni2, nodes2 !! i = Some ni2 /\ Z.of_nat j ∈ connections ni2).
Proof.
  intros (Hlen & Hwf & Hsym) Hij Hni Hnotin Hadd1 Hadd2.
  destruct (add_edge_lookup _ _ _ _ _ Hadd1 Hadd2) as [Hlen2 Hall].
  assert (Hj : (j < length nodes)%nat).
  { apply add_connection_Some in Hadd1 as [_ ->].
    apply add_connection_Some in Hadd2 as [Hj _]. by rewrite length_alter in Hj. }
  assert (Hi : (i < length nodes)%nat) by (by eapply lookup_lt_Some).
  assert (Hback : forall a na2, nodes2 !! a = Some na2 ->
            exists na, nodes !! a = Some na /\ same_status na na2 /\
              connections na2 =
                connections na ++ (if decide (a = i) then [Z.of_nat j] else [])
                               ++ (if decide (a = j) then [Z.of_nat i] else [])).
  { intros a na2 Ha2. assert (Hlt : (a < length nodes)%nat).
    { rewrite <- Hlen2. by eapply lookup_lt_Some. }
    apply lookup_lt_is_Some in Hlt as [na Hna].
    destruct (Hall a na Hna) as (na2' & Ha2' & Hst & Hc).
    exists na. by simplify_eq. }
  split; [|split].
  - split; [congruence|]. split.
    + intros a na2 Ha2. destruct (Hback a na2 Ha2) as (na & Hna & (Hid & _) & Hc).
      destruct (Hwf a na Hna) as (Hida & Hnd & Hrange).
      split; [congruence|]. rewrite Hlen2. split.
      * rewrite Hc. repeat case_decide; subst; rewrite ?app_nil_r; try done.
        -- apply NoDup_app. split; [done|]. split; [|apply NoDup_singleton].
           intros c Hc1 Hc2%list_elem_of_singleton. subst c. by simplify_eq.
        -- apply NoDup_app. split; [done|]. split; [|apply NoDup_singleton].
           intros c Hc1 Hc2%list_elem_of_singleton. subst c.
           by apply (Hsym i j ni na Hni Hna) in Hc1.
      * rewrite Hc. clear Hc. rewrite !Forall_app. split; [done|].
        split; case_decide; subst;
          repeat first [apply Forall_nil_2 | apply Forall_cons_2]; cbn beta; lia.
    + intros a b na2 nb2 Ha2 Hb2.
      destruct (Hback a na2 Ha2) as (na & Hna & _ & Hca).
      destruct (Hback b nb2 Hb2) as (nb & Hnb & _ & Hcb).
      rewrite (edge_membership _ _ _ _ _ _ Hca), (edge_membership _ _ _ _ _ _ Hcb).
      rewrite (Hsym a b na nb Hna Hnb). split; intros [?|[[??]|[??]]]; subst;
        try (left; done); right; [right|left|right|left]; split; lia || done.
  - split; [done|]. intros a na na2 Hna Ha2.
    destruct (Hall a na Hna) as (na2' & Ha2' & (_ & Hx & Hy & _) & Hc). simplify_eq.
    split; [done|]. split; [done|]. intros c Hin.
    apply (edge_membership _ _ _ _ _ _ Hc). by left.
  - destruct (Hall i ni Hni) as (ni2 & Hni2 & _ & Hc). exists ni2. split; [done|].
    apply (edge_membership _ _ _ _ _ _ Hc). right. by left.
Qed.

Lemma grows_refl (nodes : list SimNode) : grows nodes nodes.
Proof. split; [done|]. intros a na na' H1 H2. by simplify_eq. Qed.

Lemma grows_trans (l1 l2 l3 : list SimNode) : grows l1 l2 -> grows l2 l3 -> grows l1 l3.
Proof.
  intros [Hl12 H12] [Hl23 H23]. split; [congruence|].
  intros a n1 n3 Hn1 Hn3.
  assert (Hlt : (a < length l2)%nat) by (rewrite Hl12; by eapply lookup_lt_Some).
  apply lookup_lt_is_Some in Hlt as [n2 Hn2].
  destruct (H12 a n1 n2 Hn1 Hn2) as (Hx1 & Hy1 & Hc1).
  destruct (H23 a n2 n3 Hn2 Hn3) as (Hx2 & Hy2 & Hc2).
  split; [congruence|]. split; [congruence|]. intros c Hc. by apply Hc2, Hc1.
Qed.

Lemma grows_member (nodes nodes' : list SimNode) (a : nat) (na : SimNode) (c : Z) :
  grows nodes nodes' -> nodes !! a = Some na -> c ∈ connections na ->
  exists na', nodes' !! a = Some na' /\ c ∈ connections na'.
Proof.
  intros [Hlen Hgrow] Hna Hc.
  assert (Hlt : (a < length nodes')%nat) by (rewrite Hlen; by eapply lookup_lt_Some).
  apply lookup_lt_is_Some in Hlt as [na' Hna']. exists na'. split; [done|].
  by apply (Hgrow a na na' Hna Hna').
Qed.

(** The candidates of a node depend on the positions of the nodes only. *)
Lemma distances_same_place (nodes nodes' : list SimNode) (i : nat) :
  length nodes' = length nodes ->
  (forall a na na', nodes !! a = Some na -> nodes' !! a = Some na' ->
     x na' = x na /\ y na' = y na) ->
  distances Math_hypot nodes' i = distances Math_hypot nodes i.
Proof.
  intros Hlen Hplace. unfold distances.
  destruct (nodes !! i) as [me|] eqn:Hme.
  - destruct (lookup_lt_is_Some_2 nodes' i) as [me' Hme'].
    { rewrite Hlen. by eapply lookup_lt_Some. }
    rewrite Hme'. destruct (Hplace i me me' Hme Hme') as [Hx Hy].
    do 3 f_equal. apply list_eq. intros j. rewrite !list_lookup_imap.
    destruct (nodes !! j) as [n|] eqn:Hn.
    + destruct (lookup_lt_is_Some_2 nodes' j) as [n' Hn'].
      { rewrite Hlen. by eapply lookup_lt_Some. }
      rewrite Hn'. destruct (Hplace j n n' Hn Hn') as [Hxj Hyj]. simpl.
      by rewrite Hx, Hy, Hxj, Hyj.
    + rewrite (lookup_ge_None_2 nodes' j); [done|].
      rewrite Hlen. by apply lookup_ge_None.
  - rewrite (lookup_ge_None_2 nodes' i); [done|].
    rewrite Hlen. by apply lookup_ge_None.
Qed.

Lemma nearest_grows (nodes nodes' : list SimNode) (i : nat) :
  grows nodes nodes' -> nearest Math_hypot nodes' i = nearest Math_hypot nodes i.
Proof.
  intros [Hlen Hgrow]. unfold nearest. rewrite (distances_same_place nodes nodes'); [done..|].
  intros a na na' Hna Hna'. destruct (Hgrow a na na' Hna Hna') as (? & ? & _). done.
Qed.

Lemma nearest_same_frame (nodes nodes' : list SimNode) (i : nat) :
  Forall2 same_frame nodes nodes' ->
  nearest Math_hypot nodes' i = nearest Math_hypot nodes i.
Proof.
  intros Hfr. unfold nearest. rewrite (distances_same_place nodes nodes'); [done| |].
  - symmetry. by eapply Forall2_length.
  - intros a na na' Hna Hna'.
    by destruct (Forall2_lookup_lr _ _ _ _ _ _ Hfr Hna Hna') as (_ & ? & ? & _).
Qed.

(** A node of an array of at least two nodes has a nearest other node. *)
Lemma nearest_is_Some (nodes : list SimNode) (i : nat) :
  (i < length nodes)%nat -> (2 <= length nodes)%nat ->
  is_Some (nearest Math_hypot nodes i).
Proof.
  intros Hi Htwo. unfold nearest.
  destruct (distances_is_Some nodes i Hi) as [ds Hds]. rewrite Hds.
  destruct (proj2 (distances_spec _ _ _ Hds (if decide (i = 0)%nat then 1 else 0)%nat))
    as (d & Hd & _); [case_decide; lia|].
  destruct ds as [|d0 ds]; [by apply elem_of_nil in Hd | by eexists].
Qed.

(** ** The generator: the loop over the candidates of one node *)

Lemma connect_spec (len i : nat) (t : Z) (maxDist : Q) (ds : list Candidate) :
  (i < len)%nat ->
  (forall d, d ∈ ds -> cand_j d <> i /\ (cand_j d < len)%nat) ->
  forall (added : Z) (g : GenState),
  gen_ok len (g_nodes g) ->
  exists g', connect rnd Math_exp i t maxDist ds added g = Some g' /\
    gen_ok len (g_nodes g') /\ grows (g_nodes g) (g_nodes g') /\
    (forall d ds', ds = d :: ds' -> added = 0 -> 1 <= t ->
     exists ni', g_nodes g' !! i = Some ni' /\
       Z.of_nat (cand_j d) ∈ connections ni').
Proof.
  intros Hi. induction ds as [|d ds IH]; intros Hds added g Hok; cbn [connect].
  - exists g. split; [done|]. split; [done|]. split; [apply grows_refl | done].
  - destruct (Z.leb t added) eqn:Hbreak.
    { exists g. split; [done|]. split; [done|]. split; [apply grows_refl|].
      apply Z.leb_le in Hbreak. intros; lia. }
    assert (Hds' : forall d', d' ∈ ds -> cand_j d' <> i /\ (cand_j d' < len)%nat).
    { intros d' Hd'. apply Hds. by right. }
    destruct (Hds d) as [Hne Hlt]; [by left|].
    pose proof Hok as (Hlen & Hwf & Hsym).
    destruct (lookup_lt_is_Some_2 (g_nodes g) i) as [me Hme]; [lia|]. rewrite Hme.
    destruct (bool_decide (Z.of_nat (cand_j d) ∈ connections me)) eqn:Hinc.
    { apply bool_decide_eq_true in Hinc.
      destruct (IH Hds' added g Hok) as (g' & Hrun & Hok' & Hgrow & _).
      exists g'. split; [done|]. split; [done|]. split; [done|].
      intros d0 ds0 [= <- <-] _ _. by apply (grows_member _ _ _ _ _ Hgrow Hme). }
    apply bool_decide_eq_false in Hinc.
    destruct (Qltb (rnd (g_draws g)) _ || Z.eqb added 0) eqn:Haccept.
    + destruct (add_connection_is_Some i (Z.of_nat (cand_j d)) (g_nodes g))
        as [nodes1 Hadd1]; [lia|]. rewrite Hadd1.
      destruct (add_connection_is_Some (cand_j d) (Z.of_nat i) nodes1)
        as [nodes2 Hadd2].
      { apply add_connection_Some in Hadd1 as [_ ->]. rewrite length_alter. lia. }
      rewrite Hadd2.
      destruct (add_edge_gen_ok len i (cand_j d) _ _ _ me Hok (not_eq_sym Hne) Hme
                  Hinc Hadd1 Hadd2) as (Hok2 & Hgrow2 & ni2 & Hni2 & Hin2).
      match goal with |- context [connect _ _ _ _ _ _ _ ?g2] =>
        destruct (IH Hds' (added + 1) g2 Hok2) as (g' & Hrun & Hok' & Hgrow & _)
      end.
      exists g'. split; [done|]. split; [done|]. simpl in Hgrow.
      split; [by eapply grows_trans|]. intros d0 ds0 [= <- <-] _ _.
      by apply (grows_member _ _ _ _ _ Hgrow Hni2).
    + match goal with |- context [connect _ _ _ _ _ _ _ ?g2] =>
        destruct (IH Hds' added g2 Hok) as (g' & Hrun & Hok' & Hgrow & _)
      end.
      exists g'. split; [done|]. split; [done|]. split; [done|].
      intros d0 ds0 _ -> _. apply orb_false_iff in Haccept as [_ Hz]. done.
Qed.

Lemma link_spec (cfg : SimConfig) (maxDist : Q) (len i : nat) (g : GenState) :
  (i < len)%nat -> gen_ok len (g_nodes g) ->
  exists g', link rnd Math_hypot Math_exp cfg maxDist g i = Some g' /\
    gen_ok len (g_nodes g') /\ grows (g_nodes g) (g_nodes g') /\
    (forall j, nearest Math_hypot (g_nodes g) i = Some j ->
     exists ni', g_nodes g' !! i = Some ni' /\ Z.of_nat j ∈ connections ni').
Proof.
  intros Hi Hok. pose proof Hok as (Hlen & _). unfold link, nearest.
  destruct (distances_is_Some (g_nodes g) i) as [ds Hds]; [lia|]. rewrite Hds.
  pose proof (distances_spec _ _ _ Hds) as Hspec.
  match goal with |- context [connect _ _ _ ?t _ _ _ ?g2] =>
    destruct (connect_spec len i t maxDist ds Hi) with (added := 0) (g := g2)
      as (g' & Hrun & Hok' & Hgrow & Hfirst)
  end.
  { intros d Hd. destruct (Hspec (cand_j d)) as [[Hlt Hne] _]; [by exists d|].
    split; [done | lia]. }
  { done. }
  exists g'. split; [done|]. split; [done|]. split; [done|].
  intros j Hj. destruct ds as [|d ds']; [done|]. injection Hj as <-.
  apply (Hfirst d ds'); [done | done | apply Z.le_max_l].
Qed.

Lemma link_loop (cfg : SimConfig) (maxDist : Q) (len m : nat) (g : GenState) :
  (m <= len)%nat -> gen_ok len (g_nodes g) ->
  exists g', foldlM (link rnd Math_hypot Math_exp cfg maxDist) (seq 0 m) g = Some g' /\
    gen_ok len (g_nodes g') /\ grows (g_nodes g) (g_nodes g') /\
    (forall a j, (a < m)%nat -> nearest Math_hypot (g_nodes g') a = Some j ->
     exists na, g_nodes g' !! a = Some na /\ Z.of_nat j ∈ connections na).
Proof.
  intros Hm Hok. induction m as [|m IH].
  - exists g. split; [done|]. split; [done|]. split; [apply grows_refl|].
    intros a j Ha. lia.
  - destruct IH as (g1 & Hrun1 & Hok1 & Hgrow1 & Hnear1); [lia|].
    destruct (link_spec cfg maxDist len m g1) as (g2 & Hrun2 & Hok2 & Hgrow2 & Hnear2);
      [lia | done |].
    exists g2. rewrite seq_S, foldlM_app, Hrun1. simpl. rewrite Hrun2.
    split; [done|]. split; [done|]. split; [by eapply grows_trans|].
    intros a j Ha Hj. rewrite (nearest_grows _ _ _ Hgrow2) in Hj.
    destruct (decide (a = m)) as [->|Hne]; [by apply Hnear2|].
    destruct (Hnear1 a j) as (na & Hna & Hin); [lia | done |].
    by apply (grows_member _ _ _ _ _ Hgrow2 Hna).
Qed.

(** ** Operations that leave ids and connections alone *)

Lemma same_frame_lookup (nodes nodes' : list SimNode) (a : nat) (na' : SimNode) :
  Forall2 same_frame nodes nodes' -> nodes' !! a = Some na' ->
  exists na, nodes !! a = Some na /\ same_frame na na'.
Proof. intros Hfr Ha. by eapply Forall2_lookup_r. Qed.


Lemma same_frame_gen_ok (len : nat) (nodes nodes' : list SimNode) :
  Forall2 same_frame nodes nodes' -> gen_ok len nodes -> gen_ok len nodes'.
Proof.
  intros Hfr (Hlen & Hwf & Hsym). pose proof (Forall2_length _ _ _ Hfr) as Hlen'.
  split; [congruence|]. split.
  - intros a na' Ha'.
    destruct (same_frame_lookup _ _ _ _ Hfr Ha') as (na & Hna & Hid & _ & _ & _ & _ & Hc).
    destruct (Hwf a na Hna) as (Hida & Hnd & Hrange).
    unfold wf_node. rewrite Hid, Hc, <- Hlen'. done.
  - intros a b na' nb' Ha' Hb'.
    destruct (same_frame_lookup _ _ _ _ Hfr Ha') as (na & Hna & _ & _ & _ & _ & _ & Hca).
    destruct (same_frame_lookup _ _ _ _ Hfr Hb') as (nb & Hnb & _ & _ & _ & _ & _ & Hcb).
    rewrite Hca, Hcb. by apply Hsym.
Qed.

(** ** The generator: seeding *)

Lemma seed_frame (shuffled : list nat) (nodes nodes' : list SimNode) (i : nat) :
  seed shuffled nodes i = Some nodes' -> Forall2 same_frame nodes nodes'.
Proof.
  unfold seed. destruct (shuffled !! i) as [s|]; [|done].
  destruct (nodes !! s) as [n|] eqn:Hn; [|done]. intros ?; simplify_eq.
  rewrite <- (list_insert_id nodes s n Hn) at 1.
  apply Forall2_insert; [reflexivity | by repeat split].
Qed.

Lemma seed_loop_frame (shuffled : list nat) (l : list nat) (nodes nodes' : list SimNode) :
  foldlM (seed shuffled) l nodes = Some nodes' -> Forall2 same_frame nodes nodes'.
Proof.
  intros Hrun.
  apply (foldlM_invariant (fun b => Forall2 same_frame nodes b) _ _ _ _) in Hrun;
    [done| |reflexivity].
  intros b1 a b2 _ Hb1 Hstep. etransitivity; [exact Hb1 | by eapply seed_frame].
Qed.

Lemma seed_loop_is_Some (shuffled : list nat) (m : nat) (nodes : list SimNode) :
  (m <= length shuffled)%nat ->
  (forall s, s ∈ shuffled -> (s < length nodes)%nat) ->
  is_Some (foldlM (seed shuffled) (seq 0 m) nodes).
Proof.
  intros Hm Hrange. induction m as [|m IH]; [by eexists|].
  destruct IH as [nodes1 Hrun1]; [lia|].
  rewrite seq_S, foldlM_app, Hrun1. simpl.
  destruct (lookup_lt_is_Some_2 shuffled m) as [s Hs]; [lia|].
  unfold seed. rewrite Hs.
  pose proof (Forall2_length _ _ _ (seed_loop_frame _ _ _ _ Hrun1)) as Hlen.
  destruct (lookup_lt_is_Some_2 nodes1 s) as [n Hn].
  { rewrite <- Hlen. apply Hrange. by eapply list_elem_of_lookup_2. }
  rewrite Hn. by eexists.
Qed.

Lemma seed_loop_throws (shuffled : list nat) (m : nat) (nodes : list SimNode) :
  (length shuffled < m)%nat -> foldlM (seed shuffled) (seq 0 m) nodes = None.
Proof.
  intros Hm. apply (foldlM_throws _ _ (length shuffled)).
  - apply elem_of_seq. lia.
  - intros b. unfold seed. by rewrite (lookup_ge_None_2 shuffled (length shuffled)).
Qed.

(** ** The generator as a whole *)

Lemma generateNetwork_linked (cfg : SimConfig) (width height : Q) (k : nat) :
  let n := Z.to_nat (nodeCount cfg) in
  let placed := foldl (place rnd width height) ([], k) (seq 0 n) in
  exists g,
    foldlM (link rnd Math_hypot Math_exp cfg
              (Math_sqrt (width * width + height * height)%Q)) (seq 0 n)
      {| g_nodes := placed.1; g_edges := []; g_draws := placed.2 |} = Some g /\
    gen_ok n (g_nodes g) /\
    (forall a j, nearest Math_hypot (g_nodes g) a = Some j ->
       exists na, g_nodes g !! a = Some na /\ Z.of_nat j ∈ connections na).
Proof.
  intros n placed.
  destruct (link_loop cfg (Math_sqrt (width * width + height * height)%Q) n n
              {| g_nodes := placed.1; g_edges := []; g_draws := placed.2 |})
    as (g & Hrun & Hok & _ & Hnear); [lia | apply placed_gen_ok |].
  exists g. split; [done|]. split; [done|]. intros a j Hj.
  apply Hnear; [|done]. destruct Hok as (Hlen & _). rewrite <- Hlen.
  unfold nearest, distances in Hj.
  destruct (g_nodes g !! a) eqn:Ha; [by eapply lookup_lt_Some | done].
Qed.

(** What holds of every network the generator returns. *)
Lemma generateNetwork_Some (cfg : SimConfig) (width height : Q) (k : nat)
  (nodes : list SimNode) (edges : list SimEdge) :
  generateNetwork rnd Math_hypot Math_sqrt Math_exp sort_random cfg width height k
    = Some (nodes, edges) ->
  gen_ok (Z.to_nat (nodeCount cfg)) nodes /\
  (forall a j, nearest Math_hypot nodes a = Some j ->
     exists na, nodes !! a = Some na /\ Z.of_nat j ∈ connections na).
Proof.
  unfold generateNetwork.
  destruct (generateNetwork_linked cfg width height k) as (g & Hrun & Hok & Hnear).
  destruct (foldl _ _ _) as [nodes0 k1]. simpl in Hrun. rewrite Hrun.
  case_decide; [done|].
  destruct (foldlM (seed _) _ _) as [nodes'|] eqn:Hseed; [|done].
  intros ?; simplify_eq. apply seed_loop_frame in Hseed.
  split; [by eapply same_frame_gen_ok|].
  intros a j Hj. rewrite (nearest_same_frame _ _ _ Hseed) in Hj.
  destruct (Hnear a j Hj) as (na & Hna & Hin).
  destruct (Forall2_lookup_l _ _ _ _ _ Hseed Hna) as (na' & Hna' & (_&_&_&_&_&Hc)).
  exists na'. split; [done|]. by rewrite Hc.
Qed.

Lemma generateNetwork_is_Some (cfg : SimConfig) (width height : Q) (k : nat) :
  0 <= initialInfected cfg <= nodeCount cfg ->
  is_Some (generateNetwork rnd Math_hypot Math_sqrt Math_exp sort_random
             cfg width height k).
Proof using sort_random_perm.
  intros Hcfg. unfold generateNetwork.
  destruct (generateNetwork_linked cfg width height k) as (g & Hrun & Hok & _).
  destruct (foldl _ _ _) as [nodes0 k1]. simpl in Hrun. rewrite Hrun.
  rewrite decide_False by lia. destruct Hok as (Hlen & _).
  destruct (seed_loop_is_Some
              (sort_random nat (g_draws g) (seq 0 (Z.to_nat (nodeCount cfg))))
              (Z.to_nat (initialInfected cfg)) (g_nodes g)) as [nodes Hseed].
  - rewrite sort_random_perm, length_seq. lia.
  - intros s Hs. rewrite sort_random_perm in Hs. apply elem_of_seq in Hs. lia.
  - rewrite Hseed. by eexists.
Qed.

Lemma generateNetwork_nodeCount (cfg : SimConfig) (width height : Q) (k : nat)
  (nodes : list SimNode) (edges : list SimEdge) :
  generateNetwork rnd Math_hypot Math_sqrt Math_exp sort_random cfg width height k
    = Some (nodes, edges) ->
  0 <= nodeCount cfg.
Proof.
  unfold generateNetwork. destruct (foldl _ _ _) as [nodes0 k1].
  destruct (foldlM (link _ _ _ _ _) _ _) as [g|]; [|done].
  case_decide; [done | lia].
Qed.

(** ** The core operations keep ids, positions and connections *)

Lemma core_run_frame (nodes : list SimNode) (st : Store) :
  core_run rnd sort_random nodes st -> Forall2 same_frame nodes (objs st).
Proof using sort_random_perm. intros Hrun%core_run_steps. by apply rtc_store_step_frame in Hrun. Qed.

Lemma simulationTick_core_run (nodes nodes' : list SimNode) (cfg : SimConfig)
  (tick : Z) (k : nat) :
  simulationTick rnd nodes cfg tick k = Some nodes' ->
  exists st, core_run rnd sort_random nodes st /\ objs st = nodes'.
Proof.
  unfold simulationTick.
  destruct (simulationTick_run _ _ _ _ _) as [[st k']|] eqn:Hrun; [|done].
  intros ?; simplify_eq. exists st. split; [by eapply run_tick | done].
Qed.

Lemma applyFactCheck_core_run (nodes nodes' : list SimNode) (nodeId : Z) (k : nat) :
  applyFactCheck rnd nodes nodeId k = Some nodes' ->
  exists st, core_run rnd sort_random nodes st /\ objs st = nodes'.
Proof.
  unfold applyFactCheck.
  destruct (applyFactCheck_run _ _ _ _) as [[st k']|] eqn:Hrun; [|done].
  intros ?; simplify_eq. exists st. split; [by eapply run_factCheck | done].
Qed.

Lemma Reachable_gen_ok (cfg : SimConfig) (width height : Q) (nodes : list SimNode) :
  Reachable rnd Math_hypot Math_sqrt Math_exp sort_random cfg width height nodes ->
  0 <= nodeCount cfg /\ gen_ok (Z.to_nat (nodeCount cfg)) nodes.
Proof using sort_random_perm.
  induction 1 as [k nodes edges Hgen|nodes tick k nodes' _ [Hn IH] Hrun
                 |nodes nodeId k nodes' _ [Hn IH] Hrun|nodes k _ [Hn IH]].
  - split; [by eapply generateNetwork_nodeCount|].
    by apply generateNetwork_Some in Hgen as [Hok _].
  - apply simulationTick_core_run in Hrun as (st & Hrun & <-).
    split; [done|]. eapply same_frame_gen_ok; [by apply core_run_frame | done].
  - apply applyFactCheck_core_run in Hrun as (st & Hrun & <-).
    split; [done|]. eapply same_frame_gen_ok; [by apply core_run_frame | done].
  - split; [done|]. eapply same_frame_gen_ok; [|exact IH].
    apply core_run_frame, run_campaign.
Qed.

(** ** getStats *)

Lemma getStats_total (nodes : list SimNode) (tick : Z) :
  stats_total (getStats nodes tick) = length nodes.
Proof.
  unfold stats_total, getStats. simpl.
  induction nodes as [|n nodes IH]; [done|].
  rewrite !filter_cons.
  repeat case_decide; try congruence; simpl in *; try lia.
  destruct (state n); congruence.
Qed.

Lemma filter_length_insert (P : SimNode -> Prop) `{!forall n, Decision (P n)}
  (l : list SimNode) (i : nat) (n n' : SimNode) :
  l !! i = Some n ->
  (length (filter P (<[i := n']> l)) + (if decide (P n) then 1 else 0)
   = length (filter P l) + (if decide (P n') then 1 else 0))%nat.
Proof.
  revert i. induction l as [|m l IH]; intros i Hi; [done|].
  destruct i as [|i]; simpl in *.
  - simplify_eq. rewrite !filter_cons.
    destruct (decide (P n)), (decide (P n')); simpl; lia.
  - specialize (IH i Hi). rewrite !filter_cons.
    destruct (decide (P m)); simpl; lia.
Qed.

(** Making a healthy node aware moves one unit from the healthy count to
    the aware count. *)
Lemma getStats_set_aware (st : Store) (r : nat) (n : SimNode) (tick : Z) :
  objs st !! r = Some n -> state n = healthy ->
  let s := getStats (objs st) tick in
  let s' := getStats (objs (set_state r aware st)) tick in
  S (stats_healthy s') = stats_healthy s /\
  stats_aware s' = S (stats_aware s) /\
  stats_infected s' = stats_infected s /\
  stats_recovered s' = stats_recovered s.
Proof.
  intros Hn Hs. rewrite (set_state_objs _ _ _ _ Hn). simpl.
  pose proof (filter_length_insert (fun m => state m = healthy) _ _ _
                (with_state aware n) Hn) as Hh.
  pose proof (filter_length_insert (fun m => state m = aware) _ _ _
                (with_state aware n) Hn) as Ha.
  pose proof (filter_length_insert (fun m => state m = infected) _ _ _
                (with_state aware n) Hn) as Hi.
  pose proof (filter_length_insert (fun m => state m = recovered) _ _ _
                (with_state aware n) Hn) as Hr.
  simpl in Hh, Ha, Hi, Hr. rewrite Hs in Hh, Ha, Hi, Hr.
  repeat case_decide; try congruence. lia.
Qed.

(** C1. The four counts of a snapshot add up to the length of the node
    array; every core operation returns an array of the length of its input;
    hence on every array of a run (after generation, after every tick, after
    every intervention) the counts add up to [nodeCount]. *)
Theorem getStats_count_conservation :
  (forall nodes tick, stats_total (getStats nodes tick) = length nodes) /\
  (forall nodes st tick,
     core_run rnd sort_random nodes st ->
     stats_total (getStats (objs st) tick) = length nodes) /\
  (forall cfg width height nodes tick,
     Reachable rnd Math_hypot Math_sqrt Math_exp sort_random cfg width height nodes ->
     Z.of_nat (stats_total (getStats nodes tick)) = nodeCount cfg).
Proof using sort_random_perm.
  split; [apply getStats_total|]. split.
  - intros nodes st tick Hrun. rewrite getStats_total.
    symmetry. by eapply Forall2_length, core_run_frame.
  - intros cfg width height nodes tick [Hn (Hlen & _)]%Reachable_gen_ok.
    rewrite getStats_total, Hlen. lia.
Qed.

(** ** The history of writes explains every change of state *)

Lemma replay_path (ws : list StateWrite) :
  Forall legal_write ws ->
  forall ss ss', replay ws ss = Some ss' ->
  forall i s s', ss !! i = Some s -> ss' !! i = Some s' -> rtc legal_edge s s'.
Proof.
  induction 1 as [|w ws Hw _ IH]; intros ss ss' Hrep i s s' Hs Hs'; simpl in Hrep.
  - simplify_eq. apply rtc_refl.
  - case_decide as Hfrom; [|done].
    destruct (decide (i = w_index w)) as [->|Hne].
    + simplify_eq. eapply rtc_l; [exact Hw|].
      eapply (IH _ _ Hrep (w_index w)); [|exact Hs'].
      apply list_lookup_insert_eq. by eapply lookup_lt_Some.
    + eapply (IH _ _ Hrep i); [|exact Hs']. by rewrite list_lookup_insert_ne.
Qed.

Lemma legal_path_from_recovered (s : NodeState) : rtc legal_edge recovered s -> s = recovered.
Proof. intros Hp. inversion Hp as [|? ? ? Hedge]; [done | inversion Hedge]. Qed.

Lemma legal_path_from_aware (s : NodeState) : rtc legal_edge aware s -> s = aware.
Proof. intros Hp. inversion Hp as [|? ? ? Hedge]; [done | inversion Hedge]. Qed.

Lemma legal_path_from_infected (s : NodeState) :
  rtc legal_edge infected s -> s = infected \/ s = recovered.
Proof.
  intros Hp. inversion Hp as [|? s1 ? Hedge Hrest]; [by left|].
  inversion Hedge; subst. right. by apply legal_path_from_recovered.
Qed.

(** C2. In every core operation each assignment to a [state] field is one
    of healthy -> infected, infected -> recovered, healthy -> aware: the
    history of the run consists of such writes only, and replaying it on the
    input states gives the output states.  Hence the state of a node moves
    along legal edges only, a recovered or aware node keeps its state, and an
    infected node never becomes aware. *)
Theorem state_writes_legal (nodes : list SimNode) (st : Store) :
  core_run rnd sort_random nodes st ->
  Forall legal_write (writes st) /\
  replay (writes st) (state <$> nodes) = Some (state <$> objs st) /\
  forall i n n', nodes !! i = Some n -> objs st !! i = Some n' ->
    rtc legal_edge (state n) (state n') /\
    (state n = recovered \/ state n = aware -> state n' = state n) /\
    ~ (state n = infected /\ state n' = aware).
Proof using sort_random_perm.
  intros Hrun%core_run_steps%rtc_store_step_extends.
  destruct Hrun as (ws & Hws & Hlegal & Hrep). simpl in Hws, Hrep. subst ws.
  split; [done|]. split; [done|]. intros i n n' Hn Hn'.
  assert (Hpath : rtc legal_edge (state n) (state n')).
  { eapply (replay_path _ Hlegal _ _ Hrep i); by rewrite list_lookup_fmap, ?Hn, ?Hn'. }
  split; [done|]. split.
  - intros [Hs|Hs]; rewrite Hs in *.
    + by apply legal_path_from_recovered.
    + by apply legal_path_from_aware.
  - intros [Hs Hs']. rewrite Hs in Hpath.
    apply legal_path_from_infected in Hpath as [?|?]; congruence.
Qed.


(** ** simulationTick: what a tick does to one node *)

Lemma tick_step_effect (cfg : SimConfig) (tick : Z) (st0 st1 st2 : Store) :
  (forall i n n1, objs st0 !! i = Some n -> objs st1 !! i = Some n1 ->
     tick_effect cfg tick n n1) ->
  tick_step cfg tick st1 st2 ->
  forall i n n2, objs st0 !! i = Some n -> objs st2 !! i = Some n2 ->
    tick_effect cfg tick n n2.
Proof.
  intros IH Hstep i n n2 Hn Hn2.
  destruct Hstep as [st1 j m Hm Hs|st1 j m Hm Hs Hrt]; simpl in Hn2;
    rewrite ?set_state_alter in Hn2;
    (destruct (decide (j = i)) as [->|Hne];
     [rewrite !list_lookup_alter_eq, Hm in Hn2; simpl in Hn2; simplify_eq
     |rewrite !list_lookup_alter_ne in Hn2 by done; by eapply IH]).
  - destruct (IH i n m Hn Hm) as [|Hh|Hi Hr|Hh Hr]; simpl in Hs; try done.
    by apply effect_infected.
  - destruct (IH i n m Hn Hm) as [|Hh|Hi Hr|Hh Hr]; simpl in Hs, Hrt; try done.
    + by apply effect_recovered.
    + by apply effect_infected_recovered.
Qed.

Lemma rtc_tick_step_effect (cfg : SimConfig) (tick : Z) (st0 st : Store) :
  rtc (tick_step cfg tick) st0 st ->
  forall i n n', objs st0 !! i = Some n -> objs st !! i = Some n' ->
    tick_effect cfg tick n n'.
Proof.
  revert st.
  apply (rtc_ind_r (fun st => forall i n n', objs st0 !! i = Some n ->
                      objs st !! i = Some n' -> tick_effect cfg tick n n')).
  - intros i n n' Hn Hn'. simplify_eq. constructor.
  - intros st1 st2 _ Hstep IH. by eapply tick_step_effect.
Qed.

Lemma simulationTick_effect (nodes nodes' : list SimNode) (cfg : SimConfig)
  (tick : Z) (k i : nat) (n n' : SimNode) :
  simulationTick rnd nodes cfg tick k = Some nodes' ->
  nodes !! i = Some n -> nodes' !! i = Some n' ->
  tick_effect cfg tick n n'.
Proof.
  unfold simulationTick.
  destruct (simulationTick_run _ _ _ _ _) as [[st k']|] eqn:Hrun; [|done].
  intros ? Hn Hn'; simplify_eq. apply simulationTick_run_steps in Hrun.
  by eapply (rtc_tick_step_effect _ _ _ _ Hrun i).
Qed.

(** C3 (amended). A tick leaves a node alone, infects it (stamping the
    current tick), recovers it, or does both.  It never moves the stamp of a
    node that was already infected; a node becomes recovered only at a tick
    that is at least its [infectedAt] plus [recoveryTime]; and when
    [recoveryTime] is positive a node infected during a tick does not
    recover within that tick. *)
Theorem recovery_timing (nodes nodes' : list SimNode) (cfg : SimConfig)
  (tick : Z) (k i : nat) (n n' : SimNode) :
  simulationTick rnd nodes cfg tick k = Some nodes' ->
  nodes !! i = Some n -> nodes' !! i = Some n' ->
  tick_effect cfg tick n n' /\
  (state n = infected -> infectedAt n' = infectedAt n) /\
  (state n <> recovered -> state n' = recovered ->
   infectedAt n' + recoveryTime cfg <= tick) /\
  (0 < recoveryTime cfg -> state n = healthy -> state n' <> recovered).
Proof.
  intros Hrun Hn Hn'.
  pose proof (simulationTick_effect _ _ _ _ _ _ _ _ Hrun Hn Hn') as Heff.
  split; [done|].
  destruct Heff as [|Hh|Hi Hr|Hh Hr]; simpl; repeat split; intros; try congruence; lia.
Qed.

(** ** simulationTick returns on every well-formed network *)

Lemma same_frame_wf_network (nodes nodes' : list SimNode) :
  Forall2 same_frame nodes nodes' -> wf_network nodes -> wf_network nodes'.
Proof.
  intros Hfr Hwf a na' Ha'. pose proof (Forall2_length _ _ _ Hfr) as Hlen.
  destruct (same_frame_lookup _ _ _ _ Hfr Ha') as (na & Hna & Hid & _ & _ & _ & _ & Hc).
  destruct (Hwf a na Hna) as (Hida & Hnd & Hrange).
  unfold wf_node. by rewrite Hid, Hc, <- Hlen.
Qed.

Lemma tick_steps_frame (cfg : SimConfig) (tick : Z) (st st' : Store) :
  rtc (tick_step cfg tick) st st' -> Forall2 same_frame (objs st) (objs st').
Proof.
  intros Hrtc. apply rtc_store_step_frame.
  eapply rtc_subrel; [|exact Hrtc]. intros ??. apply tick_step_store_step.
Qed.

Lemma spread_loop_total (cfg : SimConfig) (tick : Z) (cs : list Z) (st : Store) (k : nat) :
  Forall (fun j => 0 <= j < Z.of_nat (length (objs st))) cs ->
  exists b, foldlM (spread rnd cfg tick) cs (st, k) = Some b.
Proof.
  intros Hrange. rewrite Forall_forall in Hrange.
  destruct (foldlM_total (fun b => length (objs b.1) = length (objs st))
              (spread rnd cfg tick) cs (st, k)) as (b & Hrun & _); [|done|by exists b].
  intros [st1 k1] j Hj Hlen. simpl in Hlen.
  destruct (at_Z (objs st1) j) as [nb|] eqn:Hnb.
  - assert (Hsome : is_Some (spread rnd cfg tick (st1, k1) j)).
    { unfold spread. rewrite Hnb. destruct (state nb); try (by eexists).
      destruct (Qltb _ _); by eexists. }
    destruct Hsome as [[st2 k2] Hstep]. exists (st2, k2). split; [done|]. simpl.
    apply spread_steps in Hstep as [Hrtc _].
    rewrite <- Hlen. symmetry. by eapply Forall2_length, tick_steps_frame.
  - apply at_Z_None in Hnb. specialize (Hrange j Hj). lia.
Qed.

Lemma visit_total (cfg : SimConfig) (tick : Z) (st : Store) (k i : nat) :
  wf_network (objs st) -> (i < length (objs st))%nat ->
  exists b, visit rnd cfg tick (st, k) i = Some b.
Proof.
  intros Hwf Hi. destruct (lookup_lt_is_Some_2 _ _ Hi) as [node Hnode].
  unfold visit. rewrite Hnode. destruct (state node); try (by eexists).
  destruct (spread_loop_total cfg tick (connections node) st k) as [[st1 k1] Hloop].
  { destruct (Hwf i node Hnode) as (_ & _ & Hrange).
    eapply Forall_impl; [exact Hrange|]. intros j [? _]. done. }
  rewrite Hloop. apply spread_loop_steps in Hloop as [Hrtc _].
  apply tick_steps_frame, Forall2_length in Hrtc.
  destruct (lookup_lt_is_Some_2 (objs st1) i) as [node' Hnode']; [lia|].
  rewrite Hnode'. destruct (Z.leb _ _); by eexists.
Qed.

Lemma simulationTick_total (nodes : list SimNode) (cfg : SimConfig) (tick : Z) (k : nat) :
  wf_network nodes -> is_Some (simulationTick rnd nodes cfg tick k).
Proof.
  intros Hwf. unfold simulationTick, simulationTick_run.
  destruct (foldlM_total (fun b => Forall2 same_frame nodes (objs b.1))
              (visit rnd cfg tick) (seq 0 (length nodes)) (copy_nodes nodes, k))
    as ([st k'] & -> & _); [|reflexivity|by eexists].
  intros [st1 k1] i Hi Hfr. simpl in Hfr.
  destruct (visit_total cfg tick st1 k1 i) as [[st2 k2] Hstep].
  - by eapply same_frame_wf_network.
  - apply elem_of_seq in Hi. rewrite <- (Forall2_length _ _ _ Hfr). lia.
  - exists (st2, k2). split; [done|]. simpl.
    etransitivity; [exact Hfr|]. by eapply tick_steps_frame, visit_steps.
Qed.

(** C5. With more seeds than nodes the seeding loop runs past the end of
    [shuffled] and the call throws. *)
Theorem generateNetwork_excess_seeds (cfg : SimConfig) (width height : Q) (k : nat) :
  nodeCount cfg < initialInfected cfg ->
  generateNetwork rnd Math_hypot Math_sqrt Math_exp sort_random cfg width height k
    = None.
Proof using sort_random_perm.
  intros Hcfg. unfold generateNetwork.
  destruct (foldl _ _ _) as [nodes0 k1].
  destruct (foldlM (link _ _ _ _ _) _ _) as [g|]; [|done].
  case_decide; [done|].
  rewrite seed_loop_throws; [done|]. rewrite sort_random_perm, length_seq. lia.
Qed.


(** C8 (amended). A valid config makes the generator return.  In every
    network it returns, the nearest other node of each node (its first
    distance-sorted candidate) is one of its connections; hence, unless
    [nodeCount] is 1, every node has degree at least one. *)
Theorem generated_degree (cfg : SimConfig) (width height : Q) (k : nat) :
  (0 <= initialInfected cfg <= nodeCount cfg ->
   is_Some (generateNetwork rnd Math_hypot Math_sqrt Math_exp sort_random
              cfg width height k)) /\
  (forall nodes edges,
     generateNetwork rnd Math_hypot Math_sqrt Math_exp sort_random cfg width height k
       = Some (nodes, edges) ->
     (forall i j, nearest Math_hypot nodes i = Some j ->
        exists ni, nodes !! i = Some ni /\ Z.of_nat j ∈ connections ni) /\
     (nodeCount cfg <> 1 ->
      forall n, n ∈ nodes -> (1 <= length (connections n))%nat)).
Proof using sort_random_perm.
  split; [apply generateNetwork_is_Some|].
  intros nodes edges Hgen.
  apply generateNetwork_Some in Hgen as [(Hlen & _) Hnear]. split; [done|].
  intros Hn n [a Ha]%list_elem_of_lookup_1.
  destruct (nearest_is_Some nodes a) as [j Hj].
  - by eapply lookup_lt_Some.
  - apply lookup_lt_Some in Ha. lia.
  - destruct (Hnear a j Hj) as (na & Hna & Hin). simplify_eq.
    destruct (connections n); [by apply elem_of_nil in Hin | simpl; lia].
Qed.

(** ** applyFactCheck: the loop over the neighbours *)

Lemma at_Z_set_state_ne (c j : Z) (s : NodeState) (st : Store) :
  0 <= c -> j <> c ->
  at_Z (objs (set_state (Z.to_nat c) s st)) j = at_Z (objs st) j.
Proof.
  intros Hc Hne. unfold at_Z. case_decide; [|done].
  apply set_state_lookup_ne. lia.
Qed.

Lemma healthy_neighbours_cons (nodes : list SimNode) (c : Z) (cs : list Z) :
  healthy_neighbours nodes (c :: cs) =
  if decide (state <$> at_Z nodes c = Some healthy)
  then c :: healthy_neighbours nodes cs
  else healthy_neighbours nodes cs.
Proof. unfold healthy_neighbours. by rewrite filter_cons. Qed.

Lemma healthy_neighbours_ext (nodes nodes' : list SimNode) (cs : list Z) :
  (forall j, j ∈ cs -> state <$> at_Z nodes' j = state <$> at_Z nodes j) ->
  healthy_neighbours nodes' cs = healthy_neighbours nodes cs.
Proof.
  intros Hext. unfold healthy_neighbours. induction cs as [|c cs IH]; [done|].
  rewrite !filter_cons, IH by (intros j Hj; apply Hext; by right).
  rewrite (Hext c) by (by left). done.
Qed.

Lemma immunize_loop (cs : list Z) :
  NoDup cs ->
  forall (st : Store) (k : nat),
  (forall j, j ∈ cs -> is_Some (at_Z (objs st) j)) ->
  exists st' k',
    foldlM (immunize rnd) cs (st, k) = Some (st', k') /\
    (forall m j n, healthy_neighbours (objs st) cs !! m = Some j ->
       at_Z (objs st) j = Some n ->
       at_Z (objs st') j =
         Some (if Qltb (rnd (k + m)) (1 # 2) then with_state aware n else n)) /\
    (forall i, Z.of_nat i ∉ healthy_neighbours (objs st) cs ->
       objs st' !! i = objs st !! i).
Proof.
  induction 1 as [|c cs Hc Hnd IH]; intros st k Hrange.
  - exists st, k. split; [done|]. split; [|done]. intros m j n Hm. done.
  - destruct (Hrange c) as [nb Hnb]; [by left|].
    pose proof (proj1 (at_Z_Some _ _ _) Hnb) as [Hc0 Hnb'].
    cbn [foldlM immunize]. rewrite Hnb.
    assert (Hstep : exists st1 k1,
      (match state nb with
       | healthy => if Qltb (rnd k) (1 # 2)
                    then Some (set_state (Z.to_nat c) aware st, S k)
                    else Some (st, S k)
       | _ => Some (st, k)
       end) = Some (st1, k1) /\
      (forall j, j <> c -> at_Z (objs st1) j = at_Z (objs st) j) /\
      (state nb = healthy -> k1 = S k /\
         at_Z (objs st1) c =
           Some (if Qltb (rnd k) (1 # 2) then with_state aware nb else nb)) /\
      (state nb <> healthy -> k1 = k /\ st1 = st)).
    { destruct (state nb) eqn:Hs; [destruct (Qltb (rnd k) (1 # 2)) eqn:Hdraw|..];
        eexists _, _; (split; [reflexivity|]);
        (split; [intros j Hj; by rewrite ?at_Z_set_state_ne by done|]);
        (split; [intros Hh; try discriminate Hh | intros Hne; try congruence]);
        try (split; done).
      split; [done|]. unfold at_Z. rewrite decide_True by done.
      by rewrite set_state_lookup_eq, Hnb'. }
    destruct Hstep as (st1 & k1 & -> & Hother & Hhealthy & Hunhealthy).
    destruct (IH st1 k1) as (st' & k' & Hrun & Hdraws & Hrest).
    { intros j Hj. rewrite Hother by (intros ->; done). apply Hrange. by right. }
    assert (Hsame : healthy_neighbours (objs st1) cs = healthy_neighbours (objs st) cs).
    { apply healthy_neighbours_ext. intros j Hj. by rewrite Hother by (intros ->; done). }
    rewrite Hsame in Hdraws, Hrest.
    assert (Hcnot : c ∉ healthy_neighbours (objs st) cs).
    { unfold healthy_neighbours. rewrite list_elem_of_filter. by intros [_ ?]. }
    exists st', k'. split; [done|].
    rewrite healthy_neighbours_cons, Hnb. simpl.
    destruct (decide (state nb = healthy)) as [Hs|Hs].
    + rewrite decide_True by (by rewrite Hs).
      destruct (Hhealthy Hs) as [-> Hc1]. split.
      * intros [|m] j n Hm Hn; simpl in Hm.
        -- simplify_eq. rewrite Nat.add_0_r.
           unfold at_Z. rewrite decide_True by done.
           rewrite Hrest by (by rewrite Z2Nat.id). 
           unfold at_Z in Hc1. by rewrite decide_True in Hc1 by done.
        -- replace (k + S m)%nat with (S k + m)%nat by lia.
           apply Hdraws; [done|]. rewrite Hother; [done|].
           intros ->. apply Hcnot. by eapply list_elem_of_lookup_2.
      * intros i Hi. apply not_elem_of_cons in Hi as [Hic Hi].
        rewrite Hrest by done.
        specialize (Hother (Z.of_nat i) Hic). by rewrite !at_Z_of_nat in Hother.
    + rewrite decide_False by (intros [=]; done).
      destruct (Hunhealthy Hs) as [-> ->]. by split.
Qed.

(** C9. On a well-formed network and a target inside the array,
    [applyFactCheck] returns; the target becomes recovered exactly when it
    was infected and keeps its state otherwise; the [m]-th healthy neighbour
    of the target (in the order of its connections list) becomes aware
    exactly when the [m]-th draw of the call is below 0.5; every other node
    is unchanged. *)
Theorem applyFactCheck_effect (nodes : list SimNode) (nodeId : Z) (k : nat)
  (t : SimNode) :
  wf_network nodes -> at_Z nodes nodeId = Some t ->
  exists out,
    applyFactCheck rnd nodes nodeId k = Some out /\
    at_Z out nodeId =
      Some (if decide (state t = infected) then with_state recovered t else t) /\
    (forall m j n,
       healthy_neighbours nodes (connections t) !! m = Some j ->
       at_Z nodes j = Some n ->
       at_Z out j =
         Some (if Qltb (rnd (k + m)) (1 # 2) then with_state aware n else n)) /\
    (forall i n,
       nodes !! i = Some n -> Z.of_nat i <> nodeId ->
       Z.of_nat i ∉ healthy_neighbours nodes (connections t) ->
       out !! i = Some n).
Proof.
  intros Hwf Ht. pose proof (proj1 (at_Z_Some _ _ _) Ht) as [Hid0 Ht'].
  destruct (Hwf _ _ Ht') as (_ & Hnd & Hrange).
  rewrite Z2Nat.id in Hrange by done. rewrite Forall_forall in Hrange.
  unfold applyFactCheck, applyFactCheck_run. simpl objs. rewrite Ht.
  set (st1 := match state t with
              | infected => set_state (Z.to_nat nodeId) recovered (copy_nodes nodes)
              | _ => copy_nodes nodes
              end).
  assert (Hother : forall j, j <> nodeId -> at_Z (objs st1) j = at_Z nodes j).
  { intros j Hj. unfold st1. destruct (state t); try done.
    by rewrite at_Z_set_state_ne. }
  assert (Htarget : at_Z (objs st1) nodeId =
            Some (if decide (state t = infected) then with_state recovered t else t)).
  { unfold st1. destruct (state t) eqn:Hs; simpl; try done.
    unfold at_Z. rewrite decide_True by done.
    by rewrite set_state_lookup_eq; simpl; rewrite Ht'. }
  destruct (immunize_loop (connections t) Hnd st1 k) as (st' & k' & Hrun & Hdraws & Hrest).
  { intros j Hj. destruct (Hrange j Hj) as [Hj0 Hjne]. rewrite Hother by done.
    unfold at_Z. rewrite decide_True by lia. apply lookup_lt_is_Some. lia. }
  assert (Hsame : healthy_neighbours (objs st1) (connections t)
                  = healthy_neighbours nodes (connections t)).
  { apply healthy_neighbours_ext. intros j Hj.
    destruct (Hrange j Hj) as [_ Hjne]. by rewrite Hother. }
  rewrite Hsame in Hdraws, Hrest. rewrite Hrun.
  assert (Hnotin : nodeId ∉ healthy_neighbours nodes (connections t)).
  { unfold healthy_neighbours. rewrite list_elem_of_filter. intros [_ Hin].
    by destruct (Hrange nodeId Hin). }
  exists (objs st'). split; [done|]. split; [|split].
  - unfold at_Z. rewrite decide_True by done.
    rewrite Hrest by (by rewrite Z2Nat.id).
    unfold at_Z in Htarget. by rewrite decide_True in Htarget by done.
  - intros m j n Hm Hn. apply Hdraws; [done|]. rewrite Hother; [done|].
    intros ->. apply Hnotin. by eapply list_elem_of_lookup_2.
  - intros i n Hn Hne Hnin. rewrite Hrest by done.
    specialize (Hother (Z.of_nat i) Hne). rewrite !at_Z_of_nat in Hother. congruence.
Qed.

(** ** applyAwarenessCampaign *)

Lemma healthy_refs_length_from (l nodes : list SimNode) :
  length (filter (fun i => state <$> (l ++ nodes) !! i = Some healthy)
            (seq (length l) (length nodes)))
  = length (filter (fun n => state n = healthy) nodes).
Proof.
  revert l. induction nodes as [|n nodes IH]; intros l; [done|].
  cbn [length seq]. rewrite !filter_cons.
  rewrite list_lookup_middle by done. simpl.
  specialize (IH (l ++ [n])). rewrite <- app_assoc, length_app in IH. simpl in IH.
  replace (length l + 1)%nat with (S (length l)) in IH by lia.
  destruct (decide (state n = healthy)) as [Hs|Hs].
  - rewrite decide_True by (by rewrite Hs). simpl. by rewrite IH.
  - rewrite decide_False by (intros [=]; done). done.
Qed.

(** The healthy references are as many as [getStats] counts healthy nodes. *)
Lemma healthy_refs_length (nodes : list SimNode) (tick : Z) :
  length (healthy_refs nodes) = stats_healthy (getStats nodes tick).
Proof. apply (healthy_refs_length_from [] nodes). Qed.

Lemma campaign_count_fifth (h : nat) : campaign_count h = (Z.of_nat h + 4) / 5.
Proof.
  clear. unfold campaign_count, Qceiling, Qfloor. simpl.
  change (Z.pos (1 * 10)) with 10.
  Z.div_mod_to_equations. lia.
Qed.

Lemma campaign_count_bounds (h : nat) : 0 <= campaign_count h <= Z.of_nat h.
Proof. clear. rewrite campaign_count_fifth. Z.div_mod_to_equations. lia. Qed.

Lemma aware_loop_stats (l : list nat) (tick : Z) :
  NoDup l ->
  forall st : Store,
  (forall r, r ∈ l -> exists n, objs st !! r = Some n /\ state n = healthy) ->
  let s := getStats (objs st) tick in
  let s' := getStats (objs (foldl (fun st r => set_state r aware st) st l)) tick in
  (stats_healthy s' + length l)%nat = stats_healthy s /\
  stats_aware s' = (stats_aware s + length l)%nat /\
  stats_infected s' = stats_infected s /\
  stats_recovered s' = stats_recovered s.
Proof.
  induction 1 as [|r l Hr Hnd IH]; intros st Hall; cbn [foldl length].
  - cbn zeta. repeat split; lia.
  - destruct (Hall r) as (n & Hn & Hs); [by left|].
    destruct (getStats_set_aware st r n tick Hn Hs) as (Hh & Ha & Hi & Hrec).
    destruct (IH (set_state r aware st)) as (Hh' & Ha' & Hi' & Hrec').
    { intros r' Hr'. destruct (Hall r') as (n' & Hn' & Hs'); [by right|].
      exists n'. split; [|done]. rewrite set_state_lookup_ne; [done|].
      intros ->. done. }
    cbn zeta in *. repeat split; lia.
Qed.

(** C10. The campaign makes aware exactly the first [ceil(0.2 * h)]
    references of the shuffled healthy subset, where [h] is the number of
    healthy nodes of the input: these are distinct nodes, healthy in the
    input; every other node is unchanged, so that the healthy count drops
    and the aware count rises by [ceil(0.2 * h)]; with no healthy node the
    result is the input.  The operation is total. *)
Theorem campaign_selection_effect (nodes : list SimNode) (k : nat) (tick : Z) :
  let h := stats_healthy (getStats nodes tick) in
  let selected :=
    take (Z.to_nat (Qceiling (inject_Z (Z.of_nat h) * (2 # 10))))
         (sort_random nat k (healthy_refs nodes)) in
  length selected = Z.to_nat (Qceiling (inject_Z (Z.of_nat h) * (2 # 10))) /\
  NoDup selected /\
  (forall r, r ∈ selected -> exists n, nodes !! r = Some n /\ state n = healthy) /\
  (forall i, applyAwarenessCampaign sort_random nodes k !! i =
             if decide (i ∈ selected) then with_state aware <$> nodes !! i
             else nodes !! i) /\
  (let after := getStats (applyAwarenessCampaign sort_random nodes k) tick in
   (stats_healthy after + length selected)%nat = h /\
   stats_aware after = (stats_aware (getStats nodes tick) + length selected)%nat /\
   stats_infected after = stats_infected (getStats nodes tick) /\
   stats_recovered after = stats_recovered (getStats nodes tick)) /\
  (h = 0%nat -> applyAwarenessCampaign sort_random nodes k = nodes).
Proof using sort_random_perm.
  intros h selected.
  assert (Hh : length (healthy_refs nodes) = h) by apply healthy_refs_length.
  pose proof (campaign_count_bounds h) as Hbound. unfold campaign_count in Hbound.
  assert (Hlens : length (sort_random nat k (healthy_refs nodes)) = h).
  { by rewrite sort_random_perm. }
  assert (Hsel : selected =
    take (Z.to_nat (Z.min (campaign_count (length (healthy_refs nodes)))
                          (Z.of_nat (length (sort_random nat k (healthy_refs nodes))))))
         (sort_random nat k (healthy_refs nodes))).
  { unfold selected, campaign_count. rewrite Hlens, Hh. by rewrite Z.min_l by lia. }
  destruct (campaign_selection nodes k) as [Hnd Hall]. rewrite <- Hsel in Hnd, Hall.
  destruct (aware_loop selected (copy_nodes nodes) Hnd Hall) as [_ Hlook].
  assert (Hrun : applyAwarenessCampaign sort_random nodes k =
            objs (foldl (fun st r => set_state r aware st) (copy_nodes nodes) selected)).
  { unfold applyAwarenessCampaign, applyAwarenessCampaign_run. simpl objs.
    by rewrite <- Hsel. }
  split; [|split; [done|split; [done|split; [|split]]]].
  - unfold selected. rewrite length_take, Hlens. lia.
  - intros i. rewrite Hrun. apply Hlook.
  - rewrite Hrun. exact (aware_loop_stats selected tick Hnd (copy_nodes nodes) Hall).
  - intros Hzero. apply list_eq. intros i. rewrite Hrun, Hlook.
    assert (selected = []) as ->; [|done].
    apply length_zero_iff_nil. unfold selected. rewrite length_take, Hlens. lia.
Qed.

(** Every array of a run is a well-formed network. *)
Lemma Reachable_wf_network (cfg : SimConfig) (width height : Q) (nodes : list SimNode) :
  Reachable rnd Math_hypot Math_sqrt Math_exp sort_random cfg width height nodes ->
  wf_network nodes.
Proof using sort_random_perm. by intros [_ (_ & Hwf & _)]%Reachable_gen_ok. Qed.

(** ** The target degree *)





(** * Further properties of the engine *)

(** ** A tick on a population without infected nodes *)

(** X4. When no node is infected, a tick returns its input: it writes
    nothing and draws no random number, whatever the connections are. *)
Theorem simulationTick_no_infected (nodes : list SimNode) (cfg : SimConfig)
  (tick : Z) (k : nat) :
  Forall (fun n => state n <> infected) nodes ->
  simulationTick_run rnd nodes cfg tick k = Some (copy_nodes nodes, k) /\
  simulationTick rnd nodes cfg tick k = Some nodes.
Proof.
  intros Hnone. rewrite Forall_lookup in Hnone.
  assert (Hrun : simulationTick_run rnd nodes cfg tick k = Some (copy_nodes nodes, k)).
  { unfold simulationTick_run.
    destruct (foldlM_total (fun b => b = (copy_nodes nodes, k))
                (visit rnd cfg tick) (seq 0 (length nodes)) (copy_nodes nodes, k))
      as (b & Hrun & ->); [|done|done].
    intros b i Hi ->. exists (copy_nodes nodes, k). split; [|done].
    apply elem_of_seq in Hi.
    destruct (lookup_lt_is_Some_2 nodes i) as [node Hnode]; [lia|].
    unfold visit. simpl. rewrite Hnode.
    specialize (Hnone i node Hnode). by destruct (state node). }
  split; [done|]. unfold simulationTick. by rewrite Hrun.
Qed.

(** ** How a tick moves the counts *)

Lemma filter_length_le (R : SimNode -> SimNode -> Prop) (P P' : SimNode -> Prop)
  `{!forall n, Decision (P n)} `{!forall n, Decision (P' n)}
  (l l' : list SimNode) :
  Forall2 R l l' -> (forall n n', R n n' -> P' n' -> P n) ->
  (length (filter P' l') <= length (filter P l))%nat.
Proof.
  intros Hall Himp. induction Hall as [|n n' l l' Hn _ IH]; [done|].
  rewrite !filter_cons. destruct (decide (P' n')) as [Hp'|Hp'].
  - rewrite decide_True by (by eapply Himp). simpl. lia.
  - destruct (decide (P n)); simpl; lia.
Qed.

Lemma simulationTick_Forall2 (nodes nodes' : list SimNode) (cfg : SimConfig)
  (tick : Z) (k : nat) :
  simulationTick rnd nodes cfg tick k = Some nodes' ->
  Forall2 (tick_effect cfg tick) nodes nodes'.
Proof.
  intros Hrun. apply Forall2_same_length_lookup. split.
  - unfold simulationTick in Hrun.
    destruct (simulationTick_run _ _ _ _ _) as [[st k']|] eqn:Hst; [|done].
    simplify_eq. apply simulationTick_run_steps, tick_steps_frame in Hst.
    by apply Forall2_length in Hst.
  - intros i n n' Hn Hn'. by eapply simulationTick_effect.
Qed.

(** X5. A tick never changes the number of aware nodes, never raises the
    number of healthy nodes and never lowers the number of recovered nodes;
    the number of nodes that are or were infected never drops. *)
Theorem simulationTick_counts (nodes nodes' : list SimNode) (cfg : SimConfig)
  (tick : Z) (k : nat) (t t' : Z) :
  simulationTick rnd nodes cfg tick k = Some nodes' ->
  let before := getStats nodes t in
  let after := getStats nodes' t' in
  stats_aware after = stats_aware before /\
  (stats_healthy after <= stats_healthy before)%nat /\
  (stats_recovered before <= stats_recovered after)%nat /\
  (stats_infected before + stats_recovered before
   <= stats_infected after + stats_recovered after)%nat.
Proof.
  intros Hrun before after.
  pose proof (simulationTick_Forall2 _ _ _ _ _ Hrun) as Hall.
  assert (Hflip : Forall2 (flip (tick_effect cfg tick)) nodes' nodes)
    by (by apply Forall2_flip).
  assert (Haware : stats_aware after = stats_aware before).
  { apply Nat.le_antisymm; simpl.
    - eapply filter_length_le; [exact Hall|].
      intros n n' [|Hh|Hi Hr|Hh Hr]; simpl; congruence.
    - eapply filter_length_le; [exact Hflip|].
      intros n' n [|Hh|Hi Hr|Hh Hr]; simpl; congruence. }
  assert (Hhealthy : (stats_healthy after <= stats_healthy before)%nat).
  { simpl. eapply filter_length_le; [exact Hall|].
    intros n n' [|Hh|Hi Hr|Hh Hr]; simpl; congruence. }
  assert (Hrec : (stats_recovered before <= stats_recovered after)%nat).
  { simpl. eapply filter_length_le; [exact Hflip|].
    intros n' n [|Hh|Hi Hr|Hh Hr]; simpl; congruence. }
  split; [done|]. split; [done|]. split; [done|].
  pose proof (getStats_total nodes t) as Htot.
  pose proof (getStats_total nodes' t') as Htot'.
  pose proof (Forall2_length _ _ _ Hall) as Hlen.
  unfold stats_total in Htot, Htot'. fold before in Htot. fold after in Htot'. lia.
Qed.

(** ** The stamp of infection *)

Lemma only_state_differs_refl (n : SimNode) : only_state_differs n n.
Proof. unfold only_state_differs. by destruct n. Qed.

Lemma only_state_differs_with_state (s : NodeState) (n : SimNode) :
  only_state_differs n (with_state s n).
Proof. unfold only_state_differs. by destruct n. Qed.

Lemma cure_step_only_state (st st' : Store) :
  cure_step st st' -> Forall2 only_state_differs (objs st) (objs st').
Proof.
  assert (Hgen : forall st i s, Forall2 only_state_differs (objs st)
                                  (objs (set_state i s st))).
  { clear. intros st i s. rewrite set_state_alter. apply Forall2_same_length_lookup.
    split; [by rewrite length_alter|]. intros j n n' Hn Hn'.
    rewrite list_lookup_alter in Hn'.
    case_decide; [subst; rewrite Hn in Hn'|]; simpl in Hn'; simplify_eq;
      [apply only_state_differs_with_state | apply only_state_differs_refl]. }
  intros [st0 i n Hn Hs|st0 i n Hn Hs]; apply Hgen.
Qed.

Lemma only_state_differs_trans (a b c : SimNode) :
  only_state_differs a b -> only_state_differs b c -> only_state_differs a c.
Proof. unfold only_state_differs. intros -> ->. by destruct a. Qed.

Lemma rtc_cure_step_only_state (st st' : Store) :
  rtc cure_step st st' -> Forall2 only_state_differs (objs st) (objs st').
Proof.
  induction 1 as [st|st1 st2 st3 Hstep _ IH].
  - apply Forall2_same_length_lookup. split; [done|].
    intros i n n' Hn Hn'. simplify_eq. apply only_state_differs_refl.
  - eapply Forall2_trans; [|by apply cure_step_only_state|exact IH].
    apply only_state_differs_trans.
Qed.

Lemma immunize_cures (st st' : Store) (k k' : nat) (nId : Z) :
  immunize rnd (st, k) nId = Some (st', k') -> rtc cure_step st st'.
Proof.
  unfold immunize. destruct (at_Z (objs st) nId) as [n|] eqn:Hn; [|done].
  apply at_Z_Some in Hn as [Hpos Hn].
  destruct (state n) eqn:Hs; try (intros; simplify_eq; apply rtc_refl).
  destruct (Qltb _ _); intros; simplify_eq; [|apply rtc_refl].
  apply rtc_once. by eapply cure_aware.
Qed.

Lemma applyFactCheck_run_cures (nodes : list SimNode) (nodeId : Z) (k k' : nat)
  (st : Store) :
  applyFactCheck_run rnd nodes nodeId k = Some (st, k') ->
  rtc cure_step (copy_nodes nodes) st.
Proof.
  unfold applyFactCheck_run.
  destruct (at_Z (objs (copy_nodes nodes)) nodeId) as [node|] eqn:Hnode; [|done].
  apply at_Z_Some in Hnode as [Hpos Hnode]. intros Hrun.
  apply (foldlM_invariant (fun b => rtc cure_step (copy_nodes nodes) b.1) _ _ _ _)
    in Hrun; [exact Hrun| |].
  - intros [st1 k1] nId [st2 k2] _ Hrtc Hstep. simpl in *.
    etransitivity; [exact Hrtc | by eapply immunize_cures].
  - simpl. destruct (state node) eqn:Hs; try apply rtc_refl.
    apply rtc_once. by eapply cure_recover.
Qed.

(** X8. [infectedAt] is stamped once: the interventions change nothing of
    a node but its [state]; a tick leaves the stamp of every node alone
    except of the healthy nodes it infects, which get the current tick; and
    no core operation changes the stamp of a node that is not healthy. *)
Theorem infectedAt_stamped_once :
  (forall nodes nodeId k out,
     applyFactCheck rnd nodes nodeId k = Some out ->
     Forall2 only_state_differs nodes out) /\
  (forall nodes k,
     Forall2 only_state_differs nodes (applyAwarenessCampaign sort_random nodes k)) /\
  (forall nodes cfg tick k out i n n',
     simulationTick rnd nodes cfg tick k = Some out ->
     nodes !! i = Some n -> out !! i = Some n' ->
     infectedAt n' = infectedAt n \/
     (state n = healthy /\ state n' <> healthy /\ infectedAt n' = tick)) /\
  (forall nodes st i n n',
     core_run rnd sort_random nodes st ->
     nodes !! i = Some n -> objs st !! i = Some n' ->
     state n <> healthy -> infectedAt n' = infectedAt n).
Proof using sort_random_perm.
  split; [|split; [|split]].
  - intros nodes nodeId k out Hrun. unfold applyFactCheck in Hrun.
    destruct (applyFactCheck_run _ _ _ _) as [[st k']|] eqn:Hst; [|done].
    simplify_eq. by apply applyFactCheck_run_cures, rtc_cure_step_only_state in Hst.
  - intros nodes k. apply Forall2_same_length_lookup. split.
    + pose proof (core_run_frame nodes _ (run_campaign rnd sort_random nodes k)) as Hfr.
      by apply Forall2_length in Hfr.
    + intros i n n' Hn Hn'.
      destruct (campaign_selection nodes k) as [Hnd Hall].
      destruct (aware_loop _ (copy_nodes nodes) Hnd Hall) as [_ Hlook].
      unfold applyAwarenessCampaign, applyAwarenessCampaign_run in Hn'.
      simpl objs in Hn'. rewrite Hlook in Hn'. simpl in Hn'. rewrite Hn in Hn'.
      case_decide; simpl in Hn'; simplify_eq;
        [apply only_state_differs_with_state | apply only_state_differs_refl].
  - intros nodes cfg tick k out i n n' Hrun Hn Hn'.
    destruct (simulationTick_effect _ _ _ _ _ _ _ _ Hrun Hn Hn') as [|Hh|Hi Hr|Hh Hr];
      simpl.
    + by left.
    + right. split; [done|]. split; [discriminate | done].
    + by left.
    + right. split; [done|]. split; [discriminate | done].
  - intros nodes st i n n' Hrun Hn Hn' Hs.
    apply core_run_steps in Hrun.
    enough (Hinv : state n' <> healthy /\ infectedAt n' = infectedAt n) by apply Hinv.
    revert n' Hn'. revert st Hrun.
    apply (rtc_ind_r (fun st => forall n', objs st !! i = Some n' ->
                        state n' <> healthy /\ infectedAt n' = infectedAt n)).
    + intros n' Hn'. simpl in Hn'. by simplify_eq.
    + intros st1 st2 _ Hstep IH n' Hn'. destruct Hstep as [st0 j m t Hm Hms|st0 j m Hm Hms|st0 j m Hm Hms];
        simpl in Hn'; rewrite ?set_state_alter in Hn';
        (destruct (decide (j = i)) as [->|Hne];
         [rewrite !list_lookup_alter_eq, Hm in Hn'; simpl in Hn'; simplify_eq;
          destruct (IH m Hm) as [Hm1 Hm2]; simpl; try done
         |rewrite !list_lookup_alter_ne in Hn' by done; by apply IH]).
Qed.

(** ** The generator: states, stamps and positions before seeding *)

#[global] Instance same_status_refl : Reflexive same_status.
Proof. intros n. by repeat split. Qed.

#[global] Instance same_status_trans : Transitive same_status.
Proof.
  intros a b c (?&?&?&?&?) (?&?&?&?&?). repeat split; congruence.
Qed.

Lemma add_connection_status (i : nat) (j : Z) (nodes nodes1 : list SimNode) :
  add_connection i j nodes = Some nodes1 -> Forall2 same_status nodes nodes1.
Proof.
  intros [_ ->]%add_connection_Some. apply Forall2_alter_r; [reflexivity|].
  intros n n' _ _ Hn. etransitivity; [exact Hn|]. by repeat split.
Qed.

Lemma connect_status (i : nat) (t : Z) (maxDist : Q) (ds : list Candidate) :
  forall (added : Z) (g g' : GenState),
  connect rnd Math_exp i t maxDist ds added g = Some g' ->
  Forall2 same_status (g_nodes g) (g_nodes g').
Proof.
  induction ds as [|d ds IH]; intros added g g' Hrun; cbn [connect] in Hrun.
  - by simplify_eq.
  - destruct (Z.leb t added); [by simplify_eq|].
    destruct (g_nodes g !! i) as [me|]; [|done].
    destruct (bool_decide _); [by eapply IH|].
    destruct (_ || _).
    + destruct (add_connection i _ _) as [nodes1|] eqn:Hadd1; [|done].
      destruct (add_connection (cand_j d) _ _) as [nodes2|] eqn:Hadd2; [|done].
      apply IH in Hrun. simpl in Hrun.
      etransitivity; [by eapply add_connection_status|].
      etransitivity; [by eapply add_connection_status | done].
    + by apply IH in Hrun.
Qed.

Lemma link_status (cfg : SimConfig) (maxDist : Q) (g g' : GenState) (i : nat) :
  link rnd Math_hypot Math_exp cfg maxDist g i = Some g' ->
  Forall2 same_status (g_nodes g) (g_nodes g').
Proof.
  unfold link. destruct (distances _ _ _) as [ds|]; [|done].
  intros Hrun. by apply connect_status in Hrun.
Qed.

Lemma link_loop_status (cfg : SimConfig) (maxDist : Q) (l : list nat) (g g' : GenState) :
  foldlM (link rnd Math_hypot Math_exp cfg maxDist) l g = Some g' ->
  Forall2 same_status (g_nodes g) (g_nodes g').
Proof.
  intros Hrun.
  apply (foldlM_invariant (fun b => Forall2 same_status (g_nodes g) (g_nodes b))
           _ _ _ _) in Hrun; [done| |reflexivity].
  intros g1 a g2 _ Hg1 Hstep. etransitivity; [exact Hg1 | by eapply link_status].
Qed.

(** Where the first loop puts node [a], and with which draws. *)
Lemma place_loop_exact (width height : Q) (m : nat) (nodes : list SimNode) (k : nat) :
  forall a na,
  (foldl (place rnd width height) (nodes, k) (seq (length nodes) m)).1 !! a = Some na ->
  nodes !! a = Some na \/
  ((length nodes <= a)%nat /\ fresh na /\
   x na = (padding + rnd (k + 2 * (a - length nodes)) * (width - padding * 2))%Q /\
   y na = (padding + rnd (S (k + 2 * (a - length nodes))) * (height - padding * 2))%Q).
Proof.
  revert nodes k. induction m as [|m IH]; intros nodes k a na; cbn [seq foldl].
  - simpl. by left.
  - cbn [place].
    set (n0 := {| id := Z.of_nat (length nodes) |}).
    specialize (IH (nodes ++ [n0]) (S (S k)) a na).
    rewrite length_app in IH. simpl in IH.
    replace (length nodes + 1)%nat with (S (length nodes)) in IH by lia.
    intros Ha. destruct (IH Ha) as [Hold|(Hge & Hfresh & Hx & Hy)].
    + destruct (decide (a < length nodes)%nat) as [Hlt|Hnlt].
      * left. by rewrite lookup_app_l in Hold.
      * right. rewrite lookup_app_r in Hold by lia.
        destruct (a - length nodes)%nat as [|?] eqn:Hd; [|done].
        simpl in Hold. simplify_eq.
        split; [lia|]. split; [done|]. simpl. by rewrite Nat.add_0_r.
    + right. split; [lia|]. split; [done|].
      replace (a - length nodes)%nat with (S (a - S (length nodes))) by lia.
      replace (k + 2 * S (a - S (length nodes)))%nat
        with (S (S k) + 2 * (a - S (length nodes)))%nat by lia.
      done.
Qed.

(** The network as the second loop leaves it, just before seeding. *)
Lemma generateNetwork_before_seeding (cfg : SimConfig) (width height : Q) (k : nat)
  (nodes : list SimNode) (edges : list SimEdge) :
  generateNetwork rnd Math_hypot Math_sqrt Math_exp sort_random cfg width height k
    = Some (nodes, edges) ->
  0 <= nodeCount cfg /\
  exists g,
    g_edges g = edges /\
    foldlM (link rnd Math_hypot Math_exp cfg
              (Math_sqrt (width * width + height * height)%Q))
      (seq 0 (Z.to_nat (nodeCount cfg)))
      {| g_nodes := (foldl (place rnd width height) ([], k)
                       (seq 0 (Z.to_nat (nodeCount cfg)))).1;
         g_edges := [];
         g_draws := (foldl (place rnd width height) ([], k)
                       (seq 0 (Z.to_nat (nodeCount cfg)))).2 |} = Some g /\
    foldlM (seed (sort_random nat (g_draws g) (seq 0 (Z.to_nat (nodeCount cfg)))))
      (seq 0 (Z.to_nat (initialInfected cfg))) (g_nodes g) = Some nodes /\
    length (g_nodes g) = Z.to_nat (nodeCount cfg) /\
    (forall a na, g_nodes g !! a = Some na ->
       fresh na /\
       x na = (padding + rnd (k + 2 * a) * (width - padding * 2))%Q /\
       y na = (padding + rnd (S (k + 2 * a)) * (height - padding * 2))%Q).
Proof.
  intros Hgen. pose proof (generateNetwork_Some _ _ _ _ _ _ Hgen) as [(Hlen & _) _].
  revert Hgen. unfold generateNetwork.
  pose proof (place_loop_exact width height (Z.to_nat (nodeCount cfg)) [] k) as Hplaced.
  destruct (foldl _ _ _) as [nodes0 k1]. simpl in *.
  destruct (foldlM (link _ _ _ _ _) _ _) as [g|] eqn:Hlink; [|done].
  case_decide; [done|].
  destruct (foldlM (seed _) _ _) as [nodes'|] eqn:Hseed; [|done].
  intros ?; simplify_eq. split; [lia|]. exists g. split; [done|].
  split; [done|]. split; [done|].
  pose proof (link_loop_status _ _ _ _ _ Hlink) as Hst. simpl in Hst.
  pose proof (seed_loop_frame _ _ _ _ Hseed) as Hfr.
  split.
  - by rewrite (Forall2_length _ _ _ Hfr).
  - intros a na Hna.
    destruct (Forall2_lookup_r _ _ _ _ _ Hst Hna) as (n0 & Hn0 & (_ & Hx & Hy & Hs & Hi)).
    destruct (Hplaced a n0 Hn0) as [Hnil|(_ & [Hfs Hfi] & Hx0 & Hy0)]; [done|].
    rewrite Nat.sub_0_r in Hx0, Hy0.
    split; [split; congruence|]. split; congruence.
Qed.

(** X3. Node [i] of a generated network carries the id [i] and sits where
    the draws number [2i] and [2i+1] of the call put it; the later loops do
    not move it.  When the draws lie in [0, 1) and the rectangle is at least
    120 wide and high, every node lies inside the rectangle at a distance of
    at least 60 from its border. *)
Theorem generated_positions (cfg : SimConfig) (width height : Q) (k : nat)
  (nodes : list SimNode) (edges : list SimEdge) (i : nat) (n : SimNode) :
  generateNetwork rnd Math_hypot Math_sqrt Math_exp sort_random cfg width height k
    = Some (nodes, edges) ->
  nodes !! i = Some n ->
  id n = Z.of_nat i /\
  x n = (padding + rnd (k + 2 * i) * (width - padding * 2))%Q /\
  y n = (padding + rnd (S (k + 2 * i)) * (height - padding * 2))%Q /\
  ((forall j, (0 <= rnd j)%Q /\ (rnd j < 1)%Q) ->
   (120 <= width)%Q -> (120 <= height)%Q ->
   (60 <= x n)%Q /\ (x n <= width - 60)%Q /\
   (60 <= y n)%Q /\ (y n <= height - 60)%Q).
Proof.
  intros Hgen Hn.
  pose proof (generateNetwork_Some _ _ _ _ _ _ Hgen) as [(_ & Hwf & _) _].
  destruct (Hwf i n Hn) as (Hid & _).
  destruct (generateNetwork_before_seeding _ _ _ _ _ _ Hgen)
    as (_ & g & _ & _ & Hseed & _ & Hpre).
  apply seed_loop_frame in Hseed.
  destruct (same_frame_lookup _ _ _ _ Hseed Hn) as (n0 & Hn0 & _ & Hx & Hy & _).
  destruct (Hpre i n0 Hn0) as (_ & Hx0 & Hy0).
  rewrite Hx, Hy, Hx0, Hy0. split; [done|]. split; [done|]. split; [done|].
  intros Hdraw Hw Hh. unfold padding.
  destruct (Hdraw (k + 2 * i)%nat) as [Hx1 Hx2].
  destruct (Hdraw (S (k + 2 * i))) as [Hy1 Hy2].
  clear - Hx1 Hx2 Hy1 Hy2 Hw Hh.
  repeat split; nra.
Qed.

(** ** The generator: seeding *)

Lemma seeded_seeded (n : SimNode) : seeded (seeded n) = seeded n.
Proof. by destruct n. Qed.

Lemma seed_loop_spec (shuffled : list nat) (m : nat) (nodes nodes' : list SimNode) :
  foldlM (seed shuffled) (seq 0 m) nodes = Some nodes' ->
  (m <= length shuffled)%nat /\
  forall i, nodes' !! i =
            if decide (i ∈ take m shuffled) then seeded <$> nodes !! i
            else nodes !! i.
Proof.
  revert nodes'. induction m as [|m IH]; intros nodes' Hrun.
  - simpl in Hrun. simplify_eq. split; [lia|]. intros i.
    rewrite take_0. by rewrite decide_False by apply not_elem_of_nil.
  - rewrite seq_S, foldlM_app in Hrun. simpl in Hrun.
    destruct (foldlM (seed shuffled) (seq 0 m) nodes) as [nodes1|]; [|done].
    destruct (IH nodes1 eq_refl) as [Hm Hlook]. unfold seed in Hrun.
    destruct (shuffled !! m) as [s|] eqn:Hs; [|done].
    destruct (nodes1 !! s) as [n1|] eqn:Hn1; [|done]. simplify_eq.
    split; [apply lookup_lt_Some in Hs; lia|]. intros i.
    rewrite (take_S_r _ _ _ Hs).
    destruct (decide (i = s)) as [->|Hne].
    + rewrite list_lookup_insert_eq by (by eapply lookup_lt_Some).
      rewrite decide_True by (apply elem_of_app; right; by left).
      rewrite Hlook in Hn1. fold (seeded n1).
      case_decide; destruct (nodes !! s) as [n|]; simpl in *; simplify_eq;
        by rewrite ?seeded_seeded.
    + rewrite list_lookup_insert_ne by done. rewrite Hlook.
      destruct (decide (i ∈ take m shuffled)) as [Hin|Hnin].
      * by rewrite decide_True by (apply elem_of_app; by left).
      * rewrite decide_False; [done|]. intros [?|Hi%list_elem_of_singleton]%elem_of_app; done.
Qed.

Lemma getStats_fresh (nodes : list SimNode) (t : Z) :
  Forall fresh nodes ->
  getStats nodes t =
  {| stats_tick := t; stats_healthy := length nodes; stats_infected := 0;
     stats_recovered := 0; stats_aware := 0 |}.
Proof.
  unfold getStats. induction 1 as [|n nodes [Hs _] _ IH]; [done|].
  injection IH as Hh Hi Hr Ha. rewrite !filter_cons, Hs.
  rewrite decide_True by done. rewrite !decide_False by done.
  simpl. by rewrite Hh, Hi, Hr, Ha.
Qed.

Lemma seed_loop_stats (shuffled : list nat) (m : nat) (nodes nodes' : list SimNode)
  (t : Z) :
  NoDup shuffled -> Forall fresh nodes ->
  foldlM (seed shuffled) (seq 0 m) nodes = Some nodes' ->
  getStats nodes' t =
  {| stats_tick := t; stats_healthy := length nodes - m; stats_infected := m;
     stats_recovered := 0; stats_aware := 0 |}.
Proof.
  intros Hnd Hfresh. revert nodes'. induction m as [|m IH]; intros nodes' Hrun.
  - simpl in Hrun. simplify_eq. rewrite Nat.sub_0_r. by apply getStats_fresh.
  - rewrite seq_S, foldlM_app in Hrun. simpl in Hrun.
    destruct (foldlM (seed shuffled) (seq 0 m) nodes) as [nodes1|] eqn:Hrun1; [|done].
    specialize (IH nodes1 eq_refl).
    destruct (seed_loop_spec _ _ _ _ Hrun1) as [Hm Hlook].
    pose proof (Forall2_length _ _ _ (seed_loop_frame _ _ _ _ Hrun1)) as Hlen.
    unfold seed in Hrun.
    destruct (shuffled !! m) as [s|] eqn:Hs; [|done].
    destruct (nodes1 !! s) as [n1|] eqn:Hn1; [|done]. simplify_eq.
    assert (Hnotin : s ∉ take m shuffled).
    { intros (j & Hj & Hjm)%elem_of_take.
      pose proof (NoDup_lookup _ _ _ _ Hnd Hj Hs). lia. }
    assert (Hfr1 : fresh n1).
    { pose proof Hn1 as Hn1'. rewrite Hlook, decide_False in Hn1' by done.
      rewrite Forall_lookup in Hfresh. by eapply Hfresh. }
    destruct Hfr1 as [Hs1 _].
    pose proof (filter_length_insert (fun n => state n = healthy) _ _ _ (seeded n1) Hn1) as Hh.
    pose proof (filter_length_insert (fun n => state n = infected) _ _ _ (seeded n1) Hn1) as Hi.
    pose proof (filter_length_insert (fun n => state n = recovered) _ _ _ (seeded n1) Hn1) as Hr.
    pose proof (filter_length_insert (fun n => state n = aware) _ _ _ (seeded n1) Hn1) as Ha.
    simpl in Hh, Hi, Hr, Ha. rewrite Hs1 in Hh, Hi, Hr, Ha.
    injection IH as IHh IHi IHr IHa.
    unfold getStats. fold (seeded n1). repeat case_decide; try done. f_equal; lia.
Qed.

(** X1. A generated network has exactly [initialInfected] infected nodes,
    all stamped with tick 0; every other node is healthy and carries the
    stamp -1.  Its first snapshot therefore counts [initialInfected]
    infected, [nodeCount - initialInfected] healthy and nothing else. *)
Theorem generated_seeds (cfg : SimConfig) (width height : Q) (k : nat)
  (nodes : list SimNode) (edges : list SimEdge) :
  generateNetwork rnd Math_hypot Math_sqrt Math_exp sort_random cfg width height k
    = Some (nodes, edges) ->
  exists seeds : list nat,
    NoDup seeds /\
    length seeds = Z.to_nat (initialInfected cfg) /\
    (length seeds <= length nodes)%nat /\
    (forall i n, nodes !! i = Some n ->
       if decide (i ∈ seeds)
       then state n = infected /\ infectedAt n = 0
       else state n = healthy /\ infectedAt n = -1) /\
    (forall t, getStats nodes t =
       {| stats_tick := t;
          stats_healthy := length nodes - length seeds;
          stats_infected := length seeds;
          stats_recovered := 0; stats_aware := 0 |}).
Proof using sort_random_perm.
  intros Hgen.
  destruct (generateNetwork_before_seeding _ _ _ _ _ _ Hgen)
    as (_ & g & _ & _ & Hseed & Hlen & Hpre).
  set (shuffled := sort_random nat (g_draws g) (seq 0 (Z.to_nat (nodeCount cfg)))) in *.
  assert (Hnd : NoDup shuffled).
  { unfold shuffled. rewrite sort_random_perm. apply NoDup_seq. }
  assert (Hshlen : length shuffled = length (g_nodes g)).
  { unfold shuffled. by rewrite sort_random_perm, length_seq. }
  destruct (seed_loop_spec _ _ _ _ Hseed) as [Hm Hlook].
  pose proof (Forall2_length _ _ _ (seed_loop_frame _ _ _ _ Hseed)) as Hlen'.
  assert (Hfresh : Forall fresh (g_nodes g)).
  { apply Forall_lookup. intros a na Hna. by destruct (Hpre a na Hna). }
  exists (take (Z.to_nat (initialInfected cfg)) shuffled).
  assert (Hslen : length (take (Z.to_nat (initialInfected cfg)) shuffled)
                  = Z.to_nat (initialInfected cfg)) by (rewrite length_take; lia).
  split; [eapply sublist_NoDup; [exact Hnd | apply sublist_take]|].
  split; [done|]. split; [lia|]. split.
  - intros i n Hn. rewrite Hlook in Hn.
    case_decide; destruct (g_nodes g !! i) as [n0|] eqn:Hn0; simpl in Hn; simplify_eq.
    + done.
    + by destruct (Hpre i n Hn0).
  - intros t. rewrite Hslen, <- Hlen'.
    by apply (seed_loop_stats shuffled).
Qed.

(** ** The generator: the edge list *)

Lemma edge_inj (a b a' b' : nat) : edge a b = edge a' b' -> a = a' /\ b = b'.
Proof. intros [= Ha Hb]. split; by apply Nat2Z.inj. Qed.

Lemma total_degree_push (nodes : list SimNode) (i : nat) (c : Z) (n : SimNode) :
  nodes !! i = Some n ->
  total_degree (alter (push_connection c) i nodes) = S (total_degree nodes).
Proof.
  assert (Hcons : forall m l, total_degree (m :: l)
                    = (length (connections m) + total_degree l)%nat) by done.
  revert i. induction nodes as [|m nodes IH]; intros i Hi; [done|].
  destruct i as [|i]; simpl in Hi.
  - simplify_eq.
    change (alter (push_connection c) 0%nat (n :: nodes))
      with (push_connection c n :: nodes).
    rewrite !Hcons. simpl. rewrite length_app. simpl. lia.
  - change (alter (push_connection c) (S i) (m :: nodes))
      with (m :: alter (push_connection c) i nodes).
    rewrite !Hcons, (IH i Hi). lia.
Qed.

Lemma total_degree_unlinked (nodes : list SimNode) :
  Forall (fun n => connections n = []) nodes -> total_degree nodes = 0%nat.
Proof.
  induction 1 as [|m l Hm _ IH]; [done|].
  change (total_degree (m :: l)) with (length (connections m) + total_degree l)%nat.
  by rewrite Hm, IH.
Qed.

Lemma add_edge_edges_ok (len i j : nat) (nodes nodes1 nodes2 : list SimNode)
  (ni : SimNode) (edges : list SimEdge) :
  gen_ok len nodes -> edges_ok nodes edges -> i <> j -> nodes !! i = Some ni ->
  Z.of_nat j ∉ connections ni ->
  add_connection i (Z.of_nat j) nodes = Some nodes1 ->
  add_connection j (Z.of_nat i) nodes1 = Some nodes2 ->
  edges_ok nodes2 (edges ++ [edge i j]).
Proof.
  intros Hok (Hnd & He1 & He2 & Hdeg) Hij Hni Hnotin Hadd1 Hadd2.
  destruct (add_edge_lookup _ _ _ _ _ Hadd1 Hadd2) as [Hlen2 Hall].
  assert (Hnew : (edge i j ∉ edges) /\ (edge j i ∉ edges)).
  { rewrite (He2 i j ni Hni) in Hnotin. split; intros ?; apply Hnotin; auto. }
  destruct Hnew as [Hnew1 Hnew2].
  assert (Hi : (i < length nodes)%nat) by (by eapply lookup_lt_Some).
  assert (Hj : (j < length nodes)%nat).
  { pose proof Hadd1 as [_ ->]%add_connection_Some.
    apply add_connection_Some in Hadd2 as [Hj _]. by rewrite length_alter in Hj. }
  split; [|split; [|split]].
  - apply NoDup_app. split; [done|]. split; [|apply NoDup_singleton].
    intros e He Heq%list_elem_of_singleton. by subst.
  - intros e [He|Heq%list_elem_of_singleton]%elem_of_app; [|subst e].
    + destruct (He1 e He) as (a & b & -> & Hab & Ha & Hb & Hrev).
      exists a, b. rewrite Hlen2. split; [done|]. split; [done|].
      split; [done|]. split; [done|].
      intros [?|[-> ->]%list_elem_of_singleton%edge_inj]%elem_of_app; done.
    + exists i, j. rewrite Hlen2. split; [done|]. split; [done|].
      split; [done|]. split; [done|].
      intros [?|[-> _]%list_elem_of_singleton%edge_inj]%elem_of_app; done.
  - intros a b na2 Ha2.
    assert (Hlt : (a < length nodes)%nat).
    { rewrite <- Hlen2. by eapply lookup_lt_Some. }
    apply lookup_lt_is_Some in Hlt as [na Hna].
    destruct (Hall a na Hna) as (na2' & Ha2' & _ & Hc). simplify_eq.
    rewrite (edge_membership _ _ _ _ _ _ Hc), (He2 a b na Hna).
    rewrite !elem_of_app, !list_elem_of_singleton. split.
    + intros [[H|H]|[[-> Hb]|[-> Hb]]].
      * left. by left.
      * right. by left.
      * apply Nat2Z.inj in Hb as ->. left. by right.
      * apply Nat2Z.inj in Hb as ->. right. by right.
    + intros [[H|H]|[H|H]].
      * left. by left.
      * apply edge_inj in H as [-> ->]. right. by left.
      * left. by right.
      * apply edge_inj in H as [-> ->]. right. right. done.
  - pose proof Hadd1 as [_ ->]%add_connection_Some.
    pose proof Hadd2 as [_ ->]%add_connection_Some.
    destruct (lookup_lt_is_Some_2 (alter (push_connection (Z.of_nat j)) i nodes) j)
      as [nj Hnj]; [by rewrite length_alter|].
    rewrite (total_degree_push _ _ _ _ Hnj), (total_degree_push _ _ _ _ Hni), Hdeg.
    rewrite length_app. simpl. lia.
Qed.

Lemma connect_edges (len i : nat) (t : Z) (maxDist : Q) (ds : list Candidate) :
  (i < len)%nat ->
  (forall d, d ∈ ds -> cand_j d <> i /\ (cand_j d < len)%nat) ->
  forall (added : Z) (g g' : GenState),
  gen_ok len (g_nodes g) -> edges_ok (g_nodes g) (g_edges g) ->
  connect rnd Math_exp i t maxDist ds added g = Some g' ->
  gen_ok len (g_nodes g') /\ edges_ok (g_nodes g') (g_edges g').
Proof.
  intros Hi. induction ds as [|d ds IH]; intros Hds added g g' Hok Hedges Hrun;
    cbn [connect] in Hrun.
  - by simplify_eq.
  - destruct (Z.leb t added); [by simplify_eq|].
    assert (Hds' : forall d', d' ∈ ds -> cand_j d' <> i /\ (cand_j d' < len)%nat).
    { intros d' Hd'. apply Hds. by right. }
    destruct (Hds d) as [Hne Hlt]; [by left|].
    destruct (g_nodes g !! i) as [me|] eqn:Hme; [|done].
    destruct (bool_decide (Z.of_nat (cand_j d) ∈ connections me)) eqn:Hinc;
      [by eapply IH|].
    apply bool_decide_eq_false in Hinc.
    destruct (_ || _).
    + destruct (add_connection i _ _) as [nodes1|] eqn:Hadd1; [|done].
      destruct (add_connection (cand_j d) _ _) as [nodes2|] eqn:Hadd2; [|done].
      destruct (add_edge_gen_ok len i (cand_j d) _ _ _ me Hok (not_eq_sym Hne) Hme
                  Hinc Hadd1 Hadd2) as (Hok2 & _).
      pose proof (add_edge_edges_ok len i (cand_j d) _ _ _ me _ Hok Hedges
                    (not_eq_sym Hne) Hme Hinc Hadd1 Hadd2) as Hedges2.
      eapply (IH Hds'); [| |exact Hrun]; done.
    + eapply (IH Hds'); [| |exact Hrun]; done.
Qed.

Lemma link_edges (cfg : SimConfig) (maxDist : Q) (len i : nat) (g g' : GenState) :
  (i < len)%nat ->
  gen_ok len (g_nodes g) -> edges_ok (g_nodes g) (g_edges g) ->
  link rnd Math_hypot Math_exp cfg maxDist g i = Some g' ->
  gen_ok len (g_nodes g') /\ edges_ok (g_nodes g') (g_edges g').
Proof.
  intros Hi Hok Hedges. pose proof Hok as (Hlen & _). unfold link.
  destruct (distances _ _ _) as [ds|] eqn:Hds; [|done].
  pose proof (distances_spec _ _ _ Hds) as Hspec.
  apply connect_edges; [done| |done|done].
  intros d Hd. destruct (Hspec (cand_j d)) as [[Hlt Hne] _]; [by exists d|].
  split; [done | lia].
Qed.

Lemma edges_ok_same_frame (nodes nodes' : list SimNode) (edges : list SimEdge) :
  Forall2 same_frame nodes nodes' -> edges_ok nodes edges -> edges_ok nodes' edges.
Proof.
  intros Hfr (Hnd & He1 & He2 & Hdeg).
  pose proof (Forall2_length _ _ _ Hfr) as Hlen.
  split; [done|]. split; [|split].
  - intros e He. destruct (He1 e He) as (a & b & ? & ? & ? & ? & ?).
    exists a, b. rewrite <- Hlen. done.
  - intros a b na' Hna'.
    destruct (same_frame_lookup _ _ _ _ Hfr Hna') as (na & Hna & _ & _ & _ & _ & _ & Hc).
    rewrite Hc. by apply He2.
  - rewrite <- Hdeg. clear -Hfr.
    induction Hfr as [|n n' l l' (_&_&_&_&_&Hc) _ IH]; [done|].
    change (total_degree (n' :: l'))
      with (length (connections n') + total_degree l')%nat.
    change (total_degree (n :: l))
      with (length (connections n) + total_degree l)%nat.
    by rewrite Hc, IH.
Qed.

Lemma link_loop_edges (cfg : SimConfig) (width height maxDist : Q) (k : nat)
  (g : GenState) :
  foldlM (link rnd Math_hypot Math_exp cfg maxDist)
    (seq 0 (Z.to_nat (nodeCount cfg)))
    {| g_nodes := (foldl (place rnd width height) ([], k)
                     (seq 0 (Z.to_nat (nodeCount cfg)))).1;
       g_edges := [];
       g_draws := (foldl (place rnd width height) ([], k)
                     (seq 0 (Z.to_nat (nodeCount cfg)))).2 |} = Some g ->
  edges_ok (g_nodes g) (g_edges g).
Proof.
  intros Hlink. set (n := Z.to_nat (nodeCount cfg)) in *.
  apply (foldlM_invariant
           (fun b => gen_ok n (g_nodes b) /\ edges_ok (g_nodes b) (g_edges b))
           _ _ _ _) in Hlink; [by destruct Hlink| |].
  - intros g1 a g2 Ha%elem_of_seq [Hok Hedges] Hstep.
    eapply link_edges; [|done|done|done]. lia.
  - simpl. split; [apply placed_gen_ok|].
    destruct (place_loop width height n [] k) as [_ Hall]. simpl in Hall.
    split; [constructor|]. split; [intros e He; by apply elem_of_nil in He|]. split.
    + intros a b na Hna. destruct (Hall a na Hna) as [?|(_ & _ & Hc & _)]; [done|].
      rewrite Hc. split; [intros H; by apply elem_of_nil in H|].
      intros [H|H]; by apply elem_of_nil in H.
    + simpl. apply total_degree_unlinked, Forall_lookup. intros a na Hna.
      by destruct (Hall a na Hna) as [?|(_ & _ & Hc & _)].
Qed.

(** X2. The edge list of a generated network agrees with its adjacency
    lists: every edge joins two different nodes of the array and is listed
    once, in one orientation only; two nodes are neighbours exactly when
    their edge is listed; and the degrees add up to twice the number of
    edges. *)
Theorem generated_edges (cfg : SimConfig) (width height : Q) (k : nat)
  (nodes : list SimNode) (edges : list SimEdge) :
  generateNetwork rnd Math_hypot Math_sqrt Math_exp sort_random cfg width height k
    = Some (nodes, edges) ->
  edges_ok nodes edges.
Proof.
  intros Hgen.
  destruct (generateNetwork_before_seeding _ _ _ _ _ _ Hgen)
    as (_ & g & <- & Hlink & Hseed & _ & _).
  apply seed_loop_frame in Hseed. eapply edges_ok_same_frame; [exact Hseed|].
  by eapply link_loop_edges.
Qed.

(** ** When a tick returns and when it throws *)

Lemma spread_loop_throws (cfg : SimConfig) (tick : Z) (cs : list Z) (c : Z) :
  c ∈ cs ->
  forall (st : Store) (k : nat),
  at_Z (objs st) c = None ->
  foldlM (spread rnd cfg tick) cs (st, k) = None.
Proof.
  induction cs as [|c0 cs IH]; intros Hc st k Hnone; [by apply elem_of_nil in Hc|].
  cbn [foldlM]. destruct (spread rnd cfg tick (st, k) c0) as [[st1 k1]|] eqn:Hstep; [|done].
  apply elem_of_cons in Hc as [->|Hc].
  - unfold spread in Hstep. by rewrite Hnone in Hstep.
  - apply IH; [done|]. apply spread_steps in Hstep as [Hrtc _].
    apply tick_steps_frame, Forall2_length in Hrtc.
    apply at_Z_None. apply at_Z_None in Hnone. lia.
Qed.

(** A visit of another position leaves a node that is not healthy as it is. *)
Lemma visit_other (cfg : SimConfig) (tick : Z) (st st' : Store) (k k' a i : nat)
  (n : SimNode) :
  visit rnd cfg tick (st, k) a = Some (st', k') -> a <> i ->
  objs st !! i = Some n -> state n <> healthy ->
  objs st' !! i = Some n /\ length (objs st') = length (objs st).
Proof.
  intros Hvisit Hne Hn Hs. split.
  - unfold visit in Hvisit. destruct (objs st !! a) as [node|]; [|done].
    destruct (state node); try (by simplify_eq).
    destruct (foldlM _ _ _) as [[st1 k1]|] eqn:Hloop; [|done].
    apply spread_loop_steps in Hloop as [_ Hkeep].
    assert (Hn1 : objs st1 !! i = Some n) by (by apply Hkeep).
    destruct (objs st1 !! a); [|done].
    destruct (Z.leb _ _); simplify_eq; [|done]. by rewrite set_state_lookup_ne.
  - symmetry. by eapply Forall2_length, tick_steps_frame, visit_steps.
Qed.

(** X7. A tick returns on every array whose connections lists hold ids of
    the array only, and it throws on every array in which some infected node
    lists an id outside the array. *)
Theorem simulationTick_returns_or_throws (nodes : list SimNode) (cfg : SimConfig)
  (tick : Z) (k : nat) :
  (connections_in_range nodes -> is_Some (simulationTick rnd nodes cfg tick k)) /\
  (forall i n c,
     nodes !! i = Some n -> state n = infected ->
     c ∈ connections n -> at_Z nodes c = None ->
     simulationTick rnd nodes cfg tick k = None).
Proof.
  split.
  - intros Hrange. unfold simulationTick, simulationTick_run.
    destruct (foldlM_total (fun b => Forall2 same_frame nodes (objs b.1))
                (visit rnd cfg tick) (seq 0 (length nodes)) (copy_nodes nodes, k))
      as ([st k'] & -> & _); [|reflexivity|by eexists].
    intros [st1 k1] i Hi Hfr. simpl in Hfr. apply elem_of_seq in Hi.
    pose proof (Forall2_length _ _ _ Hfr) as Hlen.
    destruct (lookup_lt_is_Some_2 (objs st1) i) as [node Hnode]; [lia|].
    assert (Hsome : exists b, visit rnd cfg tick (st1, k1) i = Some b).
    { unfold visit. rewrite Hnode. destruct (state node); try (by eexists).
      destruct (spread_loop_total cfg tick (connections node) st1 k1)
        as [[st2 k2] Hloop].
      { destruct (same_frame_lookup _ _ _ _ Hfr Hnode)
          as (n0 & Hn0 & _ & _ & _ & _ & _ & Hc).
        rewrite Hc, <- Hlen. unfold connections_in_range in Hrange.
        rewrite Forall_lookup in Hrange. by eapply Hrange. }
      rewrite Hloop. apply spread_loop_steps in Hloop as [Hrtc _].
      apply tick_steps_frame, Forall2_length in Hrtc.
      destruct (lookup_lt_is_Some_2 (objs st2) i) as [node' Hnode']; [lia|].
      rewrite Hnode'. destruct (Z.leb _ _); by eexists. }
    destruct Hsome as [[st2 k2] Hstep]. exists (st2, k2). split; [done|]. simpl.
    etransitivity; [exact Hfr|]. by eapply tick_steps_frame, visit_steps.
  - intros i n c Hn Hs Hc Hnone. unfold simulationTick, simulationTick_run.
    assert (Hi : (i < length nodes)%nat) by (by eapply lookup_lt_Some).
    replace (length nodes) with (i + S (length nodes - S i))%nat by lia.
    rewrite seq_app, foldlM_app. simpl.
    destruct (foldlM (visit rnd cfg tick) (seq 0 i) (copy_nodes nodes, k))
      as [[st1 k1]|] eqn:Hprefix; [|done].
    apply (foldlM_invariant
             (fun b => objs b.1 !! i = Some n /\ length (objs b.1) = length nodes)
             _ _ _ _) in Hprefix; [| |done].
    + destruct Hprefix as [Hn1 Hlen1]. simpl in Hn1, Hlen1.
      unfold visit at 1. rewrite Hn1, Hs.
      rewrite (spread_loop_throws cfg tick (connections n) c Hc); [done|].
      apply at_Z_None. apply at_Z_None in Hnone. lia.
    + intros [st2 k2] a [st3 k3] Ha%elem_of_seq [Hn2 Hlen2] Hstep. simpl in *.
      destruct (visit_other _ _ _ _ _ _ a i n Hstep) as [Hn3 Hlen3];
        [lia|done|congruence|].
      split; [done | lia].
Qed.

(** ** Where an infection comes from *)

Lemma spread_contact (cfg : SimConfig) (tick : Z) (st st' : Store) (k k' i : nat)
  (ni : SimNode) (nb : Z) :
  objs st !! i = Some ni -> state ni = infected -> nb ∈ connections ni ->
  spread rnd cfg tick (st, k) nb = Some (st', k') ->
  rtc (contact_step cfg tick) st st'.
Proof.
  intros Hni Hsi Hnb. unfold spread.
  destruct (at_Z (objs st) nb) as [n|] eqn:Hn; [|done].
  apply at_Z_Some in Hn as [Hpos Hn].
  destruct (state n) eqn:Hs; try (intros; simplify_eq; apply rtc_refl).
  destruct (Qltb _ _); intros; simplify_eq; [|apply rtc_refl].
  apply rtc_once. eapply (contact_infect cfg tick st i ni (Z.to_nat nb) n); try done.
  by rewrite Z2Nat.id.
Qed.

Lemma spread_loop_contact (cfg : SimConfig) (tick : Z) (i : nat) (ni : SimNode)
  (cs : list Z) :
  state ni = infected -> (forall c, c ∈ cs -> c ∈ connections ni) ->
  forall (st st' : Store) (k k' : nat),
  objs st !! i = Some ni ->
  foldlM (spread rnd cfg tick) cs (st, k) = Some (st', k') ->
  rtc (contact_step cfg tick) st st'.
Proof.
  intros Hsi. induction cs as [|c cs IH]; intros Hcs st st' k k' Hni Hrun.
  - simpl in Hrun. simplify_eq. apply rtc_refl.
  - cbn [foldlM] in Hrun.
    destruct (spread rnd cfg tick (st, k) c) as [[st1 k1]|] eqn:Hstep; [|done].
    etransitivity.
    + eapply (spread_contact _ _ _ _ _ _ i ni c); [done|done| |exact Hstep].
      apply Hcs. by left.
    + apply (IH (fun c' Hc' => Hcs c' (list_elem_of_further _ _ _ Hc')) st1 st' k1 k');
        [|done].
      apply spread_steps in Hstep as [_ Hkeep]. apply Hkeep; [done | congruence].
Qed.

Lemma visit_contact (cfg : SimConfig) (tick : Z) (st st' : Store) (k k' i : nat) :
  visit rnd cfg tick (st, k) i = Some (st', k') ->
  rtc (contact_step cfg tick) st st'.
Proof.
  unfold visit. destruct (objs st !! i) as [node|] eqn:Hnode; [|done].
  destruct (state node) eqn:Hs; try (intros; simplify_eq; apply rtc_refl).
  destruct (foldlM _ _ _) as [[st1 k1]|] eqn:Hloop; [|done].
  pose proof (spread_loop_contact cfg tick i node (connections node) Hs
                (fun c Hc => Hc) _ _ _ _ Hnode Hloop) as Hrtc.
  apply spread_loop_steps in Hloop as [_ Hkeep].
  assert (Hnode1 : objs st1 !! i = Some node) by (apply Hkeep; [done | congruence]).
  rewrite Hnode1.
  destruct (Z.leb _ _) eqn:Hrt; intros; simplify_eq; [|done].
  eapply rtc_r; [exact Hrtc|]. apply Z.leb_le in Hrt.
  by apply (contact_recover cfg tick st1 i node).
Qed.

Lemma contact_step_exposed (cfg : SimConfig) (tick : Z) (nodes : list SimNode)
  (st1 st2 : Store) :
  (forall j n0 nj, nodes !! j = Some n0 -> state n0 = healthy ->
     objs st1 !! j = Some nj -> state nj <> healthy -> exposed (objs st1) j) ->
  contact_step cfg tick st1 st2 ->
  forall j n0 nj, nodes !! j = Some n0 -> state n0 = healthy ->
    objs st2 !! j = Some nj -> state nj <> healthy -> exposed (objs st2) j.
Proof.
  intros IH Hstep j n0 nj Hn0 Hs0 Hnj Hsj.
  destruct Hstep as [st1 i ni j0 nj0 Hni Hsi Hin Hnj0 Hsj0|st1 i0 m Hm Hsm Hrt].
  - assert (Hkeep : forall a na, objs st1 !! a = Some na -> state na <> healthy ->
              objs (set_infectedAt j0 tick (set_state j0 infected st1)) !! a = Some na).
    { intros a na Hna Hsa. simpl. rewrite set_state_alter.
      rewrite !list_lookup_alter_ne; [done| |]; intros ->; congruence. }
    destruct (decide (j = j0)) as [->|Hne].
    + exists i, ni. split; [intros ->; congruence|].
      split; [apply Hkeep; [done | congruence]|]. split; [done | by left].
    + simpl in Hnj. rewrite set_state_alter in Hnj.
      rewrite !list_lookup_alter_ne in Hnj by done.
      destruct (IH j n0 nj Hn0 Hs0 Hnj Hsj) as (i' & ni' & Hij & Hni' & Hin' & Hsi').
      exists i', ni'. split; [done|].
      split; [apply Hkeep; [done | destruct Hsi'; congruence]|]. done.
  - assert (Hold : exists nj1, objs st1 !! j = Some nj1 /\ state nj1 <> healthy).
    { rewrite set_state_alter, list_lookup_alter in Hnj.
      case_decide; [subst; rewrite Hm in Hnj; simpl in Hnj; simplify_eq|].
      - exists m. split; [done | congruence].
      - by exists nj. }
    destruct Hold as (nj1 & Hnj1 & Hsj1).
    destruct (IH j n0 nj1 Hn0 Hs0 Hnj1 Hsj1) as (i' & ni' & Hij & Hni' & Hin' & Hsi').
    destruct (decide (i' = i0)) as [->|Hne].
    + exists i0, (with_state recovered ni'). split; [done|].
      split; [by rewrite set_state_lookup_eq, Hni'|]. split; [done | by right].
    + exists i', ni'. split; [done|].
      split; [by rewrite set_state_lookup_ne|]. done.
Qed.

(** X6. A tick infects nobody out of the blue: a node that is healthy
    before a tick and not healthy after it is listed in the connections of
    another node, and that node is infected or recovered after the tick. *)
Theorem simulationTick_infection_source (nodes out : list SimNode) (cfg : SimConfig)
  (tick : Z) (k j : nat) (n n' : SimNode) :
  simulationTick rnd nodes cfg tick k = Some out ->
  nodes !! j = Some n -> state n = healthy ->
  out !! j = Some n' -> state n' <> healthy ->
  exposed out j.
Proof.
  unfold simulationTick.
  destruct (simulationTick_run _ _ _ _ _) as [[st k']|] eqn:Hrun; [|done].
  intros ? Hn Hs Hn' Hs'; simplify_eq.
  assert (Hrtc : rtc (contact_step cfg tick) (copy_nodes nodes) st).
  { unfold simulationTick_run in Hrun.
    apply (foldlM_invariant
             (fun b => rtc (contact_step cfg tick) (copy_nodes nodes) b.1) _ _ _ _)
      in Hrun; [exact Hrun| |apply rtc_refl].
    intros [st1 k1] i [st2 k2] _ Hrtc Hstep. simpl in *.
    etransitivity; [exact Hrtc | by eapply visit_contact]. }
  clear Hrun. revert j n n' Hn Hs Hn' Hs'. revert st Hrtc.
  apply (rtc_ind_r (fun st => forall j n n', nodes !! j = Some n -> state n = healthy ->
                      objs st !! j = Some n' -> state n' <> healthy ->
                      exposed (objs st) j)).
  - intros j n n' Hn Hs Hn' Hs'. simpl in Hn'. congruence.
  - intros st1 st2 _ Hstep IH. by eapply contact_step_exposed.
Qed.

(** ** When a fact-check returns *)

Lemma immunize_length (st st' : Store) (k k' : nat) (nId : Z) :
  immunize rnd (st, k) nId = Some (st', k') -> length (objs st') = length (objs st).
Proof.
  intros Hstep%immunize_steps. symmetry.
  by eapply Forall2_length, rtc_store_step_frame.
Qed.

Lemma immunize_loop_throws (cs : list Z) (c : Z) :
  c ∈ cs ->
  forall (st : Store) (k : nat),
  at_Z (objs st) c = None -> foldlM (immunize rnd) cs (st, k) = None.
Proof.
  induction cs as [|c0 cs IH]; intros Hc st k Hnone; [by apply elem_of_nil in Hc|].
  cbn [foldlM]. destruct (immunize rnd (st, k) c0) as [[st1 k1]|] eqn:Hstep; [|done].
  apply elem_of_cons in Hc as [->|Hc].
  - unfold immunize in Hstep. by rewrite Hnone in Hstep.
  - apply IH; [done|]. apply immunize_length in Hstep.
    apply at_Z_None. apply at_Z_None in Hnone. lia.
Qed.

Lemma immunize_loop_total (cs : list Z) (len : nat) :
  Forall (fun c => 0 <= c < Z.of_nat len) cs ->
  forall (st : Store) (k : nat),
  length (objs st) = len -> is_Some (foldlM (immunize rnd) cs (st, k)).
Proof.
  intros Hcs st k Hlen.
  destruct (foldlM_total (fun b => length (objs b.1) = len) (immunize rnd) cs (st, k))
    as (b & -> & _); [|done|by eexists].
  intros [st1 k1] c Hc Hlen1. simpl in Hlen1. rewrite Forall_forall in Hcs.
  destruct (lookup_lt_is_Some_2 (objs st1) (Z.to_nat c)) as [nb Hnb];
    [specialize (Hcs c Hc); lia|].
  assert (Hat : at_Z (objs st1) c = Some nb)
    by (apply at_Z_Some; split; [specialize (Hcs c Hc); lia | done]).
  assert (Hsome : is_Some (immunize rnd (st1, k1) c)).
  { unfold immunize. rewrite Hat. destruct (state nb); try (by eexists).
    destruct (Qltb _ _); by eexists. }
  destruct Hsome as [[st2 k2] Hstep]. exists (st2, k2). split; [done|]. simpl.
  apply immunize_length in Hstep. lia.
Qed.

Lemma applyFactCheck_total (nodes : list SimNode) (nodeId : Z) (k : nat) (t : SimNode) :
  at_Z nodes nodeId = Some t ->
  Forall (fun c => 0 <= c < Z.of_nat (length nodes)) (connections t) ->
  is_Some (applyFactCheck rnd nodes nodeId k).
Proof.
  intros Ht Hrange. unfold applyFactCheck, applyFactCheck_run. simpl objs. rewrite Ht.
  set (st1 := match state t with
              | infected => set_state (Z.to_nat nodeId) recovered (copy_nodes nodes)
              | _ => copy_nodes nodes
              end).
  assert (Hlen : length (objs st1) = length nodes).
  { unfold st1. destruct (state t); try done.
    by rewrite set_state_alter, length_alter. }
  destruct (immunize_loop_total (connections t) (length nodes) Hrange st1 k Hlen)
    as [[st2 k2] ->].
  by eexists.
Qed.

(** X9. A fact-check returns exactly when its target id is a position of
    the array and every id in the target's connections list is one too; in
    every other case it throws. *)
Theorem applyFactCheck_returns_iff (nodes : list SimNode) (nodeId : Z) (k : nat) :
  is_Some (applyFactCheck rnd nodes nodeId k) <->
  exists t, at_Z nodes nodeId = Some t /\
            Forall (fun c => 0 <= c < Z.of_nat (length nodes)) (connections t).
Proof.
  split; [|intros (t & Ht & Hrange); by eapply applyFactCheck_total].
  unfold applyFactCheck, applyFactCheck_run. simpl objs.
  destruct (at_Z nodes nodeId) as [t|] eqn:Ht; [|by intros [? ?]].
  set (st1 := match state t with
              | infected => set_state (Z.to_nat nodeId) recovered (copy_nodes nodes)
              | _ => copy_nodes nodes
              end).
  assert (Hlen : length (objs st1) = length nodes).
  { unfold st1. destruct (state t); try done.
    by rewrite set_state_alter, length_alter. }
  intros Hsome. exists t. split; [done|]. apply Forall_forall. intros c Hc.
  destruct (at_Z nodes c) as [nc|] eqn:Hnc.
  - apply at_Z_Some in Hnc as [Hc0 Hnc%lookup_lt_Some]. lia.
  - rewrite (immunize_loop_throws (connections t) c Hc) in Hsome;
      [by destruct Hsome|].
    apply at_Z_None. apply at_Z_None in Hnc. lia.
Qed.

(** ** The force layout *)

Lemma same_place_refl (n : SimNode) : same_place n n.
Proof. by repeat split. Qed.

Lemma same_place_trans (n1 n2 n3 : SimNode) :
  same_place n1 n2 -> same_place n2 n3 -> same_place n1 n3.
Proof.
  intros (?&?&?&?&?&?) (?&?&?&?&?&?). repeat split; congruence.
Qed.

Lemma same_place_alter (f : SimNode -> SimNode) (l l' : list SimNode) (i : nat) :
  (forall n, same_place n (f n)) ->
  Forall2 same_place l l' -> Forall2 same_place l (alter f i l').
Proof.
  intros Hf Hl. apply Forall2_alter_r; [done|].
  intros n n' _ _ Hn. eapply same_place_trans; [exact Hn | apply Hf].
Qed.

Lemma same_place_push (fx fy : Q) (n : SimNode) : same_place n (push fx fy n).
Proof. by repeat split. Qed.

Lemma same_place_pull (fx fy : Q) (n : SimNode) : same_place n (pull fx fy n).
Proof. by repeat split. Qed.

Lemma repel_place (nodes u u' : list SimNode) (i j : nat) :
  repel Math_hypot i u j = Some u' ->
  Forall2 same_place nodes u -> Forall2 same_place nodes u'.
Proof.
  unfold repel. destruct (u !! j) as [nj|]; [|done].
  destruct (u !! i) as [ni|]; [|done]. intros ? Hu; simplify_eq.
  apply same_place_alter; [apply same_place_push|].
  apply same_place_alter; [apply same_place_pull | done].
Qed.

Lemma repel_total (u : list SimNode) (i j : nat) :
  (i < length u)%nat -> (j < length u)%nat -> is_Some (repel Math_hypot i u j).
Proof.
  intros Hi Hj. unfold repel.
  destruct (lookup_lt_is_Some_2 u j Hj) as [nj ->].
  destruct (lookup_lt_is_Some_2 u i Hi) as [ni ->]. by eexists.
Qed.

Lemma repel_row_spec (nodes u : list SimNode) (i : nat) :
  (i < length nodes)%nat -> Forall2 same_place nodes u ->
  exists u', repel_row Math_hypot (length nodes) u i = Some u' /\
             Forall2 same_place nodes u'.
Proof.
  intros Hi Hu. unfold repel_row.
  apply (foldlM_total (fun u0 => Forall2 same_place nodes u0)); [|done].
  intros u1 j Hj%elem_of_seq Hu1.
  pose proof (Forall2_length _ _ _ Hu1) as Hlen.
  destruct (repel_total u1 i j) as [u2 Hstep]; [lia|lia|].
  exists u2. split; [done|]. by eapply repel_place.
Qed.

Lemma repulsion_spec (u : list SimNode) :
  exists u', repulsion Math_hypot u = Some u' /\ Forall2 same_place u u'.
Proof.
  unfold repulsion.
  apply (foldlM_total (fun u0 => Forall2 same_place u u0)).
  - intros u1 i Hi%elem_of_seq Hu1. apply repel_row_spec; [lia | done].
  - apply Forall_Forall2_diag, Forall_forall. intros n _. apply same_place_refl.
Qed.

Lemma attract_place (nodes u u' : list SimNode) (e : SimEdge) :
  attract Math_hypot u e = Some u' ->
  Forall2 same_place nodes u -> Forall2 same_place nodes u'.
Proof.
  unfold attract. destruct (at_Z u (source e)) as [a|]; [|done].
  destruct (at_Z u (target e)) as [b|]; [|done]. intros ? Hu; simplify_eq.
  apply same_place_alter; [apply same_place_pull|].
  apply same_place_alter; [apply same_place_push | done].
Qed.

Lemma attract_Some (u : list SimNode) (e : SimEdge) :
  is_Some (attract Math_hypot u e) <-> edge_in_range (length u) e.
Proof.
  unfold attract, edge_in_range. split.
  - destruct (at_Z u (source e)) as [a|] eqn:Ha; [|by intros [? ?]].
    destruct (at_Z u (target e)) as [b|] eqn:Hb; [|by intros [? ?]]. intros _.
    apply at_Z_Some in Ha as [? Ha%lookup_lt_Some].
    apply at_Z_Some in Hb as [? Hb%lookup_lt_Some]. lia.
  - intros [Hs Ht].
    destruct (lookup_lt_is_Some_2 u (Z.to_nat (source e))) as [a Ha]; [lia|].
    destruct (lookup_lt_is_Some_2 u (Z.to_nat (target e))) as [b Hb]; [lia|].
    rewrite (proj2 (at_Z_Some u (source e) a)) by (split; [lia | done]).
    rewrite (proj2 (at_Z_Some u (target e) b)) by (split; [lia | done]).
    by eexists.
Qed.

Lemma attraction_Some (nodes : list SimNode) (edges : list SimEdge) :
  forall u, Forall2 same_place nodes u ->
  is_Some (foldlM (attract Math_hypot) edges u) <->
  Forall (edge_in_range (length nodes)) edges.
Proof.
  induction edges as [|e edges IH]; intros u Hu.
  - split; [done | by eexists].
  - pose proof (Forall2_length _ _ _ Hu) as Hlen.
    rewrite Forall_cons. cbn [foldlM].
    pose proof (attract_Some u e) as He. rewrite <- Hlen in He.
    destruct (attract Math_hypot u e) as [u1|] eqn:Hstep.
    + rewrite (IH u1) by (by eapply attract_place).
      split; [intros ?; split; [apply He; by eexists | done] | by intros [_ ?]].
    + split; [by intros [? ?]|]. intros [[? Hnone]%He _]. done.
Qed.

Lemma attraction_place (nodes : list SimNode) (edges : list SimEdge)
  (u u' : list SimNode) :
  foldlM (attract Math_hypot) edges u = Some u' ->
  Forall2 same_place nodes u -> Forall2 same_place nodes u'.
Proof.
  intros Hrun Hu.
  apply (foldlM_invariant (fun u0 => Forall2 same_place nodes u0) _ _ _ _) in Hrun;
    [done| |done].
  intros u1 e u2 _ Hu1 Hstep. by eapply attract_place.
Qed.

(** X10. The layout step returns exactly when both ends of every edge are
    positions of the node array; with an edge that points outside it throws. *)
Theorem applyForces_returns_iff (nodes : list SimNode) (edges : list SimEdge)
  (width height : Q) :
  is_Some (applyForces Math_hypot nodes edges width height) <->
  Forall (edge_in_range (length nodes)) edges.
Proof.
  unfold applyForces.
  destruct (repulsion_spec (with_velocity 0 0 <$> nodes)) as (u1 & -> & Hu1).
  assert (Hnodes : Forall2 same_place nodes u1).
  { rewrite Forall2_fmap_l in Hu1. eapply Forall2_impl; [exact Hu1|].
    intros n n' Hn. eapply same_place_trans; [|exact Hn]. by repeat split. }
  rewrite <- (attraction_Some nodes edges u1 Hnodes).
  destruct (foldlM _ edges u1); split; intros [? ?]; by eexists.
Qed.

Lemma Math_max_ge_l (a b : Q) : (a <= Math_max a b)%Q.
Proof.
  unfold Math_max. destruct (Qle_bool a b) eqn:H; [by apply Qle_bool_iff|].
  apply Qle_refl.
Qed.

Lemma Math_max_le (a b c : Q) : (a <= c)%Q -> (b <= c)%Q -> (Math_max a b <= c)%Q.
Proof. intros Ha Hb. unfold Math_max. by destruct (Qle_bool a b). Qed.

Lemma Math_min_le_l (a b : Q) : (Math_min a b <= a)%Q.
Proof.
  unfold Math_min. destruct (Qle_bool a b) eqn:H; [apply Qle_refl|].
  apply Qlt_le_weak, Qnot_le_lt. intros Hle%Qle_bool_iff. congruence.
Qed.

Lemma Math_max_eq_l (a b : Q) : (b <= a)%Q -> (Math_max a b == a)%Q.
Proof.
  intros Hb. unfold Math_max. destruct (Qle_bool a b) eqn:H; [|reflexivity].
  apply Qle_bool_iff in H. by apply Qle_antisym.
Qed.

(** X11. The layout step moves nodes and nothing else: the array it
    returns has the length of its input and, position by position, the same
    id, state, infectedAt and connections; the new position of a node is its
    old position plus half the returned velocity, clamped to the canvas
    padded by 40. *)
Theorem applyForces_frame (nodes out : list SimNode) (edges : list SimEdge)
  (width height : Q) :
  applyForces Math_hypot nodes edges width height = Some out ->
  length out = length nodes /\
  Forall2 (fun n n' =>
    same_node n n' /\
    x n' = Math_max layout_padding
             (Math_min (width - layout_padding)%Q (x n + vx n' * (1 # 2))%Q) /\
    y n' = Math_max layout_padding
             (Math_min (height - layout_padding)%Q (y n + vy n' * (1 # 2))%Q))
    nodes out.
Proof.
  unfold applyForces.
  destruct (repulsion_spec (with_velocity 0 0 <$> nodes)) as (u1 & -> & Hu1).
  assert (Hnodes : Forall2 same_place nodes u1).
  { rewrite Forall2_fmap_l in Hu1. eapply Forall2_impl; [exact Hu1|].
    intros n n' Hn. eapply same_place_trans; [|exact Hn]. by repeat split. }
  destruct (foldlM _ edges u1) as [u2|] eqn:Hrun; [|done]. intros ?; simplify_eq.
  pose proof (attraction_place nodes edges u1 u2 Hrun Hnodes) as Hu2.
  split; [rewrite !length_fmap; symmetry; by eapply Forall2_length|].
  apply Forall2_fmap_r, Forall2_fmap_r. eapply Forall2_impl; [exact Hu2|].
  intros n n' (Hid & Hx & Hy & Hs & Ht & Hc). simpl.
  rewrite Hx, Hy. by repeat split.
Qed.

(** X12. After a layout step every node lies at 40 or more in both
    coordinates, and at most [width - 40], [height - 40] when the canvas is
    80 or more wide, high; on a narrower canvas every node ends on the line
    [x = 40] (and likewise for [y]). *)
Theorem applyForces_clamps (nodes out : list SimNode) (edges : list SimEdge)
  (width height : Q) (i : nat) (n : SimNode) :
  applyForces Math_hypot nodes edges width height = Some out ->
  out !! i = Some n ->
  (40 <= x n)%Q /\ (40 <= y n)%Q /\
  ((80 <= width)%Q -> (x n <= width - 40)%Q) /\
  ((80 <= height)%Q -> (y n <= height - 40)%Q) /\
  ((width <= 80)%Q -> (x n == 40)%Q) /\
  ((height <= 80)%Q -> (y n == 40)%Q).
Proof.
  unfold applyForces.
  destruct (repulsion _ _) as [u1|]; [|done].
  destruct (foldlM _ edges u1) as [u2|]; [|done]. intros ? Hn; simplify_eq.
  rewrite !list_lookup_fmap in Hn.
  destruct (u2 !! i) as [m|]; [|done]. simpl in Hn. simplify_eq.
  cbn [integrate with_position x y]. unfold layout_padding. clear.
  repeat split.
  - apply Math_max_ge_l.
  - apply Math_max_ge_l.
  - intros Hw. apply Math_max_le; [lra|]. eapply Qle_trans; [apply Math_min_le_l | lra].
  - intros Hh. apply Math_max_le; [lra|]. eapply Qle_trans; [apply Math_min_le_l | lra].
  - intros Hw. apply Math_max_eq_l. eapply Qle_trans; [apply Math_min_le_l | lra].
  - intros Hh. apply Math_max_eq_l. eapply Qle_trans; [apply Math_min_le_l | lra].
Qed.

(** *** The forces between nodes cancel *)

Lemma sum_Q_alter (g : SimNode -> Q) (f : SimNode -> SimNode) (d : Q)
  (l : list SimNode) (i : nat) :
  (forall n, g (f n) == g n + d)%Q -> (i < length l)%nat ->
  (sum_Q (g <$> alter f i l) == sum_Q (g <$> l) + d)%Q.
Proof.
  intros Hf. revert i. induction l as [|n l IH]; intros i Hi; simpl in Hi; [lia|].
  destruct i as [|i].
  - change (g (f n) + sum_Q (g <$> l) == g n + sum_Q (g <$> l) + d)%Q.
    rewrite Hf. ring.
  - change (g n + sum_Q (g <$> alter f i l) == g n + sum_Q (g <$> l) + d)%Q.
    rewrite IH by lia. ring.
Qed.

(** A pair of opposite pushes leaves the summed velocity as it is. *)
Lemma pair_momentum (fx fy sx sy : Q) (u : list SimNode) (i j : nat) :
  (i < length u)%nat -> (j < length u)%nat ->
  (sum_Q (vx <$> u) == sx)%Q -> (sum_Q (vy <$> u) == sy)%Q ->
  (sum_Q (vx <$> alter (push fx fy) j (alter (pull fx fy) i u)) == sx)%Q /\
  (sum_Q (vy <$> alter (push fx fy) j (alter (pull fx fy) i u)) == sy)%Q.
Proof.
  intros Hi Hj Hx Hy. split.
  - rewrite (sum_Q_alter vx (push fx fy) fx) by (by rewrite ?length_alter).
    rewrite (sum_Q_alter vx (pull fx fy) (- fx)) by (done || by intros n; simpl).
    rewrite Hx. ring.
  - rewrite (sum_Q_alter vy (push fx fy) fy) by (by rewrite ?length_alter).
    rewrite (sum_Q_alter vy (pull fx fy) (- fy)) by (done || by intros n; simpl).
    rewrite Hy. ring.
Qed.

Lemma pair_momentum' (fx fy sx sy : Q) (u : list SimNode) (i j : nat) :
  (i < length u)%nat -> (j < length u)%nat ->
  (sum_Q (vx <$> u) == sx)%Q -> (sum_Q (vy <$> u) == sy)%Q ->
  (sum_Q (vx <$> alter (pull fx fy) j (alter (push fx fy) i u)) == sx)%Q /\
  (sum_Q (vy <$> alter (pull fx fy) j (alter (push fx fy) i u)) == sy)%Q.
Proof.
  intros Hi Hj Hx Hy. split.
  - rewrite (sum_Q_alter vx (pull fx fy) (- fx))
      by (by rewrite ?length_alter || by intros n; simpl).
    rewrite (sum_Q_alter vx (push fx fy) fx) by (done || by intros n; simpl).
    rewrite Hx. ring.
  - rewrite (sum_Q_alter vy (pull fx fy) (- fy))
      by (by rewrite ?length_alter || by intros n; simpl).
    rewrite (sum_Q_alter vy (push fx fy) fy) by (done || by intros n; simpl).
    rewrite Hy. ring.
Qed.

Lemma repel_at_rest (u u' : list SimNode) (i j : nat) :
  repel Math_hypot i u j = Some u' -> at_rest u -> at_rest u'.
Proof.
  unfold repel. destruct (u !! j) as [nj|] eqn:Hj; [|done].
  destruct (u !! i) as [ni|] eqn:Hi; [|done]. intros ? [Hx Hy]; simplify_eq.
  apply lookup_lt_Some in Hi, Hj. by apply pair_momentum.
Qed.

Lemma attract_at_rest (u u' : list SimNode) (e : SimEdge) :
  attract Math_hypot u e = Some u' -> at_rest u -> at_rest u'.
Proof.
  unfold attract. destruct (at_Z u (source e)) as [a|] eqn:Ha; [|done].
  destruct (at_Z u (target e)) as [b|] eqn:Hb; [|done]. intros ? [Hx Hy]; simplify_eq.
  apply at_Z_Some in Ha as [_ Ha%lookup_lt_Some].
  apply at_Z_Some in Hb as [_ Hb%lookup_lt_Some]. by apply pair_momentum'.
Qed.

Lemma stopped_at_rest (nodes : list SimNode) : at_rest (with_velocity 0 0 <$> nodes).
Proof.
  induction nodes as [|n nodes [IHx IHy]]; [done|]. split.
  - change (0 + sum_Q (vx <$> (with_velocity 0 0 <$> nodes)) == 0)%Q.
    rewrite IHx. ring.
  - change (0 + sum_Q (vy <$> (with_velocity 0 0 <$> nodes)) == 0)%Q.
    rewrite IHy. ring.
Qed.

Lemma gravity_momentum (width height : Q) (nodes u : list SimNode) :
  Forall2 same_place nodes u ->
  (sum_Q (vx <$> (integrate width height <$> (gravity (width / 2) (height / 2) <$> u)))
   == sum_Q (vx <$> u)
      + sum_Q ((fun n => (width / 2 - x n) * (2 # 1000)) <$> nodes))%Q /\
  (sum_Q (vy <$> (integrate width height <$> (gravity (width / 2) (height / 2) <$> u)))
   == sum_Q (vy <$> u)
      + sum_Q ((fun n => (height / 2 - y n) * (2 # 1000)) <$> nodes))%Q.
Proof.
  induction 1 as [|n m nodes u (_ & Hx & Hy & _) _ [IHx IHy]];
    [split; reflexivity|].
  rewrite !fmap_cons. cbn [sum_Q foldr]. fold (sum_Q). split.
  - change (sum_Q (vx <$> (integrate width height <$>
                             (gravity (width / 2) (height / 2) <$> u))))
      with (foldr Qplus 0%Q (vx <$> (integrate width height <$>
                             (gravity (width / 2) (height / 2) <$> u)))) in IHx.
    unfold sum_Q in *. rewrite IHx. simpl. rewrite Hx. ring.
  - unfold sum_Q in *. rewrite IHy. simpl. rewrite Hy. ring.
Qed.

(** X13. The forces between nodes cancel: in exact arithmetic, the
    velocities of the returned array add up to the pull of the centre alone,
    0.002 times the summed offsets of the input positions from the centre of
    the canvas; whatever velocity the input nodes carry is ignored. *)
Theorem applyForces_momentum (nodes out : list SimNode) (edges : list SimEdge)
  (width height : Q) :
  applyForces Math_hypot nodes edges width height = Some out ->
  (sum_Q (vx <$> out)
   == sum_Q ((fun n => (width / 2 - x n) * (2 # 1000)) <$> nodes))%Q /\
  (sum_Q (vy <$> out)
   == sum_Q ((fun n => (height / 2 - y n) * (2 # 1000)) <$> nodes))%Q.
Proof.
  unfold applyForces.
  destruct (repulsion_spec (with_velocity 0 0 <$> nodes)) as (u1 & Hrep & Hu1).
  rewrite Hrep.
  assert (Hnodes : Forall2 same_place nodes u1).
  { rewrite Forall2_fmap_l in Hu1. eapply Forall2_impl; [exact Hu1|].
    intros n n' Hn. eapply same_place_trans; [|exact Hn]. by repeat split. }
  destruct (foldlM _ edges u1) as [u2|] eqn:Hrun; [|done]. intros ?; simplify_eq.
  pose proof (attraction_place nodes edges u1 u2 Hrun Hnodes) as Hu2.
  assert (Hrest1 : at_rest u1).
  { unfold repulsion in Hrep.
    apply (foldlM_invariant at_rest _ _ _ _) in Hrep;
      [done| |apply stopped_at_rest].
    intros ua i ub _ Hua Hrow. unfold repel_row in Hrow.
    apply (foldlM_invariant at_rest _ _ _ _) in Hrow; [done| |done].
    intros uc j ud _ Huc Hstep. by eapply repel_at_rest. }
  assert (Hrest2 : at_rest u2).
  { apply (foldlM_invariant at_rest _ _ _ _) in Hrun; [done| |done].
    intros ua e ub _ Hua Hstep. by eapply attract_at_rest. }
  destruct Hrest2 as [Hx2 Hy2].
  destruct (gravity_momentum width height nodes u2 Hu2) as [Hgx Hgy].
  split.
  - rewrite Hgx, Hx2. ring.
  - rewrite Hgy, Hy2. ring.
Qed.

(** ** The page: the first render *)

Lemma generateNetwork_stats (cfg : SimConfig) (width height : Q) (k : nat)
  (nodes : list SimNode) (edges : list SimEdge) (t : Z) :
  generateNetwork rnd Math_hypot Math_sqrt Math_exp sort_random cfg width height k
    = Some (nodes, edges) ->
  length nodes = Z.to_nat (nodeCount cfg) /\
  getStats nodes t =
    {| stats_tick := t;
       stats_healthy := length nodes - Z.to_nat (initialInfected cfg);
       stats_infected := Z.to_nat (initialInfected cfg);
       stats_recovered := 0; stats_aware := 0 |}.
Proof using sort_random_perm.
  intros Hgen.
  destruct (generateNetwork_before_seeding _ _ _ _ _ _ Hgen)
    as (_ & g & _ & _ & Hseed & Hlen & Hpre).
  pose proof (Forall2_length _ _ _ (seed_loop_frame _ _ _ _ Hseed)) as Hlen'.
  split; [congruence|]. rewrite <- Hlen'.
  apply (seed_loop_stats
           (sort_random nat (g_draws g) (seq 0 (Z.to_nat (nodeCount cfg)))));
    [|apply Forall_lookup; intros a na Hna; by destruct (Hpre a na Hna)|done].
  rewrite sort_random_perm. apply NoDup_seq.
Qed.

Lemma generated_edges_in_range (cfg : SimConfig) (width height : Q) (k : nat)
  (nodes : list SimNode) (edges : list SimEdge) :
  generateNetwork rnd Math_hypot Math_sqrt Math_exp sort_random cfg width height k
    = Some (nodes, edges) ->
  Forall (edge_in_range (length nodes)) edges.
Proof.
  intros Hgen.
  destruct (generateNetwork_before_seeding _ _ _ _ _ _ Hgen)
    as (_ & g & <- & Hlink & Hseed & _ & _).
  pose proof (Forall2_length _ _ _ (seed_loop_frame _ _ _ _ Hseed)) as Hlen.
  apply link_loop_edges in Hlink as (_ & He & _).
  apply Forall_forall. intros e (a & b & -> & _ & Ha & Hb & _)%He.
  unfold edge_in_range, edge. simpl. lia.
Qed.

Lemma same_node_refl (n : SimNode) : same_node n n.
Proof. by repeat split. Qed.

Lemma same_node_trans (n1 n2 n3 : SimNode) :
  same_node n1 n2 -> same_node n2 n3 -> same_node n1 n3.
Proof. intros (?&?&?&?) (?&?&?&?). repeat split; congruence. Qed.

Lemma Forall2_same_node_refl (l : list SimNode) : Forall2 same_node l l.
Proof. apply Forall_Forall2_diag, Forall_forall. intros n _. apply same_node_refl. Qed.

Lemma Forall2_same_node_trans (l1 l2 l3 : list SimNode) :
  Forall2 same_node l1 l2 -> Forall2 same_node l2 l3 -> Forall2 same_node l1 l3.
Proof.
  intros H12. revert l3. induction H12 as [|n1 n2 l1 l2 Hn _ IH]; intros l3 H23.
  - by inversion H23.
  - inversion H23 as [|? n3 ? l3' Hn' H23']; simplify_eq.
    constructor; [by eapply same_node_trans | by apply IH].
Qed.

Lemma getStats_same_node (l1 l2 : list SimNode) (t : Z) :
  Forall2 same_node l1 l2 -> getStats l2 t = getStats l1 t.
Proof.
  unfold getStats. induction 1 as [|n1 n2 l1 l2 (_&Hs&_) _ IH]; [done|].
  injection IH as IHh IHi IHr IHa. rewrite !filter_cons, Hs.
  repeat case_decide; simpl; by rewrite ?IHh, ?IHi, ?IHr, ?IHa.
Qed.

Lemma wf_network_same_node (l1 l2 : list SimNode) :
  Forall2 same_node l1 l2 -> wf_network l1 -> wf_network l2.
Proof.
  intros Hl Hwf a n2 Hn2. pose proof (Forall2_length _ _ _ Hl) as Hlen.
  destruct (Forall2_lookup_r _ _ _ _ _ Hl Hn2) as (n1 & Hn1 & Hid & _ & _ & Hc).
  destruct (Hwf a n1 Hn1) as (Hida & Hnd & Hrange).
  unfold wf_node. by rewrite Hid, Hc, <- Hlen.
Qed.

Lemma applyForces_inv (nodes out : list SimNode) (edges : list SimEdge)
  (width height : Q) :
  applyForces Math_hypot nodes edges width height = Some out ->
  exists u, Forall2 same_place nodes u /\
            out = integrate width height <$> (gravity (width / 2) (height / 2) <$> u).
Proof.
  unfold applyForces.
  destruct (repulsion_spec (with_velocity 0 0 <$> nodes)) as (u1 & -> & Hu1).
  assert (Hnodes : Forall2 same_place nodes u1).
  { rewrite Forall2_fmap_l in Hu1. eapply Forall2_impl; [exact Hu1|].
    intros n n' Hn. eapply same_place_trans; [|exact Hn]. by repeat split. }
  destruct (foldlM _ edges u1) as [u2|] eqn:Hrun; [|done]. intros ?; simplify_eq.
  exists u2. split; [by eapply attraction_place | done].
Qed.

Lemma applyForces_total (nodes : list SimNode) (edges : list SimEdge)
  (width height : Q) :
  Forall (edge_in_range (length nodes)) edges ->
  is_Some (applyForces Math_hypot nodes edges width height).
Proof.
  intros Hedges. unfold applyForces.
  destruct (repulsion_spec (with_velocity 0 0 <$> nodes)) as (u1 & -> & Hu1).
  rewrite Forall2_fmap_l in Hu1.
  assert (Hnodes : Forall2 same_place nodes u1).
  { eapply Forall2_impl; [exact Hu1|].
    intros n n' Hn. eapply same_place_trans; [|exact Hn]. by repeat split. }
  destruct (proj2 (attraction_Some nodes edges u1 Hnodes) Hedges) as [u2 ->].
  by eexists.
Qed.

Lemma applyForces_same_node (nodes out : list SimNode) (edges : list SimEdge)
  (width height : Q) :
  applyForces Math_hypot nodes edges width height = Some out ->
  Forall2 same_node nodes out.
Proof.
  intros (u & Hu & ->)%applyForces_inv.
  apply Forall2_fmap_r, Forall2_fmap_r. eapply Forall2_impl; [exact Hu|].
  intros n n' (?&?&?&?&?&?). by repeat split.
Qed.

Lemma applyForces_on_canvas (nodes out : list SimNode) (edges : list SimEdge) :
  applyForces Math_hypot nodes edges Index.CANVAS_W Index.CANVAS_H = Some out ->
  Forall (fun n => (40 <= x n <= 660)%Q /\ (40 <= y n <= 460)%Q) out.
Proof.
  intros (u & _ & ->)%applyForces_inv.
  apply Forall_fmap, Forall_fmap, Forall_forall. intros n _.
  cbn [compose integrate with_position x y].
  unfold layout_padding, Index.CANVAS_W, Index.CANVAS_H. clear.
  repeat split; try apply Math_max_ge_l.
  - apply Math_max_le; [lra|]. eapply Qle_trans; [apply Math_min_le_l | lra].
  - apply Math_max_le; [lra|]. eapply Qle_trans; [apply Math_min_le_l | lra].
Qed.

Lemma layout_spec (rounds : nat) (e : list SimEdge) :
  forall laid : list SimNode,
  Forall (edge_in_range (length laid)) e ->
  exists out,
    Index.layout Math_hypot rounds laid e = Some out /\
    Forall2 same_node laid out /\
    ((0 < rounds)%nat ->
     Forall (fun n => (40 <= x n <= 660)%Q /\ (40 <= y n <= 460)%Q) out).
Proof.
  induction rounds as [|rounds IH]; intros laid He; simpl.
  - exists laid. split; [done|]. split; [apply Forall2_same_node_refl | lia].
  - destruct (applyForces_total laid e Index.CANVAS_W Index.CANVAS_H He)
      as [laid1 Hstep].
    rewrite Hstep.
    pose proof (applyForces_same_node _ _ _ _ _ Hstep) as Hsame.
    pose proof (Forall2_length _ _ _ Hsame) as Hlen.
    destruct (IH laid1) as (out & Hrun & Hout & Hcanvas); [by rewrite <- Hlen|].
    exists out. split; [done|].
    split; [by eapply Forall2_same_node_trans|]. intros _.
    destruct rounds; [|apply Hcanvas; lia].
    simpl in Hrun. simplify_eq. by eapply applyForces_on_canvas.
Qed.

Lemma preserve_noop (n : list SimNode) :
  forall (laid : list SimNode) (i : nat),
  (forall j node, laid !! j = Some node ->
     exists orig, n !! (i + j)%nat = Some orig /\ same_node orig node) ->
  Index.preserve n i laid = Some laid.
Proof.
  induction laid as [|node rest IH]; intros i Hall; simpl; [done|].
  destruct (Hall 0%nat node eq_refl) as (orig & Horig & _ & Hs & Ht & Hc).
  rewrite Nat.add_0_r in Horig. unfold Index.restore. rewrite Horig.
  rewrite IH.
  - rewrite <- Hs, <- Ht, <- Hc. by destruct node.
  - intros j node' Hj. destruct (Hall (S j) node' Hj) as (orig' & Ho & Hsame).
    exists orig'. split; [|done]. by replace (S i + j)%nat with (i + S j)%nat by lia.
Qed.

Lemma initNetwork_inv (k : nat) :
  exists n e s,
    generateNetwork rnd Math_hypot Math_sqrt Math_exp sort_random
      DEFAULT_CONFIG Index.CANVAS_W Index.CANVAS_H k = Some (n, e) /\
    Index.layout Math_hypot 50 n e = Some (Index.nodes s) /\
    Index.initNetwork rnd Math_hypot Math_sqrt Math_exp sort_random k = Some s /\
    s = {| Index.nodes := Index.nodes s; Index.edges := e; Index.tick := 0;
           Index.isRunning := false;
           Index.history := [getStats n 0];
           Index.factCheckMode := false |} /\
    Forall2 same_node n (Index.nodes s) /\
    Forall (fun n => (40 <= x n <= 660)%Q /\ (40 <= y n <= 460)%Q) (Index.nodes s).
Proof using sort_random_perm.
  destruct (generateNetwork_is_Some DEFAULT_CONFIG Index.CANVAS_W Index.CANVAS_H k)
    as [[n e] Hgen]; [simpl; lia|].
  destruct (layout_spec 50 e n) as (laid & Hlay & Hsame & Hcanvas);
    [by eapply generated_edges_in_range|].
  assert (Hpres : Index.preserve n 0 laid = Some laid).
  { apply preserve_noop. intros j node Hj. simpl.
    by destruct (Forall2_lookup_r _ _ _ _ _ Hsame Hj) as (orig & ? & ?); exists orig. }
  exists n, e.
  exists {| Index.nodes := laid; Index.edges := e; Index.tick := 0;
            Index.isRunning := false; Index.history := [getStats n 0];
            Index.factCheckMode := false |}.
  simpl. split; [done|]. split; [done|]. split.
  - unfold Index.initNetwork. rewrite Hgen, Hlay, Hpres.
    by rewrite (getStats_same_node n laid).
  - split; [done|]. split; [done|]. apply Hcanvas. lia.
Qed.

(** X15. The first render (and every reset) succeeds: the generator returns
    a network of 80 nodes, the 50 layout rounds return, and the loop that
    copies state, infectedAt and connections back from the generated nodes
    changes nothing, because the layout never touches these fields.  The page
    starts at tick 0, stopped, with the one snapshot 78 healthy, 2 infected;
    its nodes are the generated ones, moved into the canvas padded by 40. *)
Theorem initNetwork_spec (k : nat) :
  exists n e s,
    generateNetwork rnd Math_hypot Math_sqrt Math_exp sort_random
      DEFAULT_CONFIG Index.CANVAS_W Index.CANVAS_H k = Some (n, e) /\
    Index.layout Math_hypot 50 n e = Some (Index.nodes s) /\
    Index.preserve n 0 (Index.nodes s) = Some (Index.nodes s) /\
    Index.initNetwork rnd Math_hypot Math_sqrt Math_exp sort_random k = Some s /\
    Index.edges s = e /\ Index.tick s = 0 /\ Index.isRunning s = false /\
    Index.factCheckMode s = false /\
    Index.history s =
      [ {| stats_tick := 0; stats_healthy := 78; stats_infected := 2;
           stats_recovered := 0; stats_aware := 0 |} ] /\
    length (Index.nodes s) = 80%nat /\
    wf_network (Index.nodes s) /\
    Forall2 same_node n (Index.nodes s) /\
    Forall (fun n => (40 <= x n <= 660)%Q /\ (40 <= y n <= 460)%Q) (Index.nodes s).
Proof using sort_random_perm.
  destruct (initNetwork_inv k) as (n & e & s & Hgen & Hlay & Hinit & Hs & Hsame & Hcv).
  exists n, e, s.
  destruct (generateNetwork_stats _ _ _ _ _ _ 0 Hgen) as [Hlen Hstats].
  pose proof (Forall2_length _ _ _ Hsame) as Hlen'.
  assert (Hwf : wf_network n).
  { by apply generateNetwork_Some in Hgen as [(_ & Hwf & _) _]. }
  split; [done|]. split; [done|]. split.
  { apply preserve_noop. intros j node Hj. simpl.
    by destruct (Forall2_lookup_r _ _ _ _ _ Hsame Hj) as (orig & ? & ?); exists orig. }
  split; [done|]. rewrite Hs. simpl.
  split; [done|]. split; [done|]. split; [done|]. split; [done|].
  split; [by rewrite Hstats, Hlen|].
  split; [by rewrite <- Hlen', Hlen|].
  split; [by eapply wf_network_same_node|]. split; [done|]. by rewrite Hs in Hcv.
Qed.

(** ** The page: the history buffer *)

Lemma push_history_drop (h : list SimStats) (stats : SimStats) :
  Index.push_history h stats = drop (S (length h) - 200) (h ++ [stats]).
Proof.
  unfold Index.push_history. cbv zeta. rewrite length_app. cbn [length].
  rewrite Nat.add_1_r. case_decide; [done|].
  by replace (S (length h) - 200)%nat with 0%nat by lia.
Qed.

(** X14. The history updater appends the new snapshot and keeps the last
    200 entries: the result is a suffix of the old history followed by the
    new snapshot, it ends with the new snapshot, and its length is the old
    length plus one, capped at 200. *)
Theorem push_history_spec (h : list SimStats) (stats : SimStats) :
  length (Index.push_history h stats) = Nat.min (S (length h)) 200 /\
  last (Index.push_history h stats) = Some stats /\
  Index.push_history h stats `suffix_of` h ++ [stats] /\
  (forall i, Index.push_history h stats !! i
             = (h ++ [stats]) !! (S (length h) - 200 + i)%nat).
Proof.
  rewrite push_history_drop. split; [|split; [|split]].
  - rewrite length_drop, length_app. simpl. lia.
  - rewrite drop_app_le by lia. apply last_snoc.
  - apply suffix_drop.
  - intros i. by rewrite lookup_drop.
Qed.

(** ** The page: a click on the canvas *)

Lemma Qltb_lt (a b : Q) : Qltb a b = true <-> (a < b)%Q.
Proof.
  unfold Qltb. rewrite negb_true_iff. split.
  - intros H. apply Qnot_le_lt. intros Hle%Qle_bool_iff. congruence.
  - intros H. destruct (Qle_bool b a) eqn:Hle; [|done].
    apply Qle_bool_iff in Hle. by apply Qle_not_lt in Hle.
Qed.

Lemma handleClick_Some (l : list SimNode) (px py : Q) (nodeId : Z) :
  Index.handleClick Math_hypot l px py = Some nodeId ->
  exists i node,
    l !! i = Some node /\ id node = nodeId /\
    (Math_hypot (x node - px) (y node - py) < 20)%Q /\
    (forall j node', (j < i)%nat -> l !! j = Some node' ->
       ~ (Math_hypot (x node' - px) (y node' - py) < 20)%Q).
Proof.
  induction l as [|n l IH]; simpl; [done|].
  destruct (Qltb _ _) eqn:Hhit.
  - intros ?; simplify_eq. exists 0%nat, n. split; [done|]. split; [done|].
    split; [by apply Qltb_lt|]. intros j node' Hj. lia.
  - intros (i & node & Hi & Hid & Hd & Hfirst)%IH. exists (S i), node.
    split; [done|]. split; [done|]. split; [done|].
    intros [|j] node' Hj Hnode'; simpl in Hnode'.
    + simplify_eq. intros Hlt%Qltb_lt. congruence.
    + apply (Hfirst j); [lia | done].
Qed.

Lemma handleClick_None (l : list SimNode) (px py : Q) :
  Index.handleClick Math_hypot l px py = None <->
  Forall (fun node => ~ (Math_hypot (x node - px) (y node - py) < 20)%Q) l.
Proof.
  induction l as [|n l IH]; simpl; [by split|].
  rewrite Forall_cons, <- IH, <- Qltb_lt.
  destruct (Qltb _ _); split; try done; [by intros [? _] | by intros [_ ?]].
Qed.

Lemma wf_network_target (l : list SimNode) (i : nat) (node : SimNode) :
  wf_network l -> l !! i = Some node ->
  at_Z l (id node) = Some node /\
  Forall (fun c => 0 <= c < Z.of_nat (length l)) (connections node).
Proof.
  intros Hwf Hi. destruct (Hwf i node Hi) as (Hid & _ & Hrange). split.
  - apply at_Z_Some. rewrite Hid, Nat2Z.id. split; [lia | done].
  - eapply Forall_impl; [exact Hrange|]. by intros c [? _].
Qed.

(** X16. In fact-check mode a click fact-checks the first node of the
    array that lies closer than 20 to the click, and a click that is closer
    than 20 to no node changes nothing.  On a well-formed network the id
    handed to applyFactCheck is the position of that node, so the call
    returns; the page leaves fact-check mode. *)
Theorem canvas_click_spec (s : Index.State) (px py : Q) (k : nat) :
  wf_network (Index.nodes s) -> Index.factCheckMode s = true ->
  (Forall (fun node => ~ (Math_hypot (x node - px) (y node - py) < 20)%Q)
     (Index.nodes s) /\
   Index.handle rnd Math_hypot Math_sqrt Math_exp sort_random s
     (Index.CanvasClick px py k) = Some s) \/
  (exists i node out,
     Index.nodes s !! i = Some node /\ id node = Z.of_nat i /\
     (Math_hypot (x node - px) (y node - py) < 20)%Q /\
     (forall j node', (j < i)%nat -> Index.nodes s !! j = Some node' ->
        ~ (Math_hypot (x node' - px) (y node' - py) < 20)%Q) /\
     applyFactCheck rnd (Index.nodes s) (Z.of_nat i) k = Some out /\
     Index.handle rnd Math_hypot Math_sqrt Math_exp sort_random s
       (Index.CanvasClick px py k) =
     Some {| Index.nodes := out; Index.edges := Index.edges s;
             Index.tick := Index.tick s; Index.isRunning := Index.isRunning s;
             Index.history := Index.history s; Index.factCheckMode := false |}).
Proof.
  intros Hwf Hmode. simpl. rewrite Hmode.
  destruct (Index.handleClick Math_hypot (Index.nodes s) px py) as [nodeId|] eqn:Hhit.
  - right. apply handleClick_Some in Hhit as (i & node & Hi & <- & Hd & Hfirst).
    destruct (wf_network_target _ _ _ Hwf Hi) as [Hat Hrange].
    destruct (applyFactCheck_total _ _ k _ Hat Hrange) as [out Hout].
    destruct (Hwf i node Hi) as (Hid & _). rewrite Hid in Hout.
    exists i, node, out. split; [done|]. split; [done|]. split; [done|].
    split; [done|]. split; [done|].
    unfold Index.handleNodeClick. by rewrite Hmode, Hid, Hout.
  - left. split; [by apply handleClick_None | done].
Qed.

(** ** The page: every state of a session *)

Lemma history_ok_frame (s s' : Index.State) :
  Index.tick s' = Index.tick s -> Index.history s' = Index.history s ->
  length (Index.nodes s') = length (Index.nodes s) ->
  Index.history_ok s -> Index.history_ok s'.
Proof. unfold Index.history_ok. by intros -> -> ->. Qed.

Lemma page_ok_frame (s s' : Index.State) :
  Forall2 same_frame (Index.nodes s) (Index.nodes s') ->
  Index.edges s' = Index.edges s ->
  Index.tick s' = Index.tick s -> Index.history s' = Index.history s ->
  Index.page_ok s -> Index.page_ok s'.
Proof.
  intros Hfr He Ht Hh (Hlen & Hwf & Hedges & Hhist).
  pose proof (Forall2_length _ _ _ Hfr) as Hlen'.
  split; [congruence|]. split; [by eapply same_frame_wf_network|].
  split; [by rewrite He|]. eapply history_ok_frame; [done|done| |done]. congruence.
Qed.

Lemma onInterval_ok (s s' : Index.State) (k : nat) :
  Index.page_ok s -> Index.onInterval rnd s k = Some s' -> Index.page_ok s'.
Proof using sort_random_perm.
  intros (Hlen & Hwf & Hedges & Ht & Hhlen & Hhist). unfold Index.onInterval.
  destruct (simulationTick _ _ _ _ _) as [next|] eqn:Htick; [|done].
  intros ?; simplify_eq.
  apply simulationTick_core_run in Htick as (st & Hrun%core_run_frame & <-).
  pose proof (Forall2_length _ _ _ Hrun) as Hlen'.
  split; [simpl; congruence|]. split; [by eapply same_frame_wf_network|].
  split; [done|]. unfold Index.history_ok. simpl.
  destruct (push_history_spec (Index.history s)
              (getStats (objs st) (Index.tick s + 1))) as (Hl & _ & _ & Hlook).
  rewrite Hl. split; [lia|]. split; [lia|].
  intros i stt Hi. rewrite Hlook in Hi.
  destruct (decide (S (length (Index.history s)) - 200 + i < length (Index.history s))%nat)
    as [Hlt|Hge].
  - rewrite lookup_app_l in Hi by done.
    destruct (Hhist _ _ Hi) as [Htk Htot]. split; [lia | congruence].
  - rewrite lookup_app_r in Hi by lia.
    destruct (S (length (Index.history s)) - 200 + i - length (Index.history s))%nat
      as [|m] eqn:Hm; simpl in Hi; [|done].
    simplify_eq. split; [simpl; lia | apply getStats_total].
Qed.

Lemma initNetwork_ok (k : nat) (s : Index.State) :
  Index.initNetwork rnd Math_hypot Math_sqrt Math_exp sort_random k = Some s ->
  Index.page_ok s.
Proof using sort_random_perm.
  intros Hinit.
  destruct (initNetwork_inv k) as (n & e & s0 & Hgen & Hlay & Hinit0 & Hs & Hsame & _).
  rewrite Hinit0 in Hinit. simplify_eq.
  destruct (generateNetwork_stats _ _ _ _ _ _ 0 Hgen) as [Hlen _].
  pose proof (Forall2_length _ _ _ Hsame) as Hlen'.
  assert (Hwf : wf_network n).
  { by apply generateNetwork_Some in Hgen as [(_ & Hwf & _) _]. }
  rewrite Hs. split; [simpl; by rewrite <- Hlen', Hlen|].
  split; [by eapply wf_network_same_node|]. simpl. split.
  - apply generated_edges_in_range in Hgen. by rewrite Hlen in Hgen.
  - unfold Index.history_ok. simpl. split; [done|]. split; [done|].
    intros [|i] st Hi; simpl in Hi; [|done]. simplify_eq.
    split; [done|]. by rewrite getStats_total.
Qed.

Lemma handle_ok (s s' : Index.State) (ev : Index.Event) :
  Index.page_ok s ->
  Index.handle rnd Math_hypot Math_sqrt Math_exp sort_random s ev = Some s' ->
  Index.page_ok s'.
Proof using sort_random_perm.
  intros Hok. destruct ev as [k|k|px py k| | |k]; simpl.
  - apply initNetwork_ok.
  - destruct (Index.isRunning s); [by apply onInterval_ok | by intros ?; simplify_eq].
  - destruct (Index.factCheckMode s) eqn:Hmode; [|by intros ?; simplify_eq].
    destruct (Index.handleClick _ _ _ _) as [nodeId|]; [|by intros ?; simplify_eq].
    unfold Index.handleNodeClick. rewrite Hmode.
    destruct (applyFactCheck _ _ _ _) as [out|] eqn:Hfc; [|done].
    intros ?; simplify_eq.
    apply applyFactCheck_core_run in Hfc as (st & Hrun%core_run_frame & <-).
    by eapply page_ok_frame.
  - intros ?; simplify_eq. apply (page_ok_frame s); [simpl; reflexivity|done..].
  - intros ?; simplify_eq. apply (page_ok_frame s); [simpl; reflexivity|done..].
  - intros ?; simplify_eq.
    apply (page_ok_frame s); [|reflexivity|reflexivity|reflexivity|done]. simpl.
    apply (core_run_frame (Index.nodes s) (applyAwarenessCampaign_run sort_random _ k)).
    apply run_campaign.
Qed.

(** X17. The page never throws: every state of a session (the first
    render, then resets, timer ticks, clicks on the canvas, the two toggles
    and awareness campaigns in any order) holds a well-formed network of 80
    nodes, edges inside the array and a chart of the last [min (tick + 1)
    200] ticks, one snapshot per tick, each counting all 80 nodes; and in
    every such state every handler returns. *)
Theorem page_never_throws (s : Index.State) :
  Index.run rnd Math_hypot Math_sqrt Math_exp sort_random s ->
  Index.page_ok s /\
  forall ev, is_Some (Index.handle rnd Math_hypot Math_sqrt Math_exp sort_random s ev).
Proof using sort_random_perm.
  intros Hrun.
  assert (Hok : Index.page_ok s).
  { induction Hrun as [k s Hinit|s ev s' _ IH Hstep];
      [by eapply initNetwork_ok | by eapply handle_ok]. }
  split; [done|]. destruct Hok as (Hlen & Hwf & _).
  intros [k|k|px py k| | |k]; simpl; try (by eexists).
  - destruct (initNetwork_inv k) as (_ & _ & s0 & _ & _ & -> & _). by eexists.
  - destruct (Index.isRunning s); [|by eexists]. unfold Index.onInterval.
    destruct (simulationTick_total (Index.nodes s) DEFAULT_CONFIG (Index.tick s + 1) k Hwf)
      as [next ->].
    by eexists.
  - destruct (Index.factCheckMode s) eqn:Hmode; [|by eexists].
    destruct (Index.handleClick _ _ _ _) as [nodeId|] eqn:Hhit; [|by eexists].
    apply handleClick_Some in Hhit as (i & node & Hi & <- & _).
    destruct (wf_network_target _ _ _ Hwf Hi) as [Hat Hrange].
    destruct (applyFactCheck_total _ _ k _ Hat Hrange) as [out Hout].
    unfold Index.handleNodeClick. rewrite Hmode, Hout. by eexists.
Qed.

(** ** What a tick does to a node that is not healthy *)

Lemma visit_loop_other (cfg : SimConfig) (tick : Z) (i : nat) (n : SimNode)
  (l : list nat) (st st' : Store) (k k' : nat) :
  i ∉ l -> objs st !! i = Some n -> state n <> healthy ->
  foldlM (visit rnd cfg tick) l (st, k) = Some (st', k') ->
  objs st' !! i = Some n.
Proof.
  intros Hi Hn Hs Hrun.
  apply (foldlM_invariant (fun b => objs b.1 !! i = Some n) _ _ _ _) in Hrun;
    [done| |done].
  intros [st1 k1] a [st2 k2] Ha Hn1 Hstep. simpl in *.
  eapply visit_other; [exact Hstep| |done|done]. intros ->. done.
Qed.

Lemma unhealthy_fate (nodes nodes' : list SimNode) (cfg : SimConfig)
  (tick : Z) (k i : nat) (n : SimNode) :
  simulationTick rnd nodes cfg tick k = Some nodes' ->
  nodes !! i = Some n -> state n <> healthy ->
  nodes' !! i =
    Some (if decide (state n = infected /\ recoveryTime cfg <= tick - infectedAt n)
          then with_state recovered n else n).
Proof.
  unfold simulationTick.
  destruct (simulationTick_run _ _ _ _ _) as [[st k']|] eqn:Hrun; [|done].
  intros ? Hn Hs; simplify_eq. unfold simulationTick_run in Hrun.
  assert (Hi : (i < length nodes)%nat) by (by eapply lookup_lt_Some).
  replace (length nodes) with (i + S (length nodes - S i))%nat in Hrun by lia.
  rewrite seq_app, foldlM_app in Hrun. simpl in Hrun.
  destruct (foldlM (visit rnd cfg tick) (seq 0 i) (copy_nodes nodes, k))
    as [[st1 k1]|] eqn:Hprefix; [|done].
  apply (visit_loop_other cfg tick i n) in Hprefix;
    [|intros Hin%elem_of_seq; lia|done|done].
  destruct (visit rnd cfg tick (st1, k1) i) as [[st2 k2]|] eqn:Hvisit; [|done].
  assert (Hn2 : objs st2 !! i =
            Some (if decide (state n = infected /\
                             recoveryTime cfg <= tick - infectedAt n)
                  then with_state recovered n else n)).
  { unfold visit in Hvisit. rewrite Hprefix in Hvisit.
    destruct (state n) eqn:Hsn; try done.
    - destruct (foldlM _ _ _) as [[st1' k1']|] eqn:Hloop; [|done].
      apply spread_loop_steps in Hloop as [_ Hkeep].
      assert (Hn1 : objs st1' !! i = Some n) by (apply Hkeep; [done | congruence]).
      rewrite Hn1 in Hvisit.
      destruct (Z.leb _ _) eqn:Hrt; simplify_eq.
      + apply Z.leb_le in Hrt. rewrite decide_True by done.
        by rewrite set_state_lookup_eq, Hn1.
      + apply Z.leb_gt in Hrt. rewrite decide_False by lia. done.
    - simplify_eq. by rewrite decide_False by (intros [? _]; done).
    - simplify_eq. by rewrite decide_False by (intros [? _]; done). }
  eapply (visit_loop_other cfg tick i); [|exact Hn2| |exact Hrun].
  - intros Hin%elem_of_seq. lia.
  - case_decide; simpl; congruence.
Qed.

(** X18. What a tick does to one node.  The fate of a node that is not
    healthy is settled by its own fields: an infected node whose time is up
    ([tick - infectedAt >= recoveryTime]) leaves the tick recovered, and
    every other infected, recovered or aware node leaves it exactly as it
    entered, whatever the draws and whatever happens to the rest of the
    network.  A healthy node either stays as it is or, under a positive
    recoveryTime, leaves the tick infected and stamped with the tick. *)
Theorem simulationTick_node_fate (nodes nodes' : list SimNode) (cfg : SimConfig)
  (tick : Z) (k i : nat) (n : SimNode) :
  simulationTick rnd nodes cfg tick k = Some nodes' ->
  nodes !! i = Some n ->
  (state n <> healthy ->
   nodes' !! i =
     Some (if decide (state n = infected /\ recoveryTime cfg <= tick - infectedAt n)
           then with_state recovered n else n)) /\
  (state n = healthy -> 0 < recoveryTime cfg ->
   nodes' !! i = Some n \/
   nodes' !! i = Some (with_infectedAt tick (with_state infected n))).
Proof.
  intros Hrun Hn. split; [by eapply unhealthy_fate|]. intros Hs Hrt.
  pose proof (simulationTick_Forall2 _ _ _ _ _ Hrun) as Hall.
  destruct (Forall2_lookup_l _ _ _ _ _ Hall Hn) as (n' & -> & Heff).
  destruct Heff as [|Hh|Hi Hr|Hh Hr]; [by left|by right|congruence|lia].
Qed.

(** ** The page: how long an infection lasts *)


Lemma generated_stamps (cfg : SimConfig) (width height : Q) (k : nat)
  (nodes : list SimNode) (edges : list SimEdge) (i : nat) (n : SimNode) :
  generateNetwork rnd Math_hypot Math_sqrt Math_exp sort_random cfg width height k
    = Some (nodes, edges) ->
  nodes !! i = Some n -> state n = infected -> infectedAt n = 0.
Proof.
  intros Hgen Hn Hs.
  destruct (generateNetwork_before_seeding _ _ _ _ _ _ Hgen)
    as (_ & g & _ & _ & Hseed & _ & Hpre).
  destruct (seed_loop_spec _ _ _ _ Hseed) as [_ Hlook].
  rewrite Hlook in Hn.
  case_decide; destruct (g_nodes g !! i) as [n0|] eqn:Hn0; simpl in Hn; simplify_eq.
  - done.
  - destruct (Hpre i n Hn0) as [[Hh _] _]. congruence.
Qed.

Lemma rtc_cure_step_infected (st st' : Store) (i : nat) (n' : SimNode) :
  rtc cure_step st st' ->
  objs st' !! i = Some n' -> state n' = infected -> objs st !! i = Some n'.
Proof.
  induction 1 as [st|st1 st2 st3 Hstep _ IH]; [done|]. intros Hn' Hs'.
  specialize (IH Hn' Hs').
  destruct Hstep as [st0 j m Hm Hms|st0 j m Hm Hms];
    rewrite set_state_alter, list_lookup_alter in IH;
    (case_decide; [subst; rewrite Hm in IH; simpl in IH; simplify_eq|done]);
    simpl in Hs'; discriminate.
Qed.

(** X19. On the page an infection lasts fewer than 30 ticks: in every
    state of a session, every infected node was stamped at a tick between 0
    and the current tick, fewer than [recoveryTime = 30] ticks ago. *)
Theorem page_infection_age (s : Index.State) (i : nat) (n : SimNode) :
  Index.run rnd Math_hypot Math_sqrt Math_exp sort_random s ->
  Index.nodes s !! i = Some n -> state n = infected ->
  0 <= infectedAt n <= Index.tick s /\ Index.tick s - infectedAt n < 30.
Proof using sort_random_perm.
  intros Hrun. revert i n.
  assert (Hinit : forall k s, Index.initNetwork rnd Math_hypot Math_sqrt Math_exp
                                sort_random k = Some s ->
            0 <= Index.tick s /\
            forall i n, Index.nodes s !! i = Some n -> state n = infected ->
              0 <= infectedAt n <= Index.tick s /\ Index.tick s - infectedAt n < 30).
  { intros k s0 Hs0.
    destruct (initNetwork_inv k) as (n0 & e & s1 & Hgen & _ & Hinit1 & Hs1 & Hsame & _).
    rewrite Hinit1 in Hs0. simplify_eq. rewrite Hs1. simpl. split; [done|].
    intros i n Hn Hs.
    destruct (Forall2_lookup_r _ _ _ _ _ Hsame Hn) as (orig & Ho & _ & Hst & Hat & _).
    rewrite Hat, (generated_stamps _ _ _ _ _ _ i orig Hgen Ho) by congruence. lia. }
  enough (Hall : 0 <= Index.tick s /\
            forall i n, Index.nodes s !! i = Some n -> state n = infected ->
              0 <= infectedAt n <= Index.tick s /\ Index.tick s - infectedAt n < 30)
    by apply Hall.
  induction Hrun as [k s Hs|s ev s' _ [Ht IH] Hstep]; [by eapply Hinit|].
  destruct ev as [k|k|px py k| | |k]; simpl in Hstep.
  - by eapply Hinit.
  - destruct (Index.isRunning s); [|by simplify_eq]. unfold Index.onInterval in Hstep.
    destruct (simulationTick _ _ _ _ _) as [next|] eqn:Htick; [|done].
    simplify_eq. simpl. split; [lia|]. intros i n' Hn' Hs'.
    pose proof (simulationTick_Forall2 _ _ _ _ _ Htick) as Hall.
    destruct (Forall2_lookup_r _ _ _ _ _ Hall Hn') as (n & Hn & Heff).
    destruct (decide (state n = healthy)) as [Hh|Hne].
    + destruct Heff as [|_|Hi _|_ _]; simpl in *; try congruence. lia.
    + rewrite (unhealthy_fate _ _ _ _ _ _ _ Htick Hn Hne) in Hn'.
      case_decide as Hdue; simplify_eq; try (simpl in Hs'; discriminate).
      destruct (IH i n' Hn Hs'). simpl in Hdue. split; [lia|].
      destruct (Z_lt_dec (Index.tick s + 1 - infectedAt n') 30); [done|].
      destruct Hdue. split; [done | lia].
  - destruct (Index.factCheckMode s) eqn:Hmode; [|by simplify_eq].
    destruct (Index.handleClick _ _ _ _) as [nodeId|]; [|by simplify_eq].
    unfold Index.handleNodeClick in Hstep. rewrite Hmode in Hstep.
    destruct (applyFactCheck _ _ _ _) as [out|] eqn:Hfc; [|done].
    simplify_eq. simpl. split; [done|]. intros i n' Hn' Hs'.
    unfold applyFactCheck in Hfc.
    destruct (applyFactCheck_run _ _ _ _) as [[st k']|] eqn:Hst; [|done].
    simplify_eq. apply applyFactCheck_run_cures in Hst.
    apply (IH i). by eapply (rtc_cure_step_infected _ _ _ _ Hst). done.
  - by simplify_eq.
  - by simplify_eq.
  - simplify_eq. simpl. split; [done|]. intros i n' Hn' Hs'.
    destruct (campaign_selection (Index.nodes s) k) as [Hnd Hsel].
    destruct (aware_loop _ (copy_nodes (Index.nodes s)) Hnd Hsel) as [_ Hlook].
    unfold applyAwarenessCampaign, applyAwarenessCampaign_run in Hn'.
    simpl objs in Hn'. rewrite Hlook in Hn'. simpl in Hn'.
    case_decide.
    + destruct (Index.nodes s !! i); simpl in Hn'; simplify_eq.
    + by apply (IH i).
Qed.

(** The first render shows an infected node. *)
Lemma initNetwork_infected (k : nat) :
  exists s i n,
    Index.initNetwork rnd Math_hypot Math_sqrt Math_exp sort_random k = Some s /\
    Index.nodes s !! i = Some n /\ state n = infected.
Proof using sort_random_perm.
  destruct (initNetwork_inv k) as (n0 & e & s & Hgen & _ & Hinit & _ & Hsame & _).
  destruct (generateNetwork_stats _ _ _ _ _ _ 0 Hgen) as [_ Hstats].
  assert (Hin : exists n, n ∈ filter (fun n => state n = infected) n0).
  { injection Hstats as _ Hi _ _. simpl in Hi.
    destruct (filter (fun n => state n = infected) n0) as [|n l]; [done|].
    exists n. by left. }
  destruct Hin as (n & [Hs [i Hi]%list_elem_of_lookup]%list_elem_of_filter).
  destruct (Forall2_lookup_l _ _ _ _ _ Hsame Hi) as (n' & Hn' & _ & Hst & _).
  exists s, i, n'. split; [done|]. split; [done | congruence].
Qed.

End Facts.

(** * The properties on concrete runs *)

Lemma sample_generated :
  generateNetwork rnd_half hypot_squared sqrt_id exp_zero sort_keep
    sample_config 700 500 0 = Some (sample_nodes, sample_edges).
Proof. vm_compute. reflexivity. Defined.

Lemma sample_reachable :
  Reachable rnd_half hypot_squared sqrt_id exp_zero sort_keep
    sample_config 700 500 sample_nodes.
Proof. exact (reach_generate _ _ _ _ _ _ _ _ _ _ _ sample_generated). Defined.

Lemma pair_tick_run :
  core_run rnd_zero sort_keep pair_nodes pair_tick_store.
Proof.
  apply (run_tick _ _ _ (config_of 2 0 1) 5 0%nat pair_tick_store 1%nat).
  vm_compute. reflexivity.
Defined.

Example getStats_path_nodes :
  getStats path_nodes 3 =
  {| stats_tick := 3; stats_healthy := 2; stats_infected := 1;
     stats_recovered := 0; stats_aware := 0 |}.
Proof. reflexivity. Qed.

Example simulationTick_default_config :
  simulationTick rnd_zero path_nodes DEFAULT_CONFIG 1 0
  = Some [ node_at 0 infected 1 [1]; node_at 1 infected 0 [0; 2];
           node_at 2 infected 1 [1] ].
Proof. reflexivity. Qed.

Example applyFactCheck_path_nodes :
  applyFactCheck rnd_half path_nodes 1 0
  = Some [ node_at 0 healthy (-1) [1]; node_at 1 recovered 0 [0; 2];
           node_at 2 healthy (-1) [1] ].
Proof. reflexivity. Qed.

Example applyAwarenessCampaign_path_nodes :
  applyAwarenessCampaign sort_keep path_nodes 0
  = [ node_at 0 aware (-1) [1]; node_at 1 infected 0 [0; 2];
      node_at 2 healthy (-1) [1] ].
Proof. reflexivity. Qed.

Example sample_connections :
  connections <$> sample_nodes = [ [1; 2]; [0; 2]; [1; 0] ].
Proof. reflexivity. Qed.

Lemma getStats_count_conservation_witness :
  Reachable rnd_half hypot_squared sqrt_id exp_zero sort_keep
    sample_config 700 500 sample_nodes /\
  core_run rnd_zero sort_keep pair_nodes pair_tick_store /\
  Z.of_nat (stats_total (getStats sample_nodes 0)) = nodeCount sample_config /\
  stats_total (getStats (objs pair_tick_store) 5) = length pair_nodes.
Proof.
  split; [exact sample_reachable|]. split; [exact pair_tick_run|]. split.
  - exact (proj2 (proj2 (getStats_count_conservation rnd_half hypot_squared
             sqrt_id exp_zero sort_keep sort_keep_perm))
             _ _ _ _ 0 sample_reachable).
  - exact (proj1 (proj2 (getStats_count_conservation rnd_zero hypot_squared
             sqrt_id exp_zero sort_keep sort_keep_perm))
             _ _ 5 pair_tick_run).
Defined.

Lemma state_writes_legal_witness :
  core_run rnd_zero sort_keep pair_nodes pair_tick_store /\
  Forall legal_write (writes pair_tick_store) /\
  replay (writes pair_tick_store) (state <$> pair_nodes)
    = Some (state <$> objs pair_tick_store).
Proof.
  split; [exact pair_tick_run|].
  destruct (state_writes_legal rnd_zero sort_keep sort_keep_perm _ _ pair_tick_run)
    as (Hlegal & Hreplay & _).
  split; [exact Hlegal | exact Hreplay].
Defined.

(** C3, as stated, fails when [recoveryTime] is zero: node 1 is healthy
    before tick 5, is infected during it and is recovered at its end. *)
Lemma recovery_within_infection_tick :
  state <$> pair_nodes !! 1%nat = Some healthy /\
  simulationTick rnd_zero pair_nodes (config_of 2 0 1) 5 0
    = Some [ node_at 0 recovered 0 [1]; node_at 1 recovered 5 [0] ].
Proof. split; reflexivity. Qed.

Lemma recovery_timing_witness :
  simulationTick rnd_zero pair_nodes (config_of 2 30 1) 5 0
    = Some [ node_at 0 infected 0 [1]; node_at 1 infected 5 [0] ] /\
  0 < recoveryTime (config_of 2 30 1) /\
  state (node_at 1 healthy (-1) [0]) = healthy /\
  state (node_at 1 infected 5 [0]) <> recovered.
Proof.
  assert (Hrun : simulationTick rnd_zero pair_nodes (config_of 2 30 1) 5 0
                 = Some [ node_at 0 infected 0 [1]; node_at 1 infected 5 [0] ])
    by reflexivity.
  split; [exact Hrun|]. split; [reflexivity|]. split; [reflexivity|].
  destruct (recovery_timing rnd_zero pair_nodes _ (config_of 2 30 1) 5 0%nat 1%nat
              (node_at 1 healthy (-1) [0]) (node_at 1 infected 5 [0])
              Hrun eq_refl eq_refl) as (_ & _ & _ & Hsame_tick).
  apply Hsame_tick; reflexivity.
Defined.


Lemma generateNetwork_excess_seeds_witness :
  nodeCount (config_of 1 30 2) < initialInfected (config_of 1 30 2) /\
  generateNetwork rnd_zero hypot_squared sqrt_id exp_zero sort_keep
    (config_of 1 30 2) 700 500 0 = None.
Proof.
  split; [reflexivity|].
  apply (generateNetwork_excess_seeds rnd_zero hypot_squared sqrt_id exp_zero
           sort_keep sort_keep_perm). reflexivity.
Defined.





(** C8, as stated, fails for a single node: it has nobody to connect to. *)
Lemma single_node_has_no_connection :
  (fun r : list SimNode * list SimEdge => map connections r.1) <$>
    generateNetwork rnd_zero hypot_squared sqrt_id exp_zero sort_keep
      (config_of 1 30 1) 700 500 0
  = Some [ [] ].
Proof. reflexivity. Qed.

Lemma generated_degree_witness :
  0 <= initialInfected sample_config <= nodeCount sample_config /\
  nodeCount sample_config <> 1 /\
  generateNetwork rnd_half hypot_squared sqrt_id exp_zero sort_keep
    sample_config 700 500 0 = Some (sample_nodes, sample_edges) /\
  is_Some (generateNetwork rnd_half hypot_squared sqrt_id exp_zero sort_keep
             sample_config 700 500 0) /\
  (forall n, n ∈ sample_nodes -> (1 <= length (connections n))%nat).
Proof.
  assert (Hvalid : 0 <= initialInfected sample_config <= nodeCount sample_config)
    by (simpl; lia).
  assert (Htwo : nodeCount sample_config <> 1) by (simpl; lia).
  destruct (generated_degree rnd_half hypot_squared sqrt_id exp_zero sort_keep
              sort_keep_perm sample_config 700 500 0%nat) as [Hsome Hdeg].
  split; [exact Hvalid|]. split; [exact Htwo|]. split; [exact sample_generated|].
  split; [exact (Hsome Hvalid)|].
  exact (proj2 (Hdeg _ _ sample_generated) Htwo).
Defined.

Lemma path_nodes_wf : wf_network path_nodes.
Proof.
  intros i n Hn. unfold wf_node.
  destruct i as [|[|[|i]]]; simpl in Hn; [| | |discriminate Hn];
    injection Hn as <-; simpl;
    (split; [reflexivity|]);
    (split; [apply (bool_decide_unpack _); vm_compute; exact I
            |repeat (apply Forall_cons_2 || apply Forall_nil_2); lia]).
Defined.

Lemma applyFactCheck_effect_witness :
  wf_network path_nodes /\
  at_Z path_nodes 1 = Some (node_at 1 infected 0 [0; 2]) /\
  exists out,
    applyFactCheck rnd_zero path_nodes 1 0 = Some out /\
    at_Z out 1 = Some (node_at 1 recovered 0 [0; 2]).
Proof.
  split; [exact path_nodes_wf|]. split; [reflexivity|].
  destruct (applyFactCheck_effect rnd_zero path_nodes 1 0%nat
              (node_at 1 infected 0 [0; 2]) path_nodes_wf eq_refl)
    as (out & Hrun & Htarget & _).
  exists out. split; [exact Hrun | exact Htarget].
Defined.

Lemma campaign_selection_effect_witness :
  (forall (A : Type) (k : nat) (l : list A), sort_keep A k l ≡ₚ l) /\
  length (take (Z.to_nat (Qceiling (inject_Z (Z.of_nat
            (stats_healthy (getStats path_nodes 0))) * (2 # 10))))
            (sort_keep nat 0 (healthy_refs path_nodes)))
  = Z.to_nat (Qceiling (inject_Z (Z.of_nat
            (stats_healthy (getStats path_nodes 0))) * (2 # 10))).
Proof.
  split; [exact sort_keep_perm|].
  exact (proj1 (campaign_selection_effect sort_keep sort_keep_perm path_nodes 0%nat 0)).
Defined.

(** ** The further properties on concrete runs *)

Lemma pair_spread :
  simulationTick rnd_zero pair_nodes (config_of 2 30 1) 5 0
  = Some pair_after.
Proof. reflexivity. Defined.

Lemma layout_laid :
  applyForces hypot_squared layout_nodes [edge 0 1] 700 500 = Some laid_nodes.
Proof. vm_compute. reflexivity. Defined.

Lemma rnd_half_draw (j : nat) : (0 <= rnd_half j < 1)%Q.
Proof. split; [discriminate | reflexivity]. Defined.

Lemma generated_seeds_witness :
  exists seeds : list nat,
    NoDup seeds /\ length seeds = 1%nat /\
    getStats sample_nodes 0 =
      {| stats_tick := 0; stats_healthy := 2; stats_infected := 1;
         stats_recovered := 0; stats_aware := 0 |}.
Proof.
  destruct (generated_seeds rnd_half hypot_squared sqrt_id exp_zero sort_keep
              sort_keep_perm _ _ _ _ _ _ sample_generated)
    as (seeds & Hnd & Hlen & _ & _ & Hstats).
  exists seeds. split; [exact Hnd|]. split; [exact Hlen|]. reflexivity.
Defined.

Lemma generated_edges_witness : edges_ok sample_nodes sample_edges.
Proof.
  exact (generated_edges rnd_half hypot_squared sqrt_id exp_zero sort_keep
           _ _ _ _ _ _ sample_generated).
Defined.

Lemma generated_positions_witness :
  exists n, sample_nodes !! 0%nat = Some n /\
    id n = 0 /\ (60 <= x n)%Q /\ (x n <= 700 - 60)%Q /\ (60 <= y n <= 500 - 60)%Q.
Proof.
  destruct (lookup_lt_is_Some_2 sample_nodes 0) as [n Hn]; [simpl; lia|].
  exists n. split; [exact Hn|].
  destruct (generated_positions rnd_half hypot_squared sqrt_id exp_zero sort_keep
              _ _ _ _ _ _ 0%nat n sample_generated Hn) as (Hid & _ & _ & Hbox).
  split; [exact Hid|]. apply Hbox; [exact rnd_half_draw|discriminate|discriminate].
Defined.

Lemma simulationTick_no_infected_witness :
  Forall (fun n => state n <> infected) calm_nodes /\
  simulationTick rnd_zero calm_nodes DEFAULT_CONFIG 7 0 = Some calm_nodes.
Proof.
  assert (H : Forall (fun n => state n <> infected) calm_nodes)
    by (repeat constructor; discriminate).
  split; [exact H|].
  exact (proj2 (simulationTick_no_infected rnd_zero calm_nodes DEFAULT_CONFIG 7 0%nat H)).
Defined.

Lemma simulationTick_counts_witness :
  stats_aware (getStats pair_after 5)
    = stats_aware (getStats pair_nodes 4) /\
  (stats_healthy (getStats pair_after 5)
   <= stats_healthy (getStats pair_nodes 4))%nat.
Proof.
  destruct (simulationTick_counts rnd_zero pair_nodes _ (config_of 2 30 1) 5 0%nat 4 5
              pair_spread) as (Ha & Hh & _).
  split; [exact Ha | exact Hh].
Defined.

Lemma simulationTick_infection_source_witness :
  exposed pair_after 1.
Proof.
  apply (simulationTick_infection_source rnd_zero pair_nodes _ (config_of 2 30 1) 5
           0%nat 1%nat (node_at 1 healthy (-1) [0]) (node_at 1 infected 5 [0])
           pair_spread); [reflexivity|reflexivity|reflexivity|discriminate].
Defined.

Lemma simulationTick_returns_or_throws_witness :
  is_Some (simulationTick rnd_zero path_nodes DEFAULT_CONFIG 1 0) /\
  simulationTick rnd_zero dangling_nodes DEFAULT_CONFIG 1 0 = None.
Proof.
  split.
  - apply (proj1 (simulationTick_returns_or_throws rnd_zero path_nodes
                    DEFAULT_CONFIG 1 0%nat)).
    repeat constructor; simpl; lia.
  - apply (proj2 (simulationTick_returns_or_throws rnd_zero dangling_nodes
                    DEFAULT_CONFIG 1 0%nat) 0%nat (node_at 0 infected 0 [5]) 5);
      [reflexivity|reflexivity|by left|reflexivity].
Defined.

Lemma infectedAt_stamped_once_witness :
  Forall2 only_state_differs path_nodes
    [ node_at 0 healthy (-1) [1]; node_at 1 recovered 0 [0; 2];
      node_at 2 healthy (-1) [1] ] /\
  Forall2 only_state_differs path_nodes (applyAwarenessCampaign sort_keep path_nodes 0).
Proof.
  destruct (infectedAt_stamped_once rnd_half sort_keep sort_keep_perm)
    as (Hfc & Hcamp & _).
  split; [exact (Hfc path_nodes 1 0%nat _ eq_refl) | exact (Hcamp path_nodes 0%nat)].
Defined.

Lemma applyForces_frame_witness :
  length laid_nodes = 2%nat /\
  Forall2 (fun n n' => same_node n n') layout_nodes laid_nodes.
Proof.
  destruct (applyForces_frame hypot_squared layout_nodes laid_nodes [edge 0 1]
              700 500 layout_laid) as [Hlen Hall].
  split; [exact Hlen|].
  eapply Forall2_impl; [exact Hall|]. intros n n' H. exact (proj1 H).
Defined.

Lemma applyForces_clamps_witness :
  exists n, laid_nodes !! 1%nat = Some n /\
    (40 <= x n)%Q /\ (40 <= y n)%Q /\ (x n <= 700 - 40)%Q /\ (y n <= 500 - 40)%Q.
Proof.
  destruct (lookup_lt_is_Some_2 laid_nodes 1) as [n Hn]; [simpl; lia|].
  exists n. split; [exact Hn|].
  destruct (applyForces_clamps hypot_squared layout_nodes laid_nodes [edge 0 1]
              700 500 1%nat n layout_laid Hn) as (Hx & Hy & Hw & Hh & _).
  split; [exact Hx|]. split; [exact Hy|].
  split; [apply Hw; discriminate | apply Hh; discriminate].
Defined.

Lemma applyForces_momentum_witness :
  (sum_Q (vx <$> laid_nodes)
   == sum_Q ((fun n => (700 / 2 - x n) * (2 # 1000)) <$> layout_nodes))%Q /\
  (sum_Q (vy <$> laid_nodes)
   == sum_Q ((fun n => (500 / 2 - y n) * (2 # 1000)) <$> layout_nodes))%Q.
Proof.
  exact (applyForces_momentum hypot_squared layout_nodes laid_nodes [edge 0 1]
           700 500 layout_laid).
Defined.

Lemma initNetwork_spec_witness :
  exists s,
    Index.initNetwork rnd_half hypot_squared sqrt_id exp_zero sort_keep 0 = Some s /\
    length (Index.nodes s) = 80%nat /\
    Index.history s =
      [ {| stats_tick := 0; stats_healthy := 78; stats_infected := 2;
           stats_recovered := 0; stats_aware := 0 |} ].
Proof.
  destruct (initNetwork_spec rnd_half hypot_squared sqrt_id exp_zero sort_keep
              sort_keep_perm 0)
    as (n & e & s & _ & _ & _ & Hinit & _ & _ & _ & _ & Hhist & Hlen & _).
  exists s. split; [exact Hinit|]. split; [exact Hlen | exact Hhist].
Defined.

Lemma canvas_click_spec_witness :
  wf_network (Index.nodes click_state) /\
  Index.factCheckMode click_state = true /\
  exists out,
    Index.handle rnd_half hypot_squared sqrt_id exp_zero sort_keep click_state
      (Index.CanvasClick 0 0 0) =
    Some {| Index.nodes := out; Index.edges := Index.edges click_state;
            Index.tick := 0; Index.isRunning := false; Index.history := [];
            Index.factCheckMode := false |}.
Proof.
  split; [exact path_nodes_wf|]. split; [reflexivity|].
  destruct (canvas_click_spec rnd_half hypot_squared sqrt_id exp_zero sort_keep
              click_state 0 0 0%nat path_nodes_wf eq_refl)
    as [[Hnone _]|(i & node & out & _ & _ & _ & _ & _ & Hhandle)].
  - apply Forall_cons in Hnone as [Hfar _]. destruct Hfar. reflexivity.
  - exists out. exact Hhandle.
Defined.

Lemma page_never_throws_witness :
  exists s,
    Index.run rnd_half hypot_squared sqrt_id exp_zero sort_keep s /\
    Index.page_ok s /\
    is_Some (Index.handle rnd_half hypot_squared sqrt_id exp_zero sort_keep s
               (Index.Interval 0)).
Proof.
  destruct (initNetwork_infected rnd_half hypot_squared sqrt_id exp_zero sort_keep
              sort_keep_perm 0) as (s & _ & _ & Hinit & _).
  pose (Hrun := Index.run_init rnd_half hypot_squared sqrt_id exp_zero sort_keep
                  0 s Hinit).
  destruct (page_never_throws rnd_half hypot_squared sqrt_id exp_zero sort_keep
              sort_keep_perm s Hrun) as [Hok Hall].
  exists s. split; [exact Hrun|]. split; [exact Hok | exact (Hall (Index.Interval 0))].
Defined.

Lemma simulationTick_node_fate_witness :
  pair_after !! 0%nat
    = Some (node_at 0 infected 0 [1]) /\
  state (node_at 0 infected 0 [1]) <> healthy.
Proof.
  assert (Hs : state (node_at 0 infected 0 [1]) <> healthy) by discriminate.
  split; [|exact Hs].
  exact (proj1 (simulationTick_node_fate rnd_zero pair_nodes _ (config_of 2 30 1) 5
                  0%nat 0%nat (node_at 0 infected 0 [1]) pair_spread eq_refl) Hs).
Defined.

Lemma page_infection_age_witness :
  exists s i n,
    Index.run rnd_half hypot_squared sqrt_id exp_zero sort_keep s /\
    Index.nodes s !! i = Some n /\ state n = infected /\
    0 <= infectedAt n <= Index.tick s /\ Index.tick s - infectedAt n < 30.
Proof.
  destruct (initNetwork_infected rnd_half hypot_squared sqrt_id exp_zero sort_keep
              sort_keep_perm 0) as (s & i & n & Hinit & Hn & Hs).
  pose (Hrun := Index.run_init rnd_half hypot_squared sqrt_id exp_zero sort_keep
                  0 s Hinit).
  exists s, i, n. split; [exact Hrun|]. split; [exact Hn|]. split; [exact Hs|].
  exact (page_infection_age rnd_half hypot_squared sqrt_id exp_zero sort_keep
           sort_keep_perm s i n Hrun Hn Hs).
Defined.
